(** * TwinMind offline NLP engine: a shallow embedding of its analysis core

    The development follows the TypeScript sources
      - src/nlp/OfflineNLP.ts            (orchestrator, [OfflineNLP])
      - the sentiment dictionary class   ([SentimentDictionary])
      - src/nlp/patterns/ActionPatterns.ts   ([ActionPatterns])
      - src/nlp/extractors/TopicExtractor.ts ([TopicExtractor])

    Conventions of the embedding.
      - A JavaScript string is a [string]: a sequence of code units, here
        restricted to the 8-bit range (ASCII and Latin-1).
      - A JavaScript number is an exact rational ([Q]); the arithmetic of
        the source is read over the rationals, [toFixed(3)] is the decimal
        rounding the language defines.  [Math.max()] of no argument is
        [-Infinity] and is kept as such ([JS.NegInfinity]).
      - [Set]s whose iteration order is never observed are [gset]s, [Map]s
        that are only looked up are [gmap]s; a [Map] that the code iterates
        is an association list in insertion order.
      - Regular expressions are syntax trees run by a backtracking matcher
        with the priorities of the language (leftmost alternative first,
        greedy quantifiers). *)

From Stdlib Require Import ZArith QArith Qround Qabs Lia Lqa Ascii String List.
From stdpp Require Import gmap strings list sorting.

Local Open Scope Z_scope.

(* ================================================================== *)
(** ** JavaScript primitives used by the engine                        *)
(* ================================================================== *)
Module JS.

(** *** Numbers *)

Definition Qltb (a b : Q) : bool := negb (Qle_bool b a).

Definition Math_max (a b : Q) : Q := if Qle_bool a b then b else a.
Definition Math_min (a b : Q) : Q := if Qle_bool a b then a else b.
Definition Math_abs (a : Q) : Q := Qabs a.

Definition ofNat (n : nat) : Q := inject_Z (Z.of_nat n).

(** [x.toFixed(3)] read back by [Number(...)]: the multiple of 1/1000
    closest to [x]; of two equally close ones the larger in magnitude
    (the sign is split off first, then "pick the larger n"). *)
Definition round3 (x : Q) : Q := (Qfloor (x * 1000 + (1 # 2)) # 1) / 1000.
Definition toFixed3 (x : Q) : Q :=
  if Qltb x 0 then - round3 (- x) else round3 x.

(** The value of [Math.max(...xs)]. *)
Inductive extended := NegInfinity | Finite (q : Q).

Definition Math_max_spread (xs : list Q) : extended :=
  fold_left (fun acc x =>
               match acc with
               | NegInfinity => Finite x
               | Finite a => Finite (Math_max a x)
               end) xs NegInfinity.

(** [x / d] for a finite [x] (a division by [-Infinity] gives zero). *)
Definition div_ext (x : Q) (d : extended) : Q :=
  match d with
  | NegInfinity => 0
  | Finite q => x / q
  end.

(** *** Characters and strings *)

Definition code (c : ascii) : nat := nat_of_ascii c.

Definition isDigit (c : ascii) : bool :=
  (48 <=? code c)%nat && (code c <=? 57)%nat.
Definition isUpperAscii (c : ascii) : bool :=
  (65 <=? code c)%nat && (code c <=? 90)%nat.
Definition isLowerAscii (c : ascii) : bool :=
  (97 <=? code c)%nat && (code c <=? 122)%nat.
(** [\w] *)
Definition isWord (c : ascii) : bool :=
  isDigit c || isUpperAscii c || isLowerAscii c || (code c =? 95)%nat.
(** [\s], which is also what [trim] strips: TAB LF VT FF CR SP NBSP. *)
Definition isSpace (c : ascii) : bool :=
  ((9 <=? code c)%nat && (code c <=? 13)%nat)
  || (code c =? 32)%nat || (code c =? 160)%nat.
(** Line terminators, excluded by [.] *)
Definition isLineTerminator (c : ascii) : bool :=
  (code c =? 10)%nat || (code c =? 13)%nat.

(** [toLowerCase] on a code unit: A-Z, and the Latin-1 capitals
    U+00C0..U+00DE without the multiplication sign U+00D7. *)
Definition lowerChar (c : ascii) : ascii :=
  if isUpperAscii c
     || ((192 <=? code c)%nat && (code c <=? 222)%nat
         && negb (code c =? 215)%nat)
  then ascii_of_nat (code c + 32) else c.

(** Case folding of the [i] flag (upper-casing); on the 8-bit range
    only a-z and the Latin-1 small letters have a one-unit capital in
    range. *)
Definition canonChar (c : ascii) : ascii :=
  if isLowerAscii c
     || ((224 <=? code c)%nat && (code c <=? 254)%nat
         && negb (code c =? 247)%nat)
  then ascii_of_nat (code c - 32) else c.

Fixpoint mapString (f : ascii -> ascii) (s : string) : string :=
  match s with
  | EmptyString => EmptyString
  | String c r => String (f c) (mapString f r)
  end.

Definition toLowerCase (s : string) : string := mapString lowerChar s.

Definition strlen (s : string) : nat := String.length s.

Fixpoint dropWhile (p : ascii -> bool) (s : string) : string :=
  match s with
  | EmptyString => EmptyString
  | String c r => if p c then dropWhile p r else s
  end.

Fixpoint revString (acc s : string) : string :=
  match s with
  | EmptyString => acc
  | String c r => revString (String c acc) r
  end.

Definition trim (s : string) : string :=
  revString "" (dropWhile isSpace (revString "" (dropWhile isSpace s))).

(** [s.startsWith(p)] as a computation; used by [indexOf]. *)
Fixpoint startsWith (p s : string) : bool :=
  match p, s with
  | EmptyString, _ => true
  | String a p', String b s' => if Ascii.eqb a b then startsWith p' s' else false
  | String _ _, EmptyString => false
  end.

(** [s.indexOf(p)]: first position, or -1. *)
Fixpoint indexOfFrom (i : Z) (p s : string) : Z :=
  if startsWith p s then i
  else match s with
       | EmptyString => -1
       | String _ r => indexOfFrom (i + 1) p r
       end.
Definition indexOf (s p : string) : Z := indexOfFrom 0 p s.

(** [s.lastIndexOf(p)]: last position, or -1. *)
Fixpoint lastIndexOfFrom (i best : Z) (p s : string) : Z :=
  let best' := if startsWith p s then i else best in
  match s with
  | EmptyString => best'
  | String _ r => lastIndexOfFrom (i + 1) best' p r
  end.
Definition lastIndexOf (s p : string) : Z := lastIndexOfFrom 0 (-1) p s.

(** [s.includes(p)] on strings *)
Definition includes (s p : string) : bool := 0 <=? indexOf s p.

(** [xs.includes(x)] on arrays of strings *)
Definition arrIncludes (xs : list string) (x : string) : bool :=
  existsb (String.eqb x) xs.

(** [xs.indexOf(x)] on arrays of strings: first index, or -1. *)
Fixpoint arrIndexOfFrom (i : Z) (xs : list string) (x : string) : Z :=
  match xs with
  | [] => -1
  | y :: r => if String.eqb y x then i else arrIndexOfFrom (i + 1) r x
  end.
Definition arrIndexOf (xs : list string) (x : string) : Z :=
  arrIndexOfFrom 0 xs x.

(** [xs.slice(a, b)] for non-negative bounds *)
Definition slice {A} (a b : nat) (xs : list A) : list A :=
  firstn (b - a) (skipn a xs).

(** [Array.from(new Set(xs))] and [[...new Set(xs)]]: the first
    occurrences, in order. *)
Fixpoint uniq (seen xs : list string) : list string :=
  match xs with
  | [] => []
  | x :: r => if arrIncludes seen x then uniq seen r
              else x :: uniq (x :: seen) r
  end.
Definition fromSet (xs : list string) : list string := uniq [] xs.

(** [xs.sort(cmp)]: the sort is stable, and [a] goes before [b] when
    [cmp(a, b) <= 0]; [le a b] stands for that test. *)
Section Sort.
Context {A : Type} (le : A -> A -> bool).
Fixpoint insertSorted (x : A) (l : list A) : list A :=
  match l with
  | [] => [x]
  | y :: r => if le x y then x :: l else y :: insertSorted x r
  end.
Fixpoint sort (l : list A) : list A :=
  match l with
  | [] => []
  | x :: r => insertSorted x (sort r)
  end.
End Sort.

(** *** Completions: a call returns, throws, or does not terminate *)
Inductive completion (A : Type) : Type :=
| Normal (a : A)
| Throw (e : string)
| Diverge.
Arguments Normal {A} a.
Arguments Throw {A} e.
Arguments Diverge {A}.

Global Instance completion_ret : MRet completion := fun _ a => Normal a.
Global Instance completion_bind : MBind completion := fun _ _ f m =>
  match m with
  | Normal a => f a
  | Throw e => Throw e
  | Diverge => Diverge
  end.

(** [x.toFixed(2)] read back by [Number(...)] *)
Definition round2 (x : Q) : Q := ((Qfloor (x * 100 + (1 # 2)) # 1) / 100)%Q.
Definition toFixed2 (x : Q) : Q :=
  if Qltb x 0 then (- round2 (- x))%Q else round2 x.

(** A [Map] with string keys, as the list of its entries in insertion
    order.  [map.set(k, v)] replaces the value of an existing key where it
    stands and appends a new key; [map.get(k)] is the value, if any. *)
Fixpoint mapSet {V : Type} (k : string) (v : V) (m : list (string * V))
  : list (string * V) :=
  match m with
  | [] => [(k, v)]
  | (k', v') :: r => if String.eqb k' k then (k', v) :: r else (k', v') :: mapSet k v r
  end.

Fixpoint mapGet {V : Type} (k : string) (m : list (string * V)) : option V :=
  match m with
  | [] => None
  | (k', v') :: r => if String.eqb k' k then Some v' else mapGet k r
  end.

End JS.

(* ================================================================== *)
(** ** Regular expressions                                             *)
(* ================================================================== *)
Module RegExp.
Import JS.

Inductive charclass :=
| Dot                      (* .   *)
| SpaceC                   (* \s  *)
| WordC                    (* \w  *)
| DigitC                   (* \d  *)
| OneOf (cs : list ascii)  (* [...] *)
| NotC (cl : charclass).   (* \W, [^...] *)

Inductive syntax :=
| Lit (p : string)                               (* literal text *)
| Seq (a b : syntax)
| Alt (a b : syntax)                              (* a|b *)
| Rep (cl : charclass) (mn : nat) (mx : option nat) (* c{mn,mx}, greedy *)
| Opt (a : syntax)                                (* (?:a)? *)
| Bol                                            (* ^ *)
| Eol                                            (* $ *)
| WordB.                                         (* \b *)

Record RegExp := {
  source : syntax;
  ignoreCase : bool;
  global : bool
}.

(** [(?:p1|p2|...)] over literals *)
Fixpoint oneOfLits (ps : list string) : syntax :=
  match ps with
  | [] => Lit ""
  | [p] => Lit p
  | p :: r => Alt (Lit p) (oneOfLits r)
  end.

Fixpoint seqs (rs : list syntax) : syntax :=
  match rs with
  | [] => Lit ""
  | [r] => r
  | r :: t => Seq r (seqs t)
  end.

Definition plus (cl : charclass) : syntax := Rep cl 1 None.
Definition star (cl : charclass) : syntax := Rep cl 0 None.
Definition range (cl : charclass) (a b : nat) : syntax := Rep cl a (Some b).

Section Matcher.
Variable icase : bool.

Definition chrEq (a b : ascii) : bool :=
  if icase then Ascii.eqb (canonChar a) (canonChar b) else Ascii.eqb a b.

Fixpoint classMatches (cl : charclass) (c : ascii) : bool :=
  match cl with
  | Dot => negb (isLineTerminator c)
  | SpaceC => isSpace c
  | WordC => isWord c
  | DigitC => isDigit c
  | OneOf cs => existsb (chrEq c) cs
  | NotC cl' => negb (classMatches cl' c)
  end.

(** A continuation receives the last consumed code unit (if any) and
    the remaining input, and answers with the same pair at the end of
    the whole match. *)
Definition position : Type := option ascii * string.
Definition cont : Type := option ascii -> string -> option position.

Fixpoint lit (p : string) (prev : option ascii) (s : string) (k : cont)
  : option position :=
  match p with
  | EmptyString => k prev s
  | String a p' =>
      match s with
      | String b s' => if chrEq a b then lit p' (Some b) s' k else None
      | EmptyString => None
      end
  end.

Fixpoint rep (cl : charclass) (mn : nat) (mx : option nat)
         (prev : option ascii) (s : string) (k : cont) {struct s}
  : option position :=
  let stop := match mn with O => k prev s | S _ => None end in
  match s with
  | String c s' =>
      if match mx with Some O => false | _ => classMatches cl c end
      then match rep cl (Nat.pred mn) (option_map Nat.pred mx) (Some c) s' k with
           | Some r => Some r
           | None => stop
           end
      else stop
  | EmptyString => stop
  end.

Definition atWordBoundary (prev : option ascii) (s : string) : bool :=
  xorb (match prev with Some c => isWord c | None => false end)
       (match s with String c _ => isWord c | EmptyString => false end).

Fixpoint run (r : syntax) (prev : option ascii) (s : string) (k : cont)
  : option position :=
  match r with
  | Lit p => lit p prev s k
  | Seq a b => run a prev s (fun prev' s' => run b prev' s' k)
  | Alt a b =>
      match run a prev s k with
      | Some x => Some x
      | None => run b prev s k
      end
  | Rep cl mn mx => rep cl mn mx prev s k
  | Opt a =>
      match run a prev s k with
      | Some x => Some x
      | None => k prev s
      end
  | Bol => match prev with None => k prev s | Some _ => None end
  | Eol => match s with EmptyString => k prev s | String _ _ => None end
  | WordB => if atWordBoundary prev s then k prev s else None
  end.

Definition accept : cont := fun prev s => Some (prev, s).

Fixpoint take (n : nat) (s : string) : string :=
  match n, s with
  | S n', String c r => String c (take n' r)
  | _, _ => EmptyString
  end.

Record Match := {
  before : string;          (* input skipped before the match *)
  matched : string;         (* match[0] *)
  lastUnit : option ascii;  (* code unit in front of [rest] *)
  rest : string             (* input from the new lastIndex on *)
}.

(** One [exec] from the position in front of [s]: the leftmost start
    at which the pattern matches. *)
Fixpoint scan (r : syntax) (skipped : string) (prev : option ascii) (s : string)
  : option Match :=
  match run r prev s accept with
  | Some (prev', s') =>
      Some {| before := revString "" skipped;
              matched := take (strlen s - strlen s') s;
              lastUnit := prev';
              rest := s' |}
  | None =>
      match s with
      | String c s' => scan r (String c skipped) (Some c) s'
      | EmptyString => None
      end
  end.
End Matcher.

Definition exec (re : RegExp) (prev : option ascii) (s : string) : option Match :=
  scan (ignoreCase re) (source re) "" prev s.

(** [re.test(s)] for a pattern without the [g] flag *)
Definition test (re : RegExp) (s : string) : bool :=
  match exec re None s with Some _ => true | None => false end.

(** [s.replace(re, by)]: the first match only without the [g] flag;
    every match with it (after an empty match the next search starts
    one unit further). *)
Fixpoint replaceLoop (fuel : nat) (re : RegExp) (by_ : string)
         (prev : option ascii) (s : string) : string :=
  match fuel with
  | O => s
  | S fuel' =>
      match exec re prev s with
      | None => s
      | Some m =>
          before m +:+ by_ +:+
          match matched m, rest m with
          | EmptyString, String c r =>
              String c (replaceLoop fuel' re by_ (Some c) r)
          | EmptyString, EmptyString => EmptyString
          | String _ _, r => replaceLoop fuel' re by_ (lastUnit m) r
          end
      end
  end.

Definition replace (s : string) (re : RegExp) (by_ : string) : string :=
  if global re then replaceLoop (S (strlen s)) re by_ None s
  else match exec re None s with
       | None => s
       | Some m => before m +:+ by_ +:+ rest m
       end.

(** The guaranteed length of a match. *)
Fixpoint minLen (r : syntax) : nat :=
  match r with
  | Lit p => strlen p
  | Seq a b => minLen a + minLen b
  | Alt a b => Nat.min (minLen a) (minLen b)
  | Rep _ mn _ => mn
  | Opt _ | Bol | Eol | WordB => 0
  end.

End RegExp.

(* ================================================================== *)
(** ** SentimentDictionary                                             *)
(* ================================================================== *)
Module SentimentDictionary.
Import JS.
Local Open Scope Q_scope.

Inductive Label := Positive | Negative | Neutral.

Record Breakdown := {
  positiveWordsFound : list string;
  negativeWordsFound : list string;
  intensifiersFound : list string;
  negatorsFound : list string
}.

Record SentimentAnalysis := {
  score : Q;
  confidence : Q;
  label : Label;
  breakdown : Breakdown
}.

Definition positiveWordsList : list string := [
  "happy"; "joy"; "excited"; "amazing"; "awesome"; "fantastic"; "wonderful";
  "great"; "excellent"; "perfect"; "brilliant"; "outstanding"; "superb";
  "delighted"; "thrilled"; "elated"; "cheerful"; "optimistic"; "confident";
  "proud"; "satisfied"; "grateful"; "blessed"; "lucky"; "fortunate";

  "success"; "achieve"; "accomplished"; "complete"; "finished"; "done";
  "won"; "victory"; "triumph"; "breakthrough"; "progress"; "improvement";
  "advance"; "growth"; "development"; "innovation"; "creative"; "productive";

  "love"; "friend"; "family"; "support"; "help"; "team"; "together";
  "connected"; "close"; "bond"; "trust"; "respect"; "appreciation";
  "kindness"; "generous"; "caring"; "compassionate"; "understanding";

  "opportunity"; "promotion"; "raise"; "bonus"; "recognition"; "praise";
  "compliment"; "recommendation"; "approval"; "acceptance"; "hired";
  "qualified"; "skilled"; "expert"; "professional"; "capable";

  "healthy"; "energetic"; "strong"; "fit"; "well"; "better"; "recovered";
  "refreshed"; "relaxed"; "calm"; "peaceful"; "centered"; "balanced";

  "good"; "nice"; "fine"; "okay"; "alright"; "pleasant"; "smooth";
  "easy"; "simple"; "clear"; "bright"; "beautiful"; "lovely"; "pretty";
  "cool"; "interesting"; "fun"; "enjoyable"; "entertaining"; "engaging"
].

Definition negativeWordsList : list string := [
  "sad"; "angry"; "frustrated"; "annoyed"; "upset"; "disappointed";
  "depressed"; "anxious"; "worried"; "stressed"; "overwhelmed"; "exhausted";
  "tired"; "bored"; "lonely"; "isolated"; "rejected"; "hurt"; "pain";
  "suffering"; "miserable"; "terrible"; "awful"; "horrible"; "disgusting";

  "problem"; "issue"; "trouble"; "difficulty"; "struggle"; "challenge";
  "obstacle"; "barrier"; "setback"; "failure"; "mistake"; "error";
  "wrong"; "bad"; "worse"; "worst"; "failed"; "broken"; "damaged";

  "fired"; "laid off"; "rejected"; "denied"; "refused"; "criticized";
  "complained"; "blamed"; "accused"; "punished"; "penalized"; "demoted";
  "overworked"; "underpaid"; "unfair"; "biased"; "discrimination";

  "sick"; "ill"; "disease"; "injury"; "hurt"; "ache"; "sore"; "weak";
  "fatigue"; "nausea"; "fever"; "infection"; "allergic"; "chronic";

  "argument"; "fight"; "conflict"; "disagreement"; "breakup"; "divorce";
  "betrayed"; "cheated"; "lied"; "deceived"; "abandoned"; "ignored";
  "excluded"; "bullied"; "harassed"; "abused"; "threatened";

  "hate"; "dislike"; "avoid"; "prevent"; "stop"; "quit"; "give up";
  "impossible"; "hopeless"; "useless"; "worthless"; "meaningless";
  "waste"; "loss"; "lose"; "lost"; "missing"; "gone"; "empty"; "nothing"
].

Definition intensifiersList : list string := [
  "very"; "extremely"; "incredibly"; "amazingly"; "absolutely"; "completely";
  "totally"; "entirely"; "perfectly"; "fully"; "really"; "truly";
  "genuinely"; "seriously"; "definitely"; "certainly"; "surely";
  "quite"; "rather"; "pretty"; "fairly"; "somewhat"; "kind of";
  "super"; "mega"; "ultra"; "highly"; "deeply"; "strongly";
  "tremendously"; "enormously"; "immensely"; "exceptionally"
].

Definition negatorsList : list string := [
  "not"; "no"; "never"; "nothing"; "nobody"; "none"; "neither";
  "without"; "lack"; "lacking"; "missing"; "absent"; "void";
  "don't"; "won't"; "can't"; "shouldn't"; "wouldn't"; "couldn't";
  "isn't"; "aren't"; "wasn't"; "weren't"; "hasn't"; "haven't";
  "hadn't"; "doesn't"; "didn't"; "barely"; "hardly"; "scarcely";
  "refuse"; "deny"; "reject"; "avoid"; "prevent"; "stop"
].

(** The dictionaries of one engine instance ([this]). *)
Record Dictionaries := {
  positiveWords : gset string;
  negativeWords : gset string;
  intensifiers : gset string;
  negators : gset string;
  positiveScores : gmap string Q;
  negativeScores : gmap string Q
}.

Definition positiveTier (word : string) : Q :=
  if arrIncludes ["amazing"; "awesome"; "fantastic"; "excellent"; "perfect"; "brilliant"] word
  then 8 # 10
  else if arrIncludes ["great"; "good"; "nice"; "happy"; "wonderful"] word
  then 6 # 10
  else 4 # 10.

Definition negativeTier (word : string) : Q :=
  if arrIncludes ["terrible"; "awful"; "horrible"; "hate"; "disgusting"] word
  then - (8 # 10)
  else if arrIncludes ["bad"; "sad"; "angry"; "problem"; "wrong"] word
  then - (6 # 10)
  else - (4 # 10).

Definition initializeDictionaries : Dictionaries := {|
  positiveWords := list_to_set positiveWordsList;
  negativeWords := list_to_set negativeWordsList;
  intensifiers := list_to_set intensifiersList;
  negators := list_to_set negatorsList;
  positiveScores :=
    fold_left (fun m word => <[word := positiveTier word]> m) positiveWordsList ∅;
  negativeScores :=
    fold_left (fun m word => <[word := negativeTier word]> m) negativeWordsList ∅
|}.

(** [set.has(w)] *)
Definition has (s : gset string) (w : string) : bool := bool_decide (w ∈ s).

(** [map.get(w) || dflt]: the default also replaces a stored zero. *)
Definition getOr (m : gmap string Q) (w : string) (dflt : Q) : Q :=
  match m !! w with
  | Some v => if Qeq_bool v 0 then dflt else v
  | None => dflt
  end.

(** State of the loop of [analyze]. *)
Record LoopState := {
  bd : Breakdown;
  totalScore : Q;
  sentimentWords : nat
}.

Definition initialState : LoopState := {|
  bd := {| positiveWordsFound := []; negativeWordsFound := [];
           intensifiersFound := []; negatorsFound := [] |};
  totalScore := 0;
  sentimentWords := 0%nat
|}.

Definition pushIntensifier (w : string) (b : Breakdown) : Breakdown :=
  {| positiveWordsFound := positiveWordsFound b;
     negativeWordsFound := negativeWordsFound b;
     intensifiersFound := intensifiersFound b ++ [w];
     negatorsFound := negatorsFound b |}.
Definition pushNegator (w : string) (b : Breakdown) : Breakdown :=
  {| positiveWordsFound := positiveWordsFound b;
     negativeWordsFound := negativeWordsFound b;
     intensifiersFound := intensifiersFound b;
     negatorsFound := negatorsFound b ++ [w] |}.
Definition pushPositive (w : string) (b : Breakdown) : Breakdown :=
  {| positiveWordsFound := positiveWordsFound b ++ [w];
     negativeWordsFound := negativeWordsFound b;
     intensifiersFound := intensifiersFound b;
     negatorsFound := negatorsFound b |}.
Definition pushNegative (w : string) (b : Breakdown) : Breakdown :=
  {| positiveWordsFound := positiveWordsFound b;
     negativeWordsFound := negativeWordsFound b ++ [w];
     intensifiersFound := intensifiersFound b;
     negatorsFound := negatorsFound b |}.

Section Analyze.
Variable this : Dictionaries.

(** [lowerWords[j]] for an index inside the array *)
Definition at_ (lowerWords : list string) (j : nat) : string :=
  nth j lowerWords "".

(** The inner loop [for (j = Math.max(0, i - 2); j < i; j++)]. *)
Definition isNegatedAt (lowerWords : list string) (i : nat) : bool :=
  existsb (fun j => has (negators this) (at_ lowerWords j))
          (seq (i - 2) (i - (i - 2)))%nat.

Definition intensityMultiplier (prevWord nextWord : string) : Q :=
  let m := if has (intensifiers this) prevWord then 13 # 10 else 1 in
  if has (intensifiers this) nextWord then Math_max m (12 # 10) else m.

(** Base score of a word, and the breakdown after looking it up. *)
Definition baseScore (word : string) (b : Breakdown) : Q * Breakdown :=
  if has (positiveWords this) word then
    (getOr (positiveScores this) word (4 # 10), pushPositive word b)
  else if has (negativeWords this) word then
    (getOr (negativeScores this) word (- (4 # 10)), pushNegative word b)
  else (0, b).

(** [i > 0 ? lowerWords[i - 1] : ''] and
    [i < lowerWords.length - 1 ? lowerWords[i + 1] : ''] *)
Definition prevWordAt (lowerWords : list string) (i : nat) : string :=
  if (0 <? i)%nat then at_ lowerWords (i - 1)%nat else "".
Definition nextWordAt (lowerWords : list string) (i : nat) : string :=
  if (i <? length lowerWords - 1)%nat then at_ lowerWords (i + 1)%nat else "".

(** One iteration of the [for] loop over [lowerWords]. *)
Definition step (lowerWords : list string) (st : LoopState) (i : nat) : LoopState :=
  let word := at_ lowerWords i in
  let prevWord := prevWordAt lowerWords i in
  let nextWord := nextWordAt lowerWords i in
  if has (intensifiers this) word then
    {| bd := pushIntensifier word (bd st);
       totalScore := totalScore st;
       sentimentWords := sentimentWords st |}
  else if has (negators this) word then
    {| bd := pushNegator word (bd st);
       totalScore := totalScore st;
       sentimentWords := sentimentWords st |}
  else
    let '(wordScore, b) := baseScore word (bd st) in
    if negb (Qeq_bool wordScore 0) then
      let isNegated := isNegatedAt lowerWords i in
      let m := intensityMultiplier prevWord nextWord in
      let wordScore1 := if isNegated then - wordScore * (8 # 10) else wordScore in
      let wordScore2 := wordScore1 * m in
      {| bd := b;
         totalScore := totalScore st + wordScore2;
         sentimentWords := S (sentimentWords st) |}
    else
      {| bd := b;
         totalScore := totalScore st;
         sentimentWords := sentimentWords st |}.

Definition loop (lowerWords : list string) : LoopState :=
  fold_left (step lowerWords) (seq 0 (length lowerWords)) initialState.

Definition labelOf (normalizedScore : Q) : Label :=
  if Qltb (1 # 10) normalizedScore then Positive
  else if Qltb normalizedScore (- (1 # 10)) then Negative
  else Neutral.

Definition averageScore (st : LoopState) : Q :=
  if (0 <? sentimentWords st)%nat
  then totalScore st / ofNat (sentimentWords st) else 0.

Definition normalizedScore (st : LoopState) : Q :=
  Math_max (- (1)) (Math_min 1 (averageScore st)).

Definition rawConfidence (nwords : nat) (st : LoopState) : Q :=
  let wordDensity := ofNat (sentimentWords st) / Math_max 1 (ofNat nwords) in
  let consistencyFactor :=
    if (0 <? sentimentWords st)%nat
    then Math_abs (totalScore st) / ofNat (sentimentWords st) else 0 in
  Math_min (95 # 100) (wordDensity * 2 + consistencyFactor * (5 # 10)).

Definition analyze (text : string) (words : list string) : SentimentAnalysis :=
  let lowerWords := map toLowerCase words in
  let st := loop lowerWords in
  {| score := toFixed3 (normalizedScore st);
     confidence := toFixed3 (rawConfidence (length words) st);
     label := labelOf (normalizedScore st);
     breakdown := bd st |}.
End Analyze.

(** The dictionaries of the engine, built once by the constructor. *)
Definition dict : Dictionaries := Eval vm_compute in initializeDictionaries.

(** *** [quickAnalyze] *)

Record QuickSentiment := {
  quickLabel : Label;
  quickConfidence : Q
}.

Section Quick.
Variable this : Dictionaries.

(** One call of the [forEach] callback on the two counters. *)
Definition countWord (counts : nat * nat) (word : string) : nat * nat :=
  if has (positiveWords this) (toLowerCase word) then (S (fst counts), snd counts)
  else if has (negativeWords this) (toLowerCase word) then (fst counts, S (snd counts))
  else counts.

Definition countHits (words : list string) : nat * nat :=
  fold_left countWord words (0%nat, 0%nat).

Definition quickAnalyze (words : list string) : QuickSentiment :=
  let '(positiveCount, negativeCount) := countHits words in
  let totalSentiment := (positiveCount + negativeCount)%nat in
  if (totalSentiment =? 0)%nat then
    {| quickLabel := Neutral; quickConfidence := 0 |}
  else
    let positiveRatio := ofNat positiveCount / ofNat totalSentiment in
    let confidence_ :=
      Math_min (9 # 10)
               (ofNat totalSentiment / Math_max 1 (ofNat (length words)) * 2) in
    if Qltb (6 # 10) positiveRatio then
      {| quickLabel := Positive; quickConfidence := confidence_ |}
    else if Qltb positiveRatio (4 # 10) then
      {| quickLabel := Negative; quickConfidence := confidence_ |}
    else
      {| quickLabel := Neutral; quickConfidence := confidence_ |}.
End Quick.

(** *** [addCustomWords] and [getSize] *)

Definition addPositive (d : Dictionaries) (word : string) : Dictionaries :=
  {| positiveWords := {[toLowerCase word]} ∪ positiveWords d;
     negativeWords := negativeWords d;
     intensifiers := intensifiers d;
     negators := negators d;
     positiveScores := <[toLowerCase word := 5 # 10]> (positiveScores d);
     negativeScores := negativeScores d |}.

Definition addNegative (d : Dictionaries) (word : string) : Dictionaries :=
  {| positiveWords := positiveWords d;
     negativeWords := {[toLowerCase word]} ∪ negativeWords d;
     intensifiers := intensifiers d;
     negators := negators d;
     positiveScores := positiveScores d;
     negativeScores := <[toLowerCase word := - (5 # 10)]> (negativeScores d) |}.

Definition addCustomWords (this : Dictionaries) (positive_ negative_ : list string)
  : Dictionaries :=
  fold_left addNegative negative_ (fold_left addPositive positive_ this).

Definition getSize (this : Dictionaries) : nat :=
  (size (positiveWords this) + size (negativeWords this)
   + size (intensifiers this) + size (negators this))%nat.

End SentimentDictionary.

(* ================================================================== *)
(** ** ActionPatterns                                                  *)
(* ================================================================== *)
Module ActionPatterns.
Import JS RegExp.

Inductive Priority := High | Medium | Low.

Record PatternConfig := {
  regex : RegExp;
  priority : Priority;
  category : string;
  description : string
}.

Record PatternResult := {
  pattern : string;
  matches : list string;
  resultPriority : Priority
}.

Record ActionDetectionResult := {
  items : list string;
  patterns : list PatternResult;
  totalCount : nat
}.

(** [/.../gi] *)
Definition gi (r : syntax) : RegExp :=
  {| source := r; ignoreCase := true; global := true |}.

Fixpoint alts (rs : list syntax) : syntax :=
  match rs with
  | [] => Lit ""
  | [r] => r
  | r :: t => Alt r (alts t)
  end.

(** [(?:\.|!|$)] *)
Definition ender : syntax := alts [Lit "."; Lit "!"; Eol].

Definition config (r : syntax) (p : Priority) (c d : string) : PatternConfig :=
  {| regex := gi r; priority := p; category := c; description := d |}.

(** The map built by [initializePatterns], in insertion order. *)
Definition initializePatterns : list (string * PatternConfig) := [
  ("urgent_tasks",
   config (seqs [oneOfLits ["urgent"; "asap"; "immediately"; "right away";
                            "emergency"; "critical"; "must do"];
                 plus SpaceC; range Dot 1 100; ender])
          High "urgent" "Urgent tasks requiring immediate attention");
  ("deadline_tasks",
   config (seqs [oneOfLits ["due"; "deadline"; "by"; "before"; "until"];
                 plus SpaceC;
                 alts [Lit "today"; Lit "tomorrow"; Lit "this week"; Lit "next week";
                       seqs [range DigitC 1 2; range (OneOf ["/"; "-"]%char) 1 1;
                             range DigitC 1 2];
                       Seq (plus WordC) (Lit "day")];
                 range Dot 0 100; ender])
          High "deadline" "Tasks with specific deadlines");
  ("need_to_actions",
   config (seqs [oneOfLits ["need to"; "have to"; "must"; "should"; "got to"];
                 plus SpaceC;
                 oneOfLits ["do"; "complete"; "finish"; "start"; "begin"; "work on";
                            "handle"; "take care of"; "deal with"];
                 plus SpaceC; range Dot 1 80; ender])
          High "obligation" "Tasks with strong obligation language");
  ("todo_items",
   config (seqs [oneOfLits ["to do"; "todo"; "task"; "action item"]; Lit ":";
                 star SpaceC; range Dot 1 100; ender])
          Medium "todo" "Explicit todo items");
  ("planning_actions",
   config (seqs [oneOfLits ["plan to"; "planning to"; "going to"; "will"; "intend to"];
                 plus SpaceC;
                 oneOfLits ["do"; "make"; "create"; "build"; "write"; "call"; "email";
                            "meet"; "visit"; "buy"; "get"; "start"; "finish"];
                 range Dot 0 80; ender])
          Medium "planning" "Planned future actions");
  ("meeting_actions",
   config (seqs [oneOfLits ["schedule"; "arrange"; "set up"; "book"];
                 plus SpaceC; Opt (oneOfLits ["a"; "an"]); star SpaceC;
                 oneOfLits ["meeting"; "call"; "appointment"; "session"];
                 plus SpaceC; oneOfLits ["with"; "for"];
                 range Dot 0 60; ender])
          Medium "meeting" "Meeting and appointment scheduling");
  ("communication_actions",
   config (seqs [oneOfLits ["call"; "email"; "text"; "message"; "contact";
                            "reach out to"; "follow up with"];
                 plus SpaceC; range Dot 1 50; ender])
          Medium "communication" "Communication tasks");
  ("research_actions",
   config (seqs [oneOfLits ["research"; "look up"; "find out"; "investigate";
                            "explore"; "study"; "learn about"];
                 plus SpaceC; range Dot 1 60; ender])
          Medium "research" "Research and information gathering");
  ("consideration_actions",
   config (seqs [oneOfLits ["think about"; "consider"; "maybe"; "might"; "could";
                            "possibly"];
                 plus SpaceC;
                 oneOfLits ["doing"; "making"; "getting"; "trying"];
                 range Dot 0 60; ender])
          Low "consideration" "Items for consideration or future thought");
  ("want_actions",
   config (seqs [oneOfLits ["want to"; "would like to"; "wish to"; "hope to"];
                 plus SpaceC;
                 oneOfLits ["do"; "make"; "get"; "try"; "start"; "learn"; "buy"; "visit"];
                 range Dot 0 60; ender])
          Low "aspiration" "Aspirational actions and wants");
  ("someday_actions",
   config (seqs [oneOfLits ["someday"; "eventually"; "one day"; "in the future";
                            "when I have time"];
                 star SpaceC; range Dot 1 60; ender])
          Low "someday" "Future or someday actions");
  ("action_verbs",
   config (seqs [WordB;
                 oneOfLits ["buy"; "purchase"; "get"; "acquire"; "obtain"; "order";
                            "book"; "reserve"; "schedule"; "organize"; "clean"; "fix";
                            "repair"; "update"; "upgrade"; "install"; "download";
                            "backup"; "review"; "check"; "verify"; "confirm"; "submit";
                            "send"; "deliver"; "complete"; "finish"; "start"; "begin";
                            "create"; "make"; "build"; "write"; "draft"; "prepare";
                            "practice"; "exercise"; "workout"; "study"; "read"; "watch";
                            "listen"; "attend"; "visit"; "go to"; "travel"; "move";
                            "relocate"; "apply"; "register"; "sign up"; "cancel";
                            "delete"; "remove"; "sell"; "donate"; "give away";
                            "throw away"; "declutter"; "sort"; "file"; "archive"];
                 plus SpaceC; range Dot 1 60; ender])
          Medium "action" "Sentences containing clear action verbs");
  ("question_actions",
   config (seqs [oneOfLits ["should I"; "what if I"; "how about"; "what about"];
                 plus SpaceC;
                 oneOfLits ["do"; "make"; "get"; "try"; "start"];
                 range Dot 0 50; Lit "?"])
          Low "question" "Action-oriented questions");
  ("time_actions",
   config (seqs [oneOfLits ["this week"; "next week"; "this month"; "next month";
                            "today"; "tomorrow"; "later"; "soon"];
                 plus SpaceC; Opt (oneOfLits ["I"; "we"; "they"]); star SpaceC;
                 oneOfLits ["will"; "need to"; "should"; "must"; "have to"; "going to"];
                 plus SpaceC; range Dot 1 60; ender])
          Medium "scheduled" "Time-specific actions");
  ("work_actions",
   config (seqs [oneOfLits ["work on"; "project"; "assignment"; "report";
                            "presentation"; "proposal"; "document"; "spreadsheet";
                            "analysis"; "review"; "meeting"; "client"; "customer";
                            "team"; "manager"; "boss"; "deadline"; "budget"; "proposal";
                            "contract"; "deal"; "sale"; "marketing"; "strategy"];
                 range Dot 0 80; ender])
          Medium "work" "Work and professional actions");
  ("personal_actions",
   config (seqs [oneOfLits ["health"; "doctor"; "appointment"; "exercise"; "gym";
                            "diet"; "family"; "friend"; "home"; "house"; "car";
                            "maintenance"; "bills"; "finance"; "insurance"; "vacation";
                            "travel"; "hobby"; "learn"; "skill"; "course"; "class"];
                 range Dot 0 60; ender])
          Medium "personal" "Personal life actions")
].

(** The [while ((match = regex.exec(text)) !== null)] loop.  [lastIndex]
    is the split between consumed and remaining input.  After an empty
    match [lastIndex] does not move and the loop never ends. *)
Fixpoint findLoop (fuel : nat) (re : RegExp) (prev : option ascii) (s : string)
  : completion (list string) :=
  match fuel with
  | O => Diverge
  | S fuel' =>
      match exec re prev s with
      | None => Normal []
      | Some m =>
          match matched m with
          | EmptyString => Diverge
          | String _ _ =>
              ms ← findLoop fuel' re (lastUnit m) (rest m);
              mret (matched m :: ms)
          end
      end
  end.

Definition findMatches (text : string) (re : RegExp) : completion (list string) :=
  findLoop (S (strlen text)) re None text.

Definition leadingNonWord : RegExp :=
  {| source := Seq Bol (plus (NotC WordC)); ignoreCase := false; global := false |}.
Definition trailingNonWord : RegExp :=
  {| source := Seq (plus (NotC WordC)) Eol; ignoreCase := false; global := false |}.
Definition whitespaceRuns : RegExp :=
  {| source := plus SpaceC; ignoreCase := false; global := true |}.
Definition leadingPronoun : RegExp :=
  {| source := seqs [Bol; oneOfLits ["i"; "we"; "you"; "they"; "he"; "she"; "it"];
                     plus SpaceC];
     ignoreCase := false; global := false |}.

Definition cleanMatch (match_ : string) : string :=
  trim (replace
          (toLowerCase
             (replace
                (replace
                   (replace (trim match_) leadingNonWord "")
                   trailingNonWord "")
                whitespaceRuns " "))
          leadingPronoun "").

(** [arr.filter((match, index, arr) => ...)] of [detect] *)
Definition keepMatch (arr : list string) (index : nat) (match_ : string) : bool :=
  (10 <? strlen match_)%nat && (strlen match_ <? 200)%nat
  && (arrIndexOf arr match_ =? Z.of_nat index).

Fixpoint filterIndexed (keep : nat -> string -> bool) (index : nat) (xs : list string)
  : list string :=
  match xs with
  | [] => []
  | x :: r => if keep index x then x :: filterIndexed keep (S index) r
              else filterIndexed keep (S index) r
  end.

Definition cleanMatches (found : list string) : list string :=
  let arr := map cleanMatch found in
  filterIndexed (keepMatch arr) 0 arr.

(** Body of the loop over the patterns, after [findMatches]. *)
Definition collect (patternName : string) (cfg : PatternConfig) (found : list string)
           (acc : list string * list PatternResult)
  : list string * list PatternResult :=
  match found with
  | [] => acc
  | _ :: _ =>
      let cm := cleanMatches found in
      match cm with
      | [] => acc
      | _ :: _ =>
          (fst acc ++ cm,
           snd acc ++ [{| pattern := patternName; matches := cm;
                          resultPriority := priority cfg |}])
      end
  end.

Fixpoint scanPatterns (pats : list (string * PatternConfig)) (text : string)
         (acc : list string * list PatternResult)
  : completion (list string * list PatternResult) :=
  match pats with
  | [] => Normal acc
  | (patternName, cfg) :: more =>
      found ← findMatches text (regex cfg);
      scanPatterns more text (collect patternName cfg found acc)
  end.

Definition priorityScore (p : Priority) : nat :=
  match p with High => 3 | Medium => 2 | Low => 1 end.

(** [priorityScores.get(x) || 0] *)
Definition scoreOf (priorityScores : gmap string nat) (x : string) : nat :=
  default 0%nat (priorityScores !! x).

(** The two nested [forEach] of [prioritizeItems]. *)
Definition recordPattern (m : gmap string nat) (p : PatternResult) : gmap string nat :=
  fold_left (fun m match_ =>
               <[match_ := Nat.max (scoreOf m match_) (priorityScore (resultPriority p))]> m)
            (matches p) m.

Definition buildPriorityScores (results : list PatternResult) : gmap string nat :=
  fold_left recordPattern results ∅.

(** The comparator of [prioritizeItems]. *)
Definition compareItems (priorityScores : gmap string nat) (a b : string) : Z :=
  let scoreA := Z.of_nat (scoreOf priorityScores a) in
  let scoreB := Z.of_nat (scoreOf priorityScores b) in
  if negb (scoreA =? scoreB) then scoreB - scoreA
  else Z.of_nat (strlen b) - Z.of_nat (strlen a).

Definition prioritizeItems (items_ : list string) (results : list PatternResult)
  : list string :=
  let priorityScores := buildPriorityScores results in
  sort (fun a b => compareItems priorityScores a b <=? 0) items_.

Section Detect.
(** [this.patterns] *)
Variable this : list (string * PatternConfig).

Definition detect (text : string) (sentences : list string)
  : completion ActionDetectionResult :=
  '(allMatches, patternResults) ← scanPatterns this text ([], []);
  let uniqueItems := fromSet allMatches in
  let sortedItems := prioritizeItems uniqueItems patternResults in
  mret {| items := sortedItems;
          patterns := patternResults;
          totalCount := length uniqueItems |}.
End Detect.

(** *** [hasActionItems], [getPatternCount], [addCustomPattern], [getCategories] *)

Record ActionCheck := {
  hasActions : bool;
  checkConfidence : Q;
  count : nat
}.

Definition isHigh (p : Priority) : bool :=
  match p with High => true | _ => false end.

(** The loop of [hasActionItems] over the patterns, on the counters
    [(totalMatches, highPriorityMatches)]. *)
Fixpoint countMatches (pats : list (string * PatternConfig)) (text : string)
         (acc : nat * nat) : completion (nat * nat) :=
  match pats with
  | [] => Normal acc
  | (_, cfg) :: more =>
      found ← findMatches text (regex cfg);
      countMatches more text
        ((fst acc + length found)%nat,
         if isHigh (priority cfg) then (snd acc + length found)%nat else snd acc)
  end.

Definition hasActionItems (this : list (string * PatternConfig)) (text : string)
  : completion ActionCheck :=
  '(totalMatches, highPriorityMatches) ← countMatches this text (0%nat, 0%nat);
  let confidence_ :=
    Math_min (95 # 100)
             (ofNat totalMatches * (3 # 10) + ofNat highPriorityMatches * (5 # 10))%Q in
  mret {| hasActions := (0 <? totalMatches)%nat;
          checkConfidence := toFixed2 confidence_;
          count := totalMatches |}.

Definition getPatternCount (this : list (string * PatternConfig)) : nat := length this.

Definition addCustomPattern (this : list (string * PatternConfig)) (name : string)
           (cfg : PatternConfig) : list (string * PatternConfig) :=
  mapSet ("custom_" +:+ name) cfg this.

Definition getCategories (this : list (string * PatternConfig)) : list string :=
  fromSet (map (fun entry => category (snd entry)) this).

End ActionPatterns.

(* ================================================================== *)
(** ** TopicExtractor                                                  *)
(* ================================================================== *)
Module TopicExtractor.
Import JS RegExp.
Local Open Scope Q_scope.

Record Keyword := {
  word : string;
  frequency : nat;
  relevance : Q
}.

Record TopicResult := {
  primary : list string;
  secondary : list string;
  keywords : list Keyword;
  categories : list string
}.

Definition stopWordsList : list string := [
  "a"; "an"; "the"; "this"; "that"; "these"; "those"; "my"; "your"; "his"; "her";
  "its"; "our"; "their";
  "i"; "me"; "you"; "he"; "him"; "she"; "her"; "it"; "we"; "us"; "they"; "them";
  "myself"; "yourself";
  "in"; "on"; "at"; "by"; "for"; "with"; "about"; "against"; "between"; "into";
  "through"; "during";
  "before"; "after"; "above"; "below"; "up"; "down"; "out"; "off"; "over"; "under";
  "again"; "further";
  "and"; "or"; "but"; "if"; "then"; "because"; "as"; "until"; "while"; "of"; "to";
  "from"; "since";
  "is"; "am"; "are"; "was"; "were"; "be"; "been"; "being"; "have"; "has"; "had";
  "having"; "do"; "does";
  "did"; "doing"; "will"; "would"; "could"; "should"; "may"; "might"; "must"; "can";
  "shall";
  "very"; "really"; "quite"; "rather"; "just"; "only"; "also"; "too"; "so"; "now";
  "then"; "here";
  "there"; "when"; "where"; "why"; "how"; "all"; "any"; "both"; "each"; "few";
  "more"; "most";
  "other"; "some"; "such"; "no"; "nor"; "not"; "only"; "own"; "same"; "than"; "too";
  "well";
  "today"; "tomorrow"; "yesterday"; "always"; "never"; "sometimes"; "often";
  "usually"; "maybe";
  "perhaps"; "probably"; "definitely"; "certainly"; "surely"
].

(** The map built by [initializeTopicCategories], in insertion order. *)
Definition initializeTopicCategories : list (string * list string) := [
  ("work", [
    "work"; "job"; "career"; "office"; "meeting"; "project"; "task"; "deadline";
    "team"; "manager";
    "boss"; "colleague"; "client"; "customer"; "presentation"; "report"; "proposal";
    "budget";
    "strategy"; "planning"; "development"; "business"; "company"; "organization";
    "department";
    "position"; "role"; "responsibility"; "skill"; "experience"; "training";
    "conference";
    "interview"; "promotion"; "raise"; "bonus"; "performance"; "review"; "feedback";
    "goal";
    "objective"; "target"; "achievement"; "success"; "failure"; "challenge";
    "opportunity";
    "email"; "phone"; "call"; "communication"; "collaboration"; "teamwork";
    "leadership";
    "management"; "administration"; "coordination"; "supervision"; "delegation";
    "execution"]);
  ("health", [
    "health"; "wellness"; "fitness"; "exercise"; "workout"; "gym"; "running";
    "walking"; "sport";
    "yoga"; "meditation"; "diet"; "nutrition"; "food"; "eating"; "meal"; "cooking";
    "recipe";
    "doctor"; "medical"; "appointment"; "checkup"; "treatment"; "medicine";
    "medication";
    "hospital"; "clinic"; "therapy"; "counseling"; "mental"; "emotional"; "stress";
    "anxiety";
    "depression"; "mood"; "feeling"; "energy"; "sleep"; "rest"; "relaxation";
    "recovery";
    "injury"; "pain"; "ache"; "sick"; "illness"; "disease"; "condition"; "symptom";
    "weight"; "muscle"; "strength"; "cardio"; "flexibility"; "balance";
    "coordination";
    "breathing"; "heart"; "blood"; "pressure"; "cholesterol"; "diabetes"; "allergy"]);
  ("relationships", [
    "family"; "friend"; "relationship"; "partner"; "spouse"; "marriage"; "dating";
    "love";
    "romance"; "friendship"; "social"; "party"; "gathering"; "event"; "celebration";
    "communication"; "conversation"; "discussion"; "argument"; "conflict";
    "agreement";
    "support"; "help"; "advice"; "guidance"; "understanding"; "empathy"; "compassion";
    "trust"; "respect"; "loyalty"; "commitment"; "bond"; "connection"; "intimacy";
    "parent"; "child"; "son"; "daughter"; "mother"; "father"; "brother"; "sister";
    "grandparent"; "uncle"; "aunt"; "cousin"; "neighbor"; "community"; "group";
    "club"; "organization"; "network"; "contact"; "acquaintance"; "colleague"]);
  ("personal_development", [
    "learning"; "education"; "study"; "course"; "class"; "training"; "skill";
    "knowledge";
    "growth"; "development"; "improvement"; "progress"; "achievement"; "goal";
    "objective";
    "plan"; "strategy"; "vision"; "dream"; "aspiration"; "ambition"; "motivation";
    "inspiration"; "creativity"; "innovation"; "thinking"; "reflection";
    "contemplation";
    "mindfulness"; "awareness"; "consciousness"; "spirituality"; "philosophy";
    "wisdom";
    "book"; "reading"; "writing"; "journal"; "diary"; "note"; "idea"; "thought";
    "concept"; "theory"; "practice"; "habit"; "routine"; "discipline"; "consistency";
    "challenge"; "opportunity"; "experience"; "adventure"; "exploration";
    "discovery"]);
  ("finance", [
    "money"; "finance"; "financial"; "budget"; "expense"; "cost"; "price"; "payment";
    "salary"; "income"; "earning"; "profit"; "loss"; "saving"; "spending";
    "investment";
    "stock"; "bond"; "portfolio"; "retirement"; "pension"; "insurance"; "tax"; "debt";
    "loan"; "mortgage"; "credit"; "banking"; "account"; "transaction"; "purchase";
    "buy"; "sell"; "trade"; "market"; "economy"; "inflation"; "recession"; "growth";
    "wealth"; "rich"; "poor"; "expensive"; "cheap"; "affordable"; "valuable";
    "worth"]);
  ("technology", [
    "technology"; "computer"; "laptop"; "desktop"; "phone"; "mobile"; "smartphone";
    "tablet";
    "software"; "application"; "app"; "program"; "system"; "platform"; "website";
    "internet";
    "online"; "digital"; "electronic"; "device"; "gadget"; "tool"; "equipment";
    "hardware";
    "network"; "connection"; "wireless"; "bluetooth"; "wifi"; "data"; "information";
    "database"; "server"; "cloud"; "storage"; "backup"; "security"; "privacy";
    "encryption";
    "coding"; "programming"; "development"; "design"; "interface"; "user";
    "experience";
    "artificial"; "intelligence"; "machine"; "learning"; "automation"; "robot";
    "smart"]);
  ("home", [
    "home"; "house"; "apartment"; "room"; "bedroom"; "kitchen"; "bathroom"; "living";
    "dining"; "office"; "garage"; "garden"; "yard"; "furniture"; "decoration";
    "design";
    "renovation"; "repair"; "maintenance"; "cleaning"; "organization"; "storage";
    "appliance"; "electric"; "plumbing"; "heating"; "cooling"; "lighting"; "security";
    "neighborhood"; "location"; "address"; "rent"; "mortgage"; "property";
    "real estate";
    "moving"; "packing"; "unpacking"; "settling"; "comfort"; "cozy"; "spacious";
    "modern"]);
  ("travel", [
    "travel"; "trip"; "vacation"; "holiday"; "journey"; "adventure"; "exploration";
    "tour";
    "destination"; "location"; "place"; "city"; "country"; "continent"; "culture";
    "local";
    "flight"; "plane"; "airport"; "hotel"; "accommodation"; "booking"; "reservation";
    "restaurant"; "food"; "cuisine"; "sightseeing"; "attraction"; "museum"; "park";
    "beach"; "mountain"; "nature"; "landscape"; "scenery"; "photo"; "memory";
    "experience";
    "recreation"; "entertainment"; "fun"; "hobby"; "interest"; "passion"; "activity";
    "sport"; "game"; "music"; "movie"; "book"; "art"; "creativity"; "relaxation"])
].

Definition domainWords : list (list string * Q) := [
  (["feel"; "feeling"; "emotion"; "mood"; "think"; "thought"; "mind"; "mental"], 8 # 10);
  (["plan"; "goal"; "objective"; "task"; "project"; "work"; "complete"; "finish"], 7 # 10);
  (["time"; "schedule"; "calendar"; "deadline"; "urgent"; "priority"; "important"], 6 # 10);
  (["learn"; "study"; "practice"; "skill"; "knowledge"; "improve"; "develop"; "grow"], 7 # 10);
  (["problem"; "issue"; "challenge"; "solution"; "fix"; "solve"; "resolve"; "handle"], 8 # 10);
  (["family"; "friend"; "colleague"; "team"; "partner"; "relationship"; "communication"],
   6 # 10)
].

Definition initializeDomainKeywords : gmap string Q :=
  fold_left (fun m '(ws, sc) => fold_left (fun m w => <[w := sc]> m) ws m)
            domainWords ∅.

(** The state of one extractor ([this]). *)
Record Extractor := {
  stopWords : gset string;
  topicCategories : list (string * list string);
  domainKeywords : gmap string Q
}.

Definition construct : Extractor := {|
  stopWords := list_to_set stopWordsList;
  topicCategories := initializeTopicCategories;
  domainKeywords := initializeDomainKeywords
|}.

(** The extractor of the engine, built once by the constructor. *)
Definition new : Extractor := Eval vm_compute in construct.

(** [/[^\w]/g] and [/^\d+$/] *)
Definition nonWordUnits : RegExp :=
  {| source := range (NotC WordC) 1 1; ignoreCase := false; global := true |}.
Definition onlyDigits : RegExp :=
  {| source := seqs [Bol; plus DigitC; Eol]; ignoreCase := false; global := false |}.

(** [freq.set(w, (freq.get(w) || 0) + 1)] on a map kept in insertion order *)
Fixpoint bump (w : string) (freq : list (string * nat)) : list (string * nat) :=
  match freq with
  | [] => [(w, 1%nat)]
  | (k, n) :: r => if String.eqb k w then (k, S n) :: r else (k, n) :: bump w r
  end.

Section Extract.
Variable this : Extractor.

Definition normalizeWord (w : string) : string :=
  replace (toLowerCase w) nonWordUnits "".

Definition keepWord (w : string) : bool :=
  (2 <? strlen w)%nat && (strlen w <? 20)%nat
  && negb (bool_decide (w ∈ stopWords this))
  && negb (test onlyDigits w).

Definition calculateWordFrequencies (words : list string) : list (string * nat) :=
  let cleanWords := filter (fun w => keepWord w = true) (map normalizeWord words) in
  fold_left (fun freq w => bump w freq) cleanWords [].

Definition domainScoreOf (w : string) : Q :=
  match domainKeywords this !! w with
  | Some v => if Qeq_bool v 0 then 3 # 10 else v
  | None => 3 # 10
  end.

Definition scoreWord (maxFreq : extended) (text : string) (entry : string * nat)
  : Keyword :=
  let '(w, freq) := entry in
  let normalizedFreq := div_ext (ofNat freq) maxFreq in
  let domainScore := domainScoreOf w in
  let lengthBonus :=
    Math_min (3 # 10) ((inject_Z (Z.of_nat (strlen w)) - 3) * (5 # 100)) in
  let firstIndex := indexOf (toLowerCase text) w in
  let lastIndex := lastIndexOf (toLowerCase text) w in
  let textLength := ofNat (strlen text) in
  let positionBonus :=
    if Qltb (inject_Z firstIndex) (textLength * (2 # 10))
       || Qltb (textLength * (8 # 10)) (inject_Z lastIndex)
    then 1 # 10 else 0 in
  let relevance_ :=
    normalizedFreq * (4 # 10) + domainScore * (4 # 10) + lengthBonus + positionBonus in
  {| word := w; frequency := freq; relevance := toFixed3 relevance_ |}.

Definition calculateRelevanceScores (wordFreq : list (string * nat)) (text : string)
  : list Keyword :=
  let maxFreq := Math_max_spread (map (fun e => ofNat (snd e)) wordFreq) in
  let scored := map (scoreWord maxFreq text) wordFreq in
  filter (fun item => Qltb (2 # 10) (relevance item) = true)
         (sort (fun a b => Qle_bool (relevance b - relevance a) 0) scored).

(** The body of [keywords.forEach] inside [categorizeTopics]. *)
Definition addKeyword (categoryWords : list string) (score : Q) (k : Keyword) : Q :=
  let score1 :=
    if arrIncludes categoryWords (toLowerCase (word k))
    then score + relevance k else score in
  fold_left (fun sc categoryWord =>
               if includes (word k) categoryWord || includes categoryWord (word k)
               then sc + relevance k * (5 # 10) else sc)
            categoryWords score1.

Definition categoryScore (categoryWords : list string) (kws : list Keyword) : Q :=
  fold_left (addKeyword categoryWords) kws 0.

(** [categoryScores] before sorting: the categories of positive score,
    in the order of [topicCategories]. *)
Definition scoreCategories (kws : list Keyword) : list (string * Q) :=
  fold_left (fun categoryScores '(category_, categoryWords) =>
               let score := categoryScore categoryWords kws in
               if Qltb 0 score then categoryScores ++ [(category_, score)]
               else categoryScores)
            (topicCategories this) [].

Definition categorizeTopics (kws : list Keyword) : list (string * Q) :=
  sort (fun a b => Qle_bool (snd b - snd a) 0) (scoreCategories kws).

Definition extractTopicHierarchy (kws : list Keyword) (cats : list (string * Q))
  : list string * list string :=
  let primaryKeywords :=
    map word (filter (fun k => Qltb (5 # 10) (relevance k) = true) (slice 0 5 kws)) in
  let primaryCategories := slice 0 2 (map fst cats) in
  let primary_ := fromSet (primaryKeywords ++ primaryCategories) in
  let secondaryKeywords :=
    map word (filter (fun k => Qltb (3 # 10) (relevance k) = true) (slice 5 10 kws)) in
  let secondaryCategories := slice 2 4 (map fst cats) in
  let secondary_ :=
    filter (fun topic => arrIncludes primary_ topic = false)
           (fromSet (secondaryKeywords ++ secondaryCategories)) in
  (primary_, secondary_).

Definition extract (text : string) (words : list string) : TopicResult :=
  let wordFreq := calculateWordFrequencies words in
  let keywordScores := calculateRelevanceScores wordFreq text in
  let cats := categorizeTopics keywordScores in
  let '(primary_, secondary_) := extractTopicHierarchy keywordScores cats in
  {| primary := primary_;
     secondary := secondary_;
     keywords := slice 0 15 keywordScores;
     categories := slice 0 5 (map fst cats) |}.
End Extract.

(** *** [quickAnalyze], [getCategoryCount], [addCustomCategory], [getCategories] *)

Record QuickTopics := {
  quickTopics : list string;
  quickTopicConfidence : Q
}.

Definition quickAnalyze (this : Extractor) (words : list string) : QuickTopics :=
  let wordFreq := calculateWordFrequencies this words in
  let topWords :=
    map fst (slice 0 5 (sort (fun a b => (Z.of_nat (snd b) - Z.of_nat (snd a) <=? 0)%Z)
                             wordFreq)) in
  let confidence_ := Math_min (9 # 10) (ofNat (length topWords) * (15 # 100)) in
  {| quickTopics := topWords; quickTopicConfidence := toFixed2 confidence_ |}.

Definition getCategoryCount (this : Extractor) : nat := length (topicCategories this).

Definition addCustomCategory (this : Extractor) (name : string) (keywords_ : list string)
  : Extractor :=
  {| stopWords := stopWords this;
     topicCategories := mapSet name keywords_ (topicCategories this);
     domainKeywords := domainKeywords this |}.

Definition getCategories (this : Extractor) : list string :=
  map fst (topicCategories this).

End TopicExtractor.

(* ================================================================== *)
(** ** OfflineNLP: the orchestrator                                    *)
(* ================================================================== *)
Module OfflineNLP.
Import JS.

Inductive Mood :=
| MoodPositive | MoodNegative | MoodNeutral | MoodExcited | MoodConcerned
| MoodThoughtful.
Inductive Energy := EnergyHigh | EnergyMedium | EnergyLow.
Inductive Focus := FocusClear | FocusScattered | FocusMixed.

Record Insights := {
  mood : Mood;
  energy : Energy;
  focus : Focus;
  recommendations : list string;
  insightPatterns : list string
}.

Record Privacy := {
  dataProcessedLocally : bool;
  noExternalCalls : bool;
  noDataStored : bool
}.

Record NLPResult := {
  originalText : string;
  processedText : string;
  wordCount : nat;
  sentenceCount : nat;
  sentiment : SentimentDictionary.SentimentAnalysis;
  actionItems : ActionPatterns.ActionDetectionResult;
  topics : TopicExtractor.TopicResult;
  insights : Insights;
  processingTime : Z;
  timestamp : string;
  privacy : Privacy
}.

Record Options := {
  skipSentiment : bool;
  skipActionItems : bool;
  skipTopics : bool;
  skipInsights : bool;
  storeResults : bool
}.

(** [options?.flag]: an absent bag reads as [undefined] *)
Definition flag (options : option Options) (f : Options -> bool) : bool :=
  match options with
  | Some o => f o
  | None => false
  end.

(** The two collaborators whose sources are not part of the inspected
    files; the orchestrator only calls them. *)
Record TextPreprocessor := {
  clean : string -> completion string;
  splitSentences : string -> completion (list string);
  tokenize : string -> completion (list string)
}.

(** The engine [this]: the preprocessor and the four private stage
    methods [processText] awaits. *)
Record Engine := {
  textPreprocessor : TextPreprocessor;
  analyzeSentiment : string -> list string -> completion SentimentDictionary.SentimentAnalysis;
  detectActionItems : string -> list string -> completion ActionPatterns.ActionDetectionResult;
  extractTopics : string -> list string -> completion TopicExtractor.TopicResult;
  generateInsights : NLPResult -> completion Insights
}.

(** Readings of the clock: [Date.now()] on entry, [new Date()] for the
    stamp, [Date.now()] on the way out. *)
Record Clock := {
  startNow : Z;
  isoNow : string;
  endNow : Z
}.

Inductive LogEvent :=
| LogProcessing (chars : nat)
| LogSentiment
| LogActionItems
| LogTopics
| LogInsights
| LogComplete (ms : Z)
| LogOnDevice
| LogError (e : string).

Definition defaultSentiment : SentimentDictionary.SentimentAnalysis :=
  {| SentimentDictionary.score := 0;
     SentimentDictionary.confidence := 0;
     SentimentDictionary.label := SentimentDictionary.Neutral;
     SentimentDictionary.breakdown :=
       {| SentimentDictionary.positiveWordsFound := [];
          SentimentDictionary.negativeWordsFound := [];
          SentimentDictionary.intensifiersFound := [];
          SentimentDictionary.negatorsFound := [] |} |}.

Definition defaultActionItems : ActionPatterns.ActionDetectionResult :=
  {| ActionPatterns.items := [];
     ActionPatterns.patterns := [];
     ActionPatterns.totalCount := 0 |}.

Definition defaultTopics : TopicExtractor.TopicResult :=
  {| TopicExtractor.primary := [];
     TopicExtractor.secondary := [];
     TopicExtractor.keywords := [];
     TopicExtractor.categories := [] |}.

Definition defaultInsights : Insights :=
  {| mood := MoodNeutral; energy := EnergyMedium; focus := FocusMixed;
     recommendations := []; insightPatterns := [] |}.

Definition fallbackRecommendations : list string := [
  "Text processed locally with basic analysis";
  "All processing completed on your device";
  "Your privacy is fully protected"
].

(** Assignments to the fields of [result] *)
Definition setSentiment (v : SentimentDictionary.SentimentAnalysis) (r : NLPResult) :=
  {| originalText := originalText r; processedText := processedText r;
     wordCount := wordCount r; sentenceCount := sentenceCount r;
     sentiment := v; actionItems := actionItems r; topics := topics r;
     insights := insights r; processingTime := processingTime r;
     timestamp := timestamp r; privacy := privacy r |}.
Definition setActionItems (v : ActionPatterns.ActionDetectionResult) (r : NLPResult) :=
  {| originalText := originalText r; processedText := processedText r;
     wordCount := wordCount r; sentenceCount := sentenceCount r;
     sentiment := sentiment r; actionItems := v; topics := topics r;
     insights := insights r; processingTime := processingTime r;
     timestamp := timestamp r; privacy := privacy r |}.
Definition setTopics (v : TopicExtractor.TopicResult) (r : NLPResult) :=
  {| originalText := originalText r; processedText := processedText r;
     wordCount := wordCount r; sentenceCount := sentenceCount r;
     sentiment := sentiment r; actionItems := actionItems r; topics := v;
     insights := insights r; processingTime := processingTime r;
     timestamp := timestamp r; privacy := privacy r |}.
Definition setInsights (v : Insights) (r : NLPResult) :=
  {| originalText := originalText r; processedText := processedText r;
     wordCount := wordCount r; sentenceCount := sentenceCount r;
     sentiment := sentiment r; actionItems := actionItems r; topics := topics r;
     insights := v; processingTime := processingTime r;
     timestamp := timestamp r; privacy := privacy r |}.
Definition setProcessingTime (v : Z) (r : NLPResult) :=
  {| originalText := originalText r; processedText := processedText r;
     wordCount := wordCount r; sentenceCount := sentenceCount r;
     sentiment := sentiment r; actionItems := actionItems r; topics := topics r;
     insights := insights r; processingTime := v;
     timestamp := timestamp r; privacy := privacy r |}.
Definition setRecommendations (v : list string) (r : NLPResult) :=
  setInsights {| mood := mood (insights r); energy := energy (insights r);
                 focus := focus (insights r); recommendations := v;
                 insightPatterns := insightPatterns (insights r) |} r.

(** *** Statements of [processText]: the local object [result] and the
    console are state that survives a throw. *)
Record Frame := {
  result : NLPResult;
  console : list LogEvent
}.

Definition M (A : Type) : Type := Frame -> completion A * Frame.

Global Instance M_ret : MRet M := fun _ a fr => (Normal a, fr).
Global Instance M_bind : MBind M := fun _ _ f m fr =>
  match m fr with
  | (Normal a, fr') => f a fr'
  | (Throw e, fr') => (Throw e, fr')
  | (Diverge, fr') => (Diverge, fr')
  end.

Definition log (ev : LogEvent) : M unit := fun fr =>
  (Normal tt, {| result := result fr; console := console fr ++ [ev] |}).
Definition assign (f : NLPResult -> NLPResult) : M unit := fun fr =>
  (Normal tt, {| result := f (result fr); console := console fr |}).
Definition readResult : M NLPResult := fun fr => (Normal (result fr), fr).
Definition await {A} (c : completion A) : M A := fun fr => (c, fr).

(** [try { body } catch (error) { handler }] *)
Definition tryCatch {A} (body : M A) (handler : string -> M A) : M A := fun fr =>
  match body fr with
  | (Throw e, fr') => handler e fr'
  | other => other
  end.

Section ProcessText.
Variable this : Engine.
Variable clock : Clock.
Variable options : option Options.

Definition sentimentStage (processedText_ : string) (words : list string) : M unit :=
  if negb (flag options skipSentiment) then
    log LogSentiment;;
    v ← await (analyzeSentiment this processedText_ words);
    assign (setSentiment v)
  else mret tt.

Definition actionStage (processedText_ : string) (sentences : list string) : M unit :=
  if negb (flag options skipActionItems) then
    log LogActionItems;;
    v ← await (detectActionItems this processedText_ sentences);
    assign (setActionItems v)
  else mret tt.

Definition topicStage (processedText_ : string) (words : list string) : M unit :=
  if negb (flag options skipTopics) then
    log LogTopics;;
    v ← await (extractTopics this processedText_ words);
    assign (setTopics v)
  else mret tt.

Definition insightStage : M unit :=
  if negb (flag options skipInsights) then
    log LogInsights;;
    r ← readResult;
    v ← await (generateInsights this r);
    assign (setInsights v)
  else mret tt.

(** The [try] block *)
Definition tryBlock (processedText_ : string) (sentences words : list string)
  : M NLPResult :=
  sentimentStage processedText_ words;;
  actionStage processedText_ sentences;;
  topicStage processedText_ words;;
  insightStage;;
  assign (setProcessingTime (endNow clock - startNow clock));;
  log (LogComplete (endNow clock - startNow clock));;
  log LogOnDevice;;
  readResult.

(** The [catch] block *)
Definition catchBlock (error : string) : M NLPResult :=
  log (LogError error);;
  assign (setProcessingTime (endNow clock - startNow clock));;
  assign (setRecommendations fallbackRecommendations);;
  readResult.

Definition initialResult (text processedText_ : string) (sentences words : list string)
  : NLPResult :=
  {| originalText := text;
     processedText := processedText_;
     wordCount := length words;
     sentenceCount := length sentences;
     sentiment := defaultSentiment;
     actionItems := defaultActionItems;
     topics := defaultTopics;
     insights := defaultInsights;
     processingTime := 0;
     timestamp := isoNow clock;
     privacy := {| dataProcessedLocally := true;
                   noExternalCalls := true;
                   noDataStored := negb (flag options storeResults) |} |}.

Definition preprocess (text : string)
  : completion (string * list string * list string) :=
  processedText_ ← clean (textPreprocessor this) text;
  sentences ← splitSentences (textPreprocessor this) processedText_;
  words ← tokenize (textPreprocessor this) processedText_;
  mret (processedText_, sentences, words).

(** The call returns the completion of the promise and what it wrote
    to the console. *)
Definition processText (text : string) : completion NLPResult * list LogEvent :=
  let console0 := [LogProcessing (strlen text)] in
  match preprocess text with
  | Normal (processedText_, sentences, words) =>
      let '(c, fr) :=
        tryCatch (tryBlock processedText_ sentences words) catchBlock
                 {| result := initialResult text processedText_ sentences words;
                    console := console0 |} in
      (c, console fr)
  | Throw e => (Throw e, console0)
  | Diverge => (Diverge, console0)
  end.
End ProcessText.

(** The engine the constructor builds, around a given preprocessor and
    insight generator. *)
Definition construct (tp : TextPreprocessor) (generate : NLPResult -> completion Insights)
  : Engine :=
  {| textPreprocessor := tp;
     analyzeSentiment := fun text words =>
       Normal (SentimentDictionary.analyze SentimentDictionary.dict text words);
     detectActionItems := ActionPatterns.detect ActionPatterns.initializePatterns;
     extractTopics := fun text words =>
       Normal (TopicExtractor.extract TopicExtractor.new text words);
     generateInsights := generate |}.

(** *** [quickSentiment] *)

Inductive Emoji := SmilingFace | PensiveFace | NeutralFace.

Record QuickFeedback := {
  feedbackLabel : SentimentDictionary.Label;
  feedbackConfidence : Q;
  emoji : Emoji
}.

(** [quickSentiment] of an engine with preprocessor [tp] and sentiment
    dictionaries [dictionaries]. *)
Definition quickSentiment (tp : TextPreprocessor)
           (dictionaries : SentimentDictionary.Dictionaries) (text : string)
  : completion QuickFeedback :=
  match trim text with
  | EmptyString =>
      Normal {| feedbackLabel := SentimentDictionary.Neutral;
                feedbackConfidence := 0; emoji := NeutralFace |}
  | String _ _ =>
      words ← tokenize tp (toLowerCase text);
      let sentiment_ := SentimentDictionary.quickAnalyze dictionaries words in
      mret {| feedbackLabel := SentimentDictionary.quickLabel sentiment_;
              feedbackConfidence := SentimentDictionary.quickConfidence sentiment_;
              emoji := match SentimentDictionary.quickLabel sentiment_ with
                       | SentimentDictionary.Positive => SmilingFace
                       | SentimentDictionary.Negative => PensiveFace
                       | SentimentDictionary.Neutral => NeutralFace
                       end |}
  end.

End OfflineNLP.

(* ================================================================== *)
(** ** Reference notions and inputs used by the statements             *)
(* ================================================================== *)
Module Reference.
Import JS.
Local Open Scope Q_scope.

(** Every code unit of [s] satisfies [P]. *)
Fixpoint AllUnits (P : ascii -> Prop) (s : string) : Prop :=
  match s with
  | EmptyString => True
  | String c r => P c /\ AllUnits P r
  end.

(** The base score the dictionaries give a vocabulary word (the
    positive vocabulary is consulted first). *)
Definition dictionaryScore (this : SentimentDictionary.Dictionaries) (w : string) : Q :=
  if SentimentDictionary.has (SentimentDictionary.positiveWords this) w
  then SentimentDictionary.getOr (SentimentDictionary.positiveScores this) w (4 # 10)
  else SentimentDictionary.getOr (SentimentDictionary.negativeScores this) w (- (4 # 10)).



(** The largest priority score among the patterns that produced [x]
    (0 when none did). *)
Fixpoint maxPriority (results : list ActionPatterns.PatternResult) (x : string) : nat :=
  match results with
  | [] => 0
  | p :: more =>
      if arrIncludes (ActionPatterns.matches p) x
      then Nat.max (ActionPatterns.priorityScore (ActionPatterns.resultPriority p))
                   (maxPriority more x)
      else maxPriority more x
  end.

(** [a] may stand in front of [b]: higher score first, for equal scores
    the longer fragment first. *)
Definition goesBefore (results : list ActionPatterns.PatternResult) (a b : string) : Prop :=
  (maxPriority results b < maxPriority results a)%nat
  \/ (maxPriority results a = maxPriority results b /\ (strlen b <= strlen a)%nat).

(** Every pattern that produced [x] has priority [prio]. *)
Definition producedOnlyBy (prio : ActionPatterns.Priority)
           (results : list ActionPatterns.PatternResult) (x : string) : Prop :=
  forall p, p ∈ results -> x ∈ ActionPatterns.matches p ->
            ActionPatterns.resultPriority p = prio.

(** The two accumulators of [detect] stay in step, and hold fragments
    of admissible length only. *)
Definition collected (acc : list string * list ActionPatterns.PatternResult) : Prop :=
  fst acc = concat (map ActionPatterns.matches (snd acc))
  /\ Forall (fun x => (10 < strlen x < 200)%nat) (fst acc).

(** The test [items.sort] makes of the comparator of [prioritizeItems]. *)
Definition itemLe (results : list ActionPatterns.PatternResult) (a b : string) : bool :=
  (ActionPatterns.compareItems (ActionPatterns.buildPriorityScores results) a b <=? 0)%Z.

Definition sampleTranscript : string :=
  "Urgent fix the server now. Maybe trying yoga sometime soon! It is done.".

(** What [detect] returns on [sampleTranscript]. *)
Definition sampleDetection : ActionPatterns.ActionDetectionResult :=
  Eval vm_compute in
    match ActionPatterns.detect ActionPatterns.initializePatterns sampleTranscript [] with
    | Normal r => r
    | _ => {| ActionPatterns.items := []; ActionPatterns.patterns := [];
              ActionPatterns.totalCount := 0 |}
    end.

(** *** Category scoring, in the words of the specification *)

Definition sumQ (xs : list Q) : Q := fold_right Qplus 0 xs.






Definition repeatedWords : list string :=
  ["work"; "meeting"; "project"; "deadline"; "work"; "meeting"; "project"; "deadline"].
Definition repeatedText : string :=
  "work meeting project deadline work meeting project deadline".

(** *** The orchestrator: stages, collaborators, inputs *)

(** The four stages of the [try] block, in the order they are run. *)
Definition stagesOf (this : OfflineNLP.Engine) (options : option OfflineNLP.Options)
           (processedText_ : string) (sentences words : list string)
  : list (OfflineNLP.M unit) :=
  [OfflineNLP.sentimentStage this options processedText_ words;
   OfflineNLP.actionStage this options processedText_ sentences;
   OfflineNLP.topicStage this options processedText_ words;
   OfflineNLP.insightStage this options].

(** The console line that opens stage [k]. *)
Definition marker (k : nat) : OfflineNLP.LogEvent :=
  match k with
  | 0%nat => OfflineNLP.LogSentiment
  | 1%nat => OfflineNLP.LogActionItems
  | 2%nat => OfflineNLP.LogTopics
  | _ => OfflineNLP.LogInsights
  end.

(** Statements run one after the other, up to the first that does not
    complete normally. *)
Fixpoint runStages (stages : list (OfflineNLP.M unit)) (fr : OfflineNLP.Frame)
  : completion unit * OfflineNLP.Frame :=
  match stages with
  | [] => (Normal tt, fr)
  | stage :: more =>
      match stage fr with
      | (Normal _, fr') => runStages more fr'
      | other => other
      end
  end.

(** The frame in which the [try] block starts. *)
Definition initialFrame (this : OfflineNLP.Engine) (clock : OfflineNLP.Clock)
           (options : option OfflineNLP.Options) (text processedText_ : string)
           (sentences words : list string) : OfflineNLP.Frame :=
  {| OfflineNLP.result :=
       OfflineNLP.initialResult clock options text processedText_ sentences words;
     OfflineNLP.console := [OfflineNLP.LogProcessing (strlen text)] |}.

(** The sections of stage [k] and of the stages after it hold their
    defaults, and none of these stages has announced itself. *)
Definition untouchedFrom (k : nat) (fr : OfflineNLP.Frame) : Prop :=
  ((k <= 0)%nat -> OfflineNLP.sentiment (OfflineNLP.result fr) = OfflineNLP.defaultSentiment)
  /\ ((k <= 1)%nat ->
      OfflineNLP.actionItems (OfflineNLP.result fr) = OfflineNLP.defaultActionItems)
  /\ ((k <= 2)%nat -> OfflineNLP.topics (OfflineNLP.result fr) = OfflineNLP.defaultTopics)
  /\ ((k <= 3)%nat -> OfflineNLP.insights (OfflineNLP.result fr) = OfflineNLP.defaultInsights)
  /\ (forall j, (k <= j <= 3)%nat -> marker j ∉ OfflineNLP.console fr).

(** Pieces of a string between separators, empty pieces dropped. *)
Fixpoint splitOn (sep : ascii -> bool) (piece : string) (s : string) : list string :=
  match s with
  | EmptyString =>
      match piece with EmptyString => [] | _ => [revString "" piece] end
  | String c r =>
      if sep c then
        match piece with
        | EmptyString => splitOn sep "" r
        | _ => revString "" piece :: splitOn sep "" r
        end
      else splitOn sep (String c piece) r
  end.

(** Modelled from the spec: the TextPreprocessor (section 4.1), whose
    source is not among the inspected files.  [clean] normalizes
    whitespace, [splitSentences] cuts at sentence-ending punctuation and
    returns a last fragment without one, [tokenize] splits on whitespace;
    no call fails. *)
Definition simplePreprocessor : OfflineNLP.TextPreprocessor :=
  {| OfflineNLP.clean := fun text =>
       Normal (trim (RegExp.replace text ActionPatterns.whitespaceRuns " "));
     OfflineNLP.splitSentences := fun text =>
       Normal (filter (fun s => s <> EmptyString)
                      (map trim (splitOn (fun c => (c =? ".")%char || (c =? "!")%char
                                                   || (c =? "?")%char) "" text)));
     OfflineNLP.tokenize := fun text => Normal (splitOn isSpace "" text) |}.

(** Modelled from the spec: "No error cases; empty input yields empty
    sequences" (section 4.1), for a preprocessor given as a parameter. *)
Definition emptyInputYieldsEmptySequences (tp : OfflineNLP.TextPreprocessor) : Prop :=
  OfflineNLP.clean tp "" = Normal ""
  /\ OfflineNLP.splitSentences tp "" = Normal []
  /\ OfflineNLP.tokenize tp "" = Normal [].

(** Modelled from the spec: the InsightGenerator (section 4.5), whose
    source is not among the inspected files: it returns valid
    enumeration values and a recommendation list that is never empty. *)
Definition simpleInsights (r : OfflineNLP.NLPResult) : completion OfflineNLP.Insights :=
  Normal {| OfflineNLP.mood :=
              match SentimentDictionary.label (OfflineNLP.sentiment r) with
              | SentimentDictionary.Positive => OfflineNLP.MoodPositive
              | SentimentDictionary.Negative => OfflineNLP.MoodNegative
              | SentimentDictionary.Neutral => OfflineNLP.MoodNeutral
              end;
            OfflineNLP.energy := OfflineNLP.EnergyMedium;
            OfflineNLP.focus := OfflineNLP.FocusMixed;
            OfflineNLP.recommendations := ["Keep recording your thoughts"];
            OfflineNLP.insightPatterns := [] |}.

(** An engine like the real one, except that sentiment analysis throws. *)
Definition failingSentimentEngine : OfflineNLP.Engine :=
  {| OfflineNLP.textPreprocessor := simplePreprocessor;
     OfflineNLP.analyzeSentiment := fun _ _ => Throw "TypeError";
     OfflineNLP.detectActionItems :=
       ActionPatterns.detect ActionPatterns.initializePatterns;
     OfflineNLP.extractTopics := fun text words =>
       Normal (TopicExtractor.extract TopicExtractor.new text words);
     OfflineNLP.generateInsights := simpleInsights |}.

Definition sampleClock : OfflineNLP.Clock :=
  {| OfflineNLP.startNow := 1000; OfflineNLP.isoNow := "2025-01-01T00:00:00.000Z";
     OfflineNLP.endNow := 1007 |}.

(** What the preprocessor hands on for [sampleTranscript]. *)
Definition sampleSentences : list string :=
  Eval vm_compute in
    match OfflineNLP.splitSentences simplePreprocessor sampleTranscript with
    | Normal l => l
    | _ => []
    end.
Definition sampleWords : list string :=
  Eval vm_compute in
    match OfflineNLP.tokenize simplePreprocessor sampleTranscript with
    | Normal l => l
    | _ => []
    end.

(** [insights] after the [catch] block, when no insight was generated. *)
Definition fallbackInsights : OfflineNLP.Insights :=
  {| OfflineNLP.mood := OfflineNLP.MoodNeutral;
     OfflineNLP.energy := OfflineNLP.EnergyMedium;
     OfflineNLP.focus := OfflineNLP.FocusMixed;
     OfflineNLP.recommendations := OfflineNLP.fallbackRecommendations;
     OfflineNLP.insightPatterns := [] |}.

(** *** Classes of tokens, as the loop of [analyze] tells them apart *)

Inductive WordClass := IsIntensifier | IsNegator | IsPositive | IsNegative | IsOther.

Definition classify (this : SentimentDictionary.Dictionaries) (w : string) : WordClass :=
  if SentimentDictionary.has (SentimentDictionary.intensifiers this) w then IsIntensifier
  else if SentimentDictionary.has (SentimentDictionary.negators this) w then IsNegator
  else if SentimentDictionary.has (SentimentDictionary.positiveWords this) w then IsPositive
  else if SentimentDictionary.has (SentimentDictionary.negativeWords this) w then IsNegative
  else IsOther.

Definition sameClass (a b : WordClass) : bool :=
  match a, b with
  | IsIntensifier, IsIntensifier | IsNegator, IsNegator | IsPositive, IsPositive
  | IsNegative, IsNegative | IsOther, IsOther => true
  | _, _ => false
  end.

(** The tokens of class [c], in order. *)
Definition ofClass (this : SentimentDictionary.Dictionaries) (c : WordClass)
           (lowerWords : list string) : list string :=
  filter (fun w => sameClass (classify this w) c = true) lowerWords.

(** The hits [quickAnalyze] counts: the positive vocabulary first. *)
Definition quickPositive (this : SentimentDictionary.Dictionaries) (w : string) : bool :=
  SentimentDictionary.has (SentimentDictionary.positiveWords this) (toLowerCase w).
Definition quickNegative (this : SentimentDictionary.Dictionaries) (w : string) : bool :=
  negb (SentimentDictionary.has (SentimentDictionary.positiveWords this) (toLowerCase w))
  && SentimentDictionary.has (SentimentDictionary.negativeWords this) (toLowerCase w).

End Reference.

(* ================================================================== *)
(** ** Properties of the number primitives                             *)
(* ================================================================== *)
Module JSFacts.
Import JS.
Local Open Scope Q_scope.

Lemma Qltb_lt (a b : Q) : Qltb a b = true <-> a < b.
Proof.
  unfold Qltb. rewrite negb_true_iff. split.
  - intros H. apply Qnot_le_lt. intros Hle.
    apply Qle_bool_iff in Hle. congruence.
  - intros H. destruct (Qle_bool b a) eqn:E; [|reflexivity].
    apply Qle_bool_iff in E. exfalso. apply (Qlt_not_le _ _ H E).
Qed.

Lemma Qltb_ge (a b : Q) : Qltb a b = false <-> b <= a.
Proof.
  unfold Qltb. rewrite negb_false_iff. apply Qle_bool_iff.
Qed.

Lemma Math_max_l (a b : Q) : a <= Math_max a b.
Proof.
  unfold Math_max. destruct (Qle_bool a b) eqn:E.
  - now apply Qle_bool_iff.
  - apply Qle_refl.
Qed.

Lemma Math_max_r (a b : Q) : b <= Math_max a b.
Proof.
  unfold Math_max. destruct (Qle_bool a b) eqn:E.
  - apply Qle_refl.
  - apply Qlt_le_weak, Qltb_lt. unfold Qltb. now rewrite E.
Qed.

Lemma Math_max_lub (a b c : Q) : a <= c -> b <= c -> Math_max a b <= c.
Proof. unfold Math_max. now destruct (Qle_bool a b). Qed.

Lemma Math_min_l (a b : Q) : Math_min a b <= a.
Proof.
  unfold Math_min. destruct (Qle_bool a b) eqn:E.
  - apply Qle_refl.
  - apply Qlt_le_weak, Qltb_lt. unfold Qltb. now rewrite E.
Qed.

Lemma Math_min_r (a b : Q) : Math_min a b <= b.
Proof.
  unfold Math_min. destruct (Qle_bool a b) eqn:E.
  - now apply Qle_bool_iff.
  - apply Qle_refl.
Qed.

Lemma Math_min_glb (a b c : Q) : c <= a -> c <= b -> c <= Math_min a b.
Proof. unfold Math_min. now destruct (Qle_bool a b). Qed.


Lemma ofNat_nonneg (n : nat) : 0 <= ofNat n.
Proof.
  unfold ofNat. change 0 with (inject_Z 0). rewrite <- Zle_Qle. lia.
Qed.

Lemma ofNat_pos (n : nat) : (0 < n)%nat -> 0 < ofNat n.
Proof.
  intros H. unfold ofNat. change 0 with (inject_Z 0). rewrite <- Zlt_Qlt. lia.
Qed.

Lemma Qdiv_nonneg (a b : Q) : 0 <= a -> 0 < b -> 0 <= a / b.
Proof.
  intros Ha Hb. apply Qle_shift_div_l; [exact Hb | lra].
Qed.

(** *** Decimal rounding *)

Lemma over_one_le (a b : Z) : (a <= b)%Z -> a # 1 <= b # 1.
Proof. intros H. unfold Qle; simpl. lia. Qed.

Lemma round3_mono (x y : Q) : x <= y -> round3 x <= round3 y.
Proof.
  intros H. unfold round3.
  apply Qmult_le_compat_r; [| discriminate].
  apply over_one_le, Qfloor_resp_le. lra.
Qed.

Lemma round3_nonneg (x : Q) : 0 <= x -> 0 <= round3 x.
Proof.
  intros H. unfold round3. apply Qdiv_nonneg; [| reflexivity].
  apply (over_one_le 0). change 0%Z with (Qfloor 0).
  apply Qfloor_resp_le. lra.
Qed.

Lemma toFixed3_mono (x y : Q) : x <= y -> toFixed3 x <= toFixed3 y.
Proof.
  intros H. unfold toFixed3.
  destruct (Qltb x 0) eqn:Ex, (Qltb y 0) eqn:Ey.
  - apply Qopp_le_compat, round3_mono. lra.
  - apply Qltb_lt in Ex. apply Qltb_ge in Ey.
    apply Qle_trans with 0.
    + assert (0 <= round3 (- x)) by (apply round3_nonneg; lra). lra.
    + now apply round3_nonneg.
  - apply Qltb_ge in Ex. apply Qltb_lt in Ey. lra.
  - now apply round3_mono.
Qed.

(** A value between two multiples of 1/1000 rounds between them. *)
Lemma toFixed3_between (a b x : Q) :
  toFixed3 a == a -> toFixed3 b == b -> a <= x <= b -> a <= toFixed3 x <= b.
Proof.
  intros Ha Hb [H1 H2]. split.
  - rewrite <- Ha. now apply toFixed3_mono.
  - rewrite <- Hb. now apply toFixed3_mono.
Qed.

End JSFacts.

(* ================================================================== *)
(** ** Sentiment analysis                                              *)
(* ================================================================== *)
Module SentimentProofs.
Import JS JSFacts SentimentDictionary Reference.
Local Open Scope Q_scope.

Section AnyDictionary.
Variable this : Dictionaries.



Lemma labelOf_positive (x : Q) : 1 # 10 < x -> labelOf x = Positive.
Proof. intros H. unfold labelOf. apply Qltb_lt in H. now rewrite H. Qed.

Lemma labelOf_negative (x : Q) : x < - (1 # 10) -> labelOf x = Negative.
Proof.
  intros H. unfold labelOf.
  assert (E : Qltb (1 # 10) x = false) by (apply Qltb_ge; lra).
  rewrite E. apply Qltb_lt in H. now rewrite H.
Qed.

End AnyDictionary.




(** *** Tokens that are intensifiers or negators *)

(** C10: an intensifier or negator token is only recorded in the
    intensifier/negator breakdown (intensifiers first); the accumulated
    score, the sentiment-word counter and the positive/negative word
    lists are left as they were, whatever the vocabularies say about
    the token. *)
Theorem modifier_token_is_never_scored (this : Dictionaries)
        (lowerWords : list string) (st : LoopState) (i : nat) :
  has (intensifiers this) (at_ lowerWords i)
    || has (negators this) (at_ lowerWords i) = true ->
  let w := at_ lowerWords i in
  let st' := step this lowerWords st i in
  totalScore st' = totalScore st
  /\ sentimentWords st' = sentimentWords st
  /\ positiveWordsFound (bd st') = positiveWordsFound (bd st)
  /\ negativeWordsFound (bd st') = negativeWordsFound (bd st)
  /\ (if has (intensifiers this) w
      then intensifiersFound (bd st') = intensifiersFound (bd st) ++ [w]
           /\ negatorsFound (bd st') = negatorsFound (bd st)
      else intensifiersFound (bd st') = intensifiersFound (bd st)
           /\ negatorsFound (bd st') = negatorsFound (bd st) ++ [w]).
Proof.
  intros H w st'. subst w st'. unfold step.
  destruct (has (intensifiers this) (at_ lowerWords i)) eqn:Ei.
  - simpl. repeat split; reflexivity.
  - simpl in H. rewrite H. simpl. repeat split; reflexivity.
Qed.

(** The words the claim names are in both a vocabulary and a modifier
    set of the engine's dictionaries. *)
Lemma overlapping_vocabulary :
  has (positiveWords dict) "pretty" = true /\ has (intensifiers dict) "pretty" = true
  /\ Forall (fun w => has (negativeWords dict) w = true /\ has (negators dict) w = true)
            ["stop"; "avoid"; "prevent"; "missing"; "nothing"].
Proof.
  split; [vm_compute; reflexivity |]. split; [vm_compute; reflexivity |].
  repeat constructor; vm_compute; reflexivity.
Qed.

Lemma modifier_token_is_never_scored_witness :
  let st' := step dict ["pretty"] initialState 0 in
  totalScore st' = totalScore initialState
  /\ sentimentWords st' = sentimentWords initialState
  /\ positiveWordsFound (bd st') = positiveWordsFound (bd initialState)
  /\ negativeWordsFound (bd st') = negativeWordsFound (bd initialState)
  /\ (if has (intensifiers dict) "pretty"
      then intensifiersFound (bd st') = intensifiersFound (bd initialState) ++ ["pretty"]
           /\ negatorsFound (bd st') = negatorsFound (bd initialState)
      else intensifiersFound (bd st') = intensifiersFound (bd initialState)
           /\ negatorsFound (bd st') = negatorsFound (bd initialState) ++ ["pretty"]).
Proof.
  apply (modifier_token_is_never_scored dict ["pretty"] initialState 0).
  vm_compute. reflexivity.
Defined.

(** *** Negation *)

Lemma isNegatedAt_true (this : Dictionaries) (lowerWords : list string) (i : nat) :
  (exists j, (i - 2 <= j < i)%nat /\ has (negators this) (at_ lowerWords j) = true) ->
  isNegatedAt this lowerWords i = true.
Proof.
  intros (j & Hj & Hn). unfold isNegatedAt.
  apply existsb_exists. exists j. split; [| exact Hn].
  apply in_seq. lia.
Qed.

Lemma getOr_nonzero (m : gmap string Q) (w : string) (d : Q) :
  ~ d == 0 -> Qeq_bool (getOr m w d) 0 = false.
Proof.
  intros Hd.
  assert (Hd' : Qeq_bool d 0 = false).
  { destruct (Qeq_bool d 0) eqn:E; [| reflexivity].
    apply Qeq_bool_eq in E. contradiction. }
  unfold getOr. destruct (m !! w) as [v |]; [| exact Hd'].
  destruct (Qeq_bool v 0) eqn:E; [exact Hd' | exact E].
Qed.

Lemma baseScore_vocabulary (this : Dictionaries) (w : string) (b : Breakdown) :
  has (positiveWords this) w || has (negativeWords this) w = true ->
  fst (baseScore this w b) = dictionaryScore this w
  /\ Qeq_bool (fst (baseScore this w b)) 0 = false.
Proof.
  intros H. unfold baseScore, dictionaryScore.
  destruct (has (positiveWords this) w) eqn:Ep; simpl.
  - split; [reflexivity |]. apply getOr_nonzero. discriminate.
  - simpl in H. rewrite H. simpl.
    split; [reflexivity |]. apply getOr_nonzero. discriminate.
Qed.

(** C6, as stated, at the tokens "not pretty": "pretty" is in the
    positive vocabulary and follows a negator, yet it adds nothing to
    the accumulated score (the claim asks for -0.4 * 0.8). *)
Lemma negated_vocabulary_word_may_contribute_nothing :
  let lowerWords := ["not"; "pretty"] in
  let before_ := step dict lowerWords initialState 0 in
  let after := step dict lowerWords before_ 1 in
  has (positiveWords dict) "pretty" = true
  /\ has (negators dict) (at_ lowerWords 0) = true
  /\ dictionaryScore dict "pretty" == 4 # 10
  /\ totalScore after == totalScore before_
  /\ sentimentWords after = sentimentWords before_
  /\ ~ (totalScore after ==
        totalScore before_
        + (- dictionaryScore dict "pretty" * (8 # 10))
          * intensityMultiplier dict (prevWordAt lowerWords 1) (nextWordAt lowerWords 1))
  /\ score (analyze dict "" ["not"; "pretty"]) == 0.
Proof.
  vm_compute. repeat split; try reflexivity; discriminate.
Qed.

(** C6 (amended): a vocabulary word that is not itself an intensifier
    or negator, with a negator among the up-to-2 tokens before it, adds
    its base score with flipped sign, damped by 0.8, then multiplied by
    the intensity multiplier; the tokens of "I am not happy" score
    at most 0. *)
Theorem negated_word_contribution (this : Dictionaries)
        (lowerWords : list string) (st : LoopState) (i : nat) :
  let w := at_ lowerWords i in
  has (intensifiers this) w = false ->
  has (negators this) w = false ->
  has (positiveWords this) w || has (negativeWords this) w = true ->
  (exists j, (i - 2 <= j < i)%nat /\ has (negators this) (at_ lowerWords j) = true) ->
  let st' := step this lowerWords st i in
  totalScore st'
    = totalScore st
      + (- dictionaryScore this w * (8 # 10))
        * intensityMultiplier this (prevWordAt lowerWords i) (nextWordAt lowerWords i)
  /\ sentimentWords st' = S (sentimentWords st)
  /\ score (analyze dict "" ["I"; "am"; "not"; "happy"]) <= 0.
Proof.
  intros w Hi Hn Hv Hneg st'. subst w st'.
  split; [| split].
  - unfold step. rewrite Hi, Hn.
    destruct (baseScore_vocabulary this _ (bd st) Hv) as [Hb Hz].
    destruct (baseScore this (at_ lowerWords i) (bd st)) as [ws b]; simpl in *.
    rewrite Hz. simpl. rewrite (isNegatedAt_true _ _ _ Hneg). now subst ws.
  - unfold step. rewrite Hi, Hn.
    destruct (baseScore_vocabulary this _ (bd st) Hv) as [Hb Hz].
    destruct (baseScore this (at_ lowerWords i) (bd st)) as [ws b]; simpl in *.
    rewrite Hz. reflexivity.
  - vm_compute. discriminate.
Qed.

Lemma negated_word_contribution_witness :
  let lowerWords := ["i"; "am"; "not"; "happy"] in
  let st := fold_left (step dict lowerWords) [0; 1; 2]%nat initialState in
  let st' := step dict lowerWords st 3 in
  totalScore st'
    = totalScore st
      + (- dictionaryScore dict "happy" * (8 # 10))
        * intensityMultiplier dict (prevWordAt lowerWords 3) (nextWordAt lowerWords 3)
  /\ sentimentWords st' = S (sentimentWords st)
  /\ score (analyze dict "" ["I"; "am"; "not"; "happy"]) <= 0.
Proof.
  apply (negated_word_contribution dict ["i"; "am"; "not"; "happy"]
           (fold_left (step dict ["i"; "am"; "not"; "happy"]) [0; 1; 2]%nat initialState)
           3).
  - vm_compute. reflexivity.
  - vm_compute. reflexivity.
  - vm_compute. reflexivity.
  - exists 2%nat. split; [lia | vm_compute; reflexivity].
Defined.

(** *** Intensifiers *)

Lemma has_elements (s : gset string) (w : string) :
  has s w = true -> In w (elements s).
Proof.
  unfold has. intros H. apply bool_decide_eq_true in H.
  apply list_elem_of_In, elem_of_elements. exact H.
Qed.





(** The comparison is about a sentiment word standing alone.  Inside a
    longer sentence the inserted intensifier also strengthens the
    sentiment word in front of it (multiplier 1.2), and the average can
    move towards zero: "terrible happy" scores -0.1, "terrible very
    happy" scores -0.09. *)
Lemma intensifier_inside_a_sentence :
  score (analyze dict "" ["terrible"; "happy"]) == - (1 # 10)
  /\ score (analyze dict "" ["terrible"; "very"; "happy"]) == - (9 # 100).
Proof. split; vm_compute; reflexivity. Qed.

End SentimentProofs.

(* ================================================================== *)
(** ** Regular expressions: what a match consumes                      *)
(* ================================================================== *)
Module RegExpFacts.
Import JS RegExp Reference.

Section Consumes.
Variable icase : bool.

Lemma lit_consumes (p : string) :
  forall prev s k res,
    lit icase p prev s k = Some res ->
    exists prev' s', k prev' s' = Some res
                     /\ (strlen s' + strlen p <= strlen s)%nat.
Proof.
  induction p as [| a p IH]; intros prev s k res H; simpl in H.
  - exists prev, s. split; [exact H | simpl; lia].
  - destruct s as [| b s]; [discriminate |].
    destruct (chrEq icase a b); [| discriminate].
    destruct (IH _ _ _ _ H) as (prev' & s' & Hk & Hlen).
    exists prev', s'. split; [exact Hk | simpl in *; lia].
Qed.

Lemma rep_consumes (cl : charclass) :
  forall s mn mx prev k res,
    rep icase cl mn mx prev s k = Some res ->
    exists prev' s', k prev' s' = Some res
                     /\ (strlen s' + mn <= strlen s)%nat.
Proof.
  induction s as [| c s IH]; intros mn mx prev k res H; simpl in H.
  - destruct mn; [| discriminate].
    exists prev, EmptyString. split; [exact H | simpl; lia].
  - assert (Hstop : match mn with O => k prev (String c s) | S _ => None end = Some res ->
                    exists prev' s', k prev' s' = Some res
                                     /\ (strlen s' + mn <= strlen (String c s))%nat).
    { destruct mn; [| discriminate]. intros Hk.
      exists prev, (String c s). split; [exact Hk | simpl; lia]. }
    destruct (match mx with Some O => false | _ => classMatches icase cl c end);
      [| exact (Hstop H)].
    destruct (rep icase cl (Nat.pred mn) (option_map Nat.pred mx) (Some c) s k)
      as [r |] eqn:E; [| exact (Hstop H)].
    injection H as ->.
    destruct (IH _ _ _ _ _ E) as (prev' & s' & Hk & Hlen).
    exists prev', s'. split; [exact Hk | simpl; lia].
Qed.

(** Whatever the continuation is handed has lost at least [minLen r]
    code units. *)
Lemma run_consumes (r : syntax) :
  forall prev s k res,
    run icase r prev s k = Some res ->
    exists prev' s', k prev' s' = Some res
                     /\ (strlen s' + minLen r <= strlen s)%nat.
Proof.
  induction r as [p | a IHa b IHb | a IHa b IHb | cl mn mx | a IHa | | |];
    intros prev s k res H; simpl in H.
  - exact (lit_consumes p prev s k res H).
  - destruct (IHa _ _ _ _ H) as (p1 & s1 & H1 & L1).
    destruct (IHb _ _ _ _ H1) as (p2 & s2 & H2 & L2).
    exists p2, s2. split; [exact H2 | simpl; lia].
  - destruct (run icase a prev s k) as [x |] eqn:E.
    + injection H as ->.
      destruct (IHa _ _ _ _ E) as (p1 & s1 & H1 & L1).
      exists p1, s1. split; [exact H1 | simpl; lia].
    + destruct (IHb _ _ _ _ H) as (p1 & s1 & H1 & L1).
      exists p1, s1. split; [exact H1 | simpl; lia].
  - exact (rep_consumes cl s mn mx prev k res H).
  - destruct (run icase a prev s k) as [x |] eqn:E.
    + injection H as ->.
      destruct (IHa _ _ _ _ E) as (p1 & s1 & H1 & L1).
      exists p1, s1. split; [exact H1 | simpl; lia].
    + exists prev, s. split; [exact H | simpl; lia].
  - destruct prev; [discriminate |].
    exists None, s. split; [exact H | simpl; lia].
  - destruct s; [| discriminate].
    exists prev, EmptyString. split; [exact H | simpl; lia].
  - destruct (atWordBoundary prev s); [| discriminate].
    exists prev, s. split; [exact H | simpl; lia].
Qed.

Lemma take_nonempty (n : nat) (s : string) :
  (0 < n)%nat -> (0 < strlen s)%nat -> take n s <> EmptyString.
Proof.
  intros Hn Hs. destruct n; [lia |]. destruct s; [simpl in Hs; lia |].
  simpl. discriminate.
Qed.

(** A match of a pattern that must consume something is not empty and
    leaves strictly less input. *)
Lemma scan_consumes (r : syntax) :
  (0 < minLen r)%nat ->
  forall s skipped prev m,
    scan icase r skipped prev s = Some m ->
    matched m <> EmptyString /\ (strlen (rest m) < strlen s)%nat.
Proof.
  intros Hr. induction s as [| c s IH]; intros skipped prev m H; simpl in H.
  - destruct (run icase r prev EmptyString (accept)) as [[p' s'] |] eqn:E;
      [| discriminate].
    destruct (run_consumes _ _ _ _ _ E) as (p1 & s1 & H1 & L1).
    simpl in L1. lia.
  - destruct (run icase r prev (String c s) (accept)) as [[p' s'] |] eqn:E.
    + injection H as <-. simpl.
      destruct (run_consumes _ _ _ _ _ E) as (p1 & s1 & H1 & L1).
      unfold accept in H1. injection H1 as -> ->.
      split; [| simpl in *; lia].
      change (take (strlen (String c s) - strlen s') (String c s) <> EmptyString).
      apply take_nonempty; simpl in *; lia.
    + destruct (IH _ _ _ H) as [Hm Hl]. split; [exact Hm | simpl; lia].
Qed.
End Consumes.

(** *** Deleting matches keeps only code units of the input *)

Lemma AllUnits_app (P : ascii -> Prop) (s t : string) :
  AllUnits P (s +:+ t) <-> AllUnits P s /\ AllUnits P t.
Proof.
  induction s as [| c s IH]; simpl; [tauto |]. rewrite IH. tauto.
Qed.

Lemma AllUnits_revString (P : ascii -> Prop) (s : string) :
  forall acc, AllUnits P acc -> AllUnits P s -> AllUnits P (revString acc s).
Proof.
  induction s as [| c s IH]; intros acc Ha Hs; simpl in *; [exact Ha |].
  apply IH; [split |]; tauto.
Qed.

Section Units.
Variable icase : bool.
Variable P : ascii -> Prop.

Lemma lit_units (p : string) :
  forall prev s k res,
    lit icase p prev s k = Some res -> AllUnits P s ->
    exists prev' s', k prev' s' = Some res /\ AllUnits P s'.
Proof.
  induction p as [| a p IH]; intros prev s k res H Hs; simpl in H.
  - now exists prev, s.
  - destruct s as [| b s]; [discriminate |].
    destruct (chrEq icase a b); [| discriminate].
    apply (IH _ _ _ _ H). now destruct Hs.
Qed.

Lemma rep_units (cl : charclass) :
  forall s mn mx prev k res,
    rep icase cl mn mx prev s k = Some res -> AllUnits P s ->
    exists prev' s', k prev' s' = Some res /\ AllUnits P s'.
Proof.
  induction s as [| c s IH]; intros mn mx prev k res H Hs; simpl in H.
  - destruct mn; [| discriminate]. now exists prev, EmptyString.
  - assert (Hstop : match mn with O => k prev (String c s) | S _ => None end = Some res ->
                    exists prev' s', k prev' s' = Some res /\ AllUnits P s').
    { destruct mn; [| discriminate]. intros Hk. now exists prev, (String c s). }
    destruct (match mx with Some O => false | _ => classMatches icase cl c end);
      [| exact (Hstop H)].
    destruct (rep icase cl (Nat.pred mn) (option_map Nat.pred mx) (Some c) s k)
      as [r |] eqn:E; [| exact (Hstop H)].
    injection H as ->. apply (IH _ _ _ _ _ E). now destruct Hs.
Qed.

Lemma run_units (r : syntax) :
  forall prev s k res,
    run icase r prev s k = Some res -> AllUnits P s ->
    exists prev' s', k prev' s' = Some res /\ AllUnits P s'.
Proof.
  induction r as [p | a IHa b IHb | a IHa b IHb | cl mn mx | a IHa | | |];
    intros prev s k res H Hs; simpl in H.
  - exact (lit_units p prev s k res H Hs).
  - destruct (IHa _ _ _ _ H Hs) as (p1 & s1 & H1 & L1).
    exact (IHb _ _ _ _ H1 L1).
  - destruct (run icase a prev s k) as [x |] eqn:E.
    + injection H as ->. exact (IHa _ _ _ _ E Hs).
    + exact (IHb _ _ _ _ H Hs).
  - exact (rep_units cl s mn mx prev k res H Hs).
  - destruct (run icase a prev s k) as [x |] eqn:E.
    + injection H as ->. exact (IHa _ _ _ _ E Hs).
    + now exists prev, s.
  - destruct prev; [discriminate |]. now exists None, s.
  - destruct s; [| discriminate]. now exists prev, EmptyString.
  - destruct (atWordBoundary prev s); [| discriminate]. now exists prev, s.
Qed.

Lemma scan_units (r : syntax) :
  forall s skipped prev m,
    scan icase r skipped prev s = Some m ->
    AllUnits P skipped -> AllUnits P s ->
    AllUnits P (before m) /\ AllUnits P (rest m).
Proof.
  induction s as [| c s IH]; intros skipped prev m H Hk Hs; simpl in H.
  - destruct (run icase r prev EmptyString accept) as [[p' s'] |] eqn:E;
      [| discriminate].
    injection H as <-. simpl.
    destruct (run_units _ _ _ _ _ E Hs) as (p1 & s1 & H1 & L1).
    unfold accept in H1. injection H1 as -> ->.
    split; [| exact L1]. now apply AllUnits_revString.
  - destruct (run icase r prev (String c s) accept) as [[p' s'] |] eqn:E.
    + injection H as <-. simpl.
      destruct (run_units _ _ _ _ _ E Hs) as (p1 & s1 & H1 & L1).
      unfold accept in H1. injection H1 as -> ->.
      split; [| exact L1]. now apply AllUnits_revString.
    + destruct Hs as [Hc Hs]. apply (IH _ _ _ H); [now split | exact Hs].
Qed.
End Units.

Lemma replaceLoop_units (P : ascii -> Prop) (re : RegExp) :
  forall fuel prev s,
    AllUnits P s -> AllUnits P (replaceLoop fuel re "" prev s).
Proof.
  induction fuel as [| fuel IH]; intros prev s Hs; simpl; [exact Hs |].
  destruct (exec re prev s) as [m |] eqn:E; [| exact Hs].
  unfold exec in E.
  destruct (scan_units _ P _ _ _ _ _ E I Hs) as [Hb Hr].
  apply AllUnits_app. split; [exact Hb |]. simpl.
  destruct (matched m) as [| c mm].
  - destruct (rest m) as [| c r]; [exact I |].
    destruct Hr as [Hc Hr]. split; [exact Hc | now apply IH].
  - now apply IH.
Qed.

(** [s.replace(re, '')] consists of code units of [s]. *)
Lemma replace_units (P : ascii -> Prop) (re : RegExp) (s : string) :
  AllUnits P s -> AllUnits P (replace s re "").
Proof.
  intros Hs. unfold replace. destruct (global re).
  - now apply replaceLoop_units.
  - destruct (exec re None s) as [m |] eqn:E; [| exact Hs].
    unfold exec in E.
    destruct (scan_units _ P _ _ _ _ _ E I Hs) as [Hb Hr].
    apply AllUnits_app. split; [exact Hb | exact Hr].
Qed.

Lemma lowerChar_idempotent (c : ascii) : lowerChar (lowerChar c) = lowerChar c.
Proof. destruct c as [[] [] [] [] [] [] [] []]; reflexivity. Qed.

Lemma toLowerCase_units (s : string) :
  AllUnits (fun c => lowerChar c = c) (toLowerCase s).
Proof.
  induction s as [| c s IH]; simpl; [exact I |].
  split; [apply lowerChar_idempotent | exact IH].
Qed.

Lemma toLowerCase_fixed (s : string) :
  AllUnits (fun c => lowerChar c = c) s -> toLowerCase s = s.
Proof.
  induction s as [| c s IH]; simpl; [reflexivity |].
  intros [Hc Hs]. unfold toLowerCase in *. simpl. now rewrite Hc, IH.
Qed.

End RegExpFacts.

(* ================================================================== *)
(** ** Arrays: membership, de-duplication, sorting                     *)
(* ================================================================== *)
Module ArrayFacts.
Import JS.

Lemma arrIncludes_true (xs : list string) (x : string) :
  arrIncludes xs x = true <-> x ∈ xs.
Proof.
  unfold arrIncludes. rewrite existsb_exists. split.
  - intros (y & Hy & E). apply String.eqb_eq in E. subst y.
    now apply list_elem_of_In.
  - intros H. exists x. split; [now apply list_elem_of_In | apply String.eqb_refl].
Qed.

Lemma arrIncludes_false (xs : list string) (x : string) :
  arrIncludes xs x = false <-> x ∉ xs.
Proof.
  rewrite <- arrIncludes_true. destruct (arrIncludes xs x); split; intros H.
  - discriminate.
  - exfalso. now apply H.
  - discriminate.
  - reflexivity.
Qed.

Lemma uniq_spec (xs : list string) :
  forall seen,
    NoDup (uniq seen xs)
    /\ (forall x, x ∈ uniq seen xs <-> x ∈ xs /\ x ∉ seen).
Proof.
  induction xs as [| y xs IH]; intros seen; simpl.
  - split; [constructor |]. intros x. split.
    + intros H. inversion H.
    + intros [H _]. inversion H.
  - destruct (arrIncludes seen y) eqn:E.
    + apply arrIncludes_true in E. destruct (IH seen) as [Hnd Hin].
      split; [exact Hnd |]. intros x. rewrite Hin. split.
      * intros [H1 H2]. split; [now right | exact H2].
      * intros [H1 H2]. split; [| exact H2].
        apply elem_of_cons in H1. destruct H1 as [-> | H1]; [contradiction | exact H1].
    + apply arrIncludes_false in E. destruct (IH (y :: seen)) as [Hnd Hin].
      split.
      * constructor; [| exact Hnd]. rewrite Hin. intros [_ H]. apply H. now left.
      * intros x. rewrite elem_of_cons, Hin. split.
        -- intros [-> | [H1 H2]].
           ++ split; [now left | exact E].
           ++ split; [now right |]. intros H. apply H2. now right.
        -- intros [H1 H2]. apply elem_of_cons in H1.
           destruct (decide (x = y)) as [-> | Hne]; [now left |].
           right. destruct H1 as [-> | H1]; [contradiction |].
           split; [exact H1 |]. intros H. apply elem_of_cons in H.
           destruct H as [-> | H]; [contradiction | now apply H2].
Qed.

Lemma fromSet_NoDup (xs : list string) : NoDup (fromSet xs).
Proof. apply uniq_spec. Qed.

Lemma fromSet_elem (xs : list string) (x : string) : x ∈ fromSet xs <-> x ∈ xs.
Proof.
  unfold fromSet. rewrite (proj2 (uniq_spec xs [])). split.
  - now intros [H _].
  - intros H. split; [exact H |]. intros H'. inversion H'.
Qed.

Lemma slice_subseteq {A} (a b : nat) (xs : list A) : slice a b xs ⊆ xs.
Proof.
  unfold slice. intros x H.
  apply (subseteq_take (b - a)) in H. now apply (subseteq_drop a).
Qed.

Lemma slice_slice_0 {A} (b c : nat) (xs : list A) :
  (b <= c)%nat -> slice 0 b xs ⊆ slice 0 c xs.
Proof.
  unfold slice. rewrite !Nat.sub_0_r. simpl. intros Hle x H.
  apply elem_of_take in H as (i & Hi & Hlt).
  apply elem_of_take. exists i. split; [exact Hi | lia].
Qed.

Lemma slice_within {A} (a b c : nat) (xs : list A) :
  (b <= c)%nat -> slice a b xs ⊆ slice 0 c xs.
Proof.
  unfold slice. rewrite Nat.sub_0_r. simpl. intros Hle x H.
  apply elem_of_take in H as (i & Hi & Hlt).
  rewrite lookup_drop in Hi.
  apply elem_of_take. exists (a + i)%nat. split; [exact Hi | lia].
Qed.

Section Sort.
Context {A : Type} (le : A -> A -> bool).

Lemma insertSorted_Permutation (x : A) (l : list A) :
  insertSorted le x l ≡ₚ x :: l.
Proof.
  induction l as [| y l IH]; simpl; [reflexivity |].
  destruct (le x y); [reflexivity |].
  rewrite IH. apply Permutation_swap.
Qed.

Lemma sort_Permutation (l : list A) : sort le l ≡ₚ l.
Proof.
  induction l as [| x l IH]; simpl; [reflexivity |].
  rewrite insertSorted_Permutation. now rewrite IH.
Qed.

Hypothesis le_total : forall a b, le a b = false -> le b a = true.
Hypothesis le_trans : forall a b c, le a b = true -> le b c = true -> le a c = true.

Lemma insertSorted_sorted (x : A) (l : list A) :
  StronglySorted (fun a b => le a b = true) l ->
  StronglySorted (fun a b => le a b = true) (insertSorted le x l).
Proof.
  induction 1 as [| y l Hs IH Hall]; simpl.
  - repeat constructor.
  - destruct (le x y) eqn:E.
    + constructor; [now constructor |].
      constructor; [exact E |].
      eapply Forall_impl; [exact Hall |].
      intros z Hz. simpl in Hz. now apply le_trans with y.
    + constructor; [exact IH |].
      rewrite insertSorted_Permutation. constructor; [| exact Hall].
      now apply le_total.
Qed.

Lemma sort_sorted (l : list A) :
  StronglySorted (fun a b => le a b = true) (sort le l).
Proof.
  induction l as [| x l IH]; simpl; [constructor |].
  now apply insertSorted_sorted.
Qed.
End Sort.

Lemma StronglySorted_weaken {A : Type} (R R' : A -> A -> Prop) (l : list A) :
  (forall a b, R a b -> R' a b) -> StronglySorted R l -> StronglySorted R' l.
Proof.
  intros Himp. induction 1 as [| x l Hs IH Hall]; constructor; [exact IH |].
  eapply Forall_impl; [exact Hall |]. intros y. apply Himp.
Qed.

(** In a sorted list without repetition, [a] stands in front of every
    [b] that may not stand in front of [a]. *)
Lemma sorted_in_front {A : Type} (R : A -> A -> Prop) (l : list A) (a b : A) :
  StronglySorted R l -> a ∈ l -> b ∈ l -> ~ R b a -> a <> b ->
  exists l1 l2 l3, l = l1 ++ a :: l2 ++ b :: l3.
Proof.
  intros Hs. induction Hs as [| x l Hs IH Hall]; intros Ha Hb Hn Hne.
  - inversion Ha.
  - apply elem_of_cons in Ha. apply elem_of_cons in Hb.
    destruct Ha as [-> | Ha].
    + destruct Hb as [-> | Hb]; [contradiction |].
      apply list_elem_of_split in Hb as (l2 & l3 & ->).
      exists [], l2, l3. reflexivity.
    + destruct Hb as [-> | Hb].
      * exfalso. apply Hn. rewrite Forall_forall in Hall. now apply Hall.
      * destruct (IH Ha Hb Hn Hne) as (l1 & l2 & l3 & ->).
        exists (x :: l1), l2, l3. reflexivity.
Qed.

End ArrayFacts.

(* ================================================================== *)
(** ** Action-item detection                                           *)
(* ================================================================== *)
Module ActionProofs.
Import JS RegExp RegExpFacts ArrayFacts ActionPatterns Reference.

(** *** The matching loop terminates *)

Lemma findLoop_returns (re : RegExp) :
  (0 < minLen (source re))%nat ->
  forall fuel s prev,
    (strlen s < fuel)%nat -> exists ms, findLoop fuel re prev s = Normal ms.
Proof.
  intros Hre. induction fuel as [| fuel IH]; intros s prev Hlt; [lia |].
  simpl. destruct (exec re prev s) as [m |] eqn:E; [| now exists []].
  unfold exec in E.
  destruct (scan_consumes _ _ Hre _ _ _ _ E) as [Hne Hlen].
  destruct (matched m) as [| c mm] eqn:Em; [contradiction |].
  destruct (IH (rest m) (lastUnit m)) as [ms Hms]; [lia |].
  rewrite Hms. now exists (String c mm :: ms).
Qed.

Lemma findMatches_returns (text : string) (re : RegExp) :
  (0 < minLen (source re))%nat -> exists ms, findMatches text re = Normal ms.
Proof. intros H. apply findLoop_returns; [exact H | lia]. Qed.

Lemma initializePatterns_consume :
  Forall (fun pc => (0 < minLen (source (regex (snd pc))))%nat) initializePatterns.
Proof. repeat constructor. Qed.

Lemma scanPatterns_returns (pats : list (string * PatternConfig)) (text : string) :
  Forall (fun pc => (0 < minLen (source (regex (snd pc))))%nat) pats ->
  forall acc, exists acc', scanPatterns pats text acc = Normal acc'.
Proof.
  induction 1 as [| [name cfg] pats Hc Hall IH]; intros acc; simpl.
  - now exists acc.
  - destruct (findMatches_returns text (regex cfg) Hc) as [ms ->]. simpl. apply IH.
Qed.

(** *** What is collected *)

Lemma filterIndexed_elem (keep : nat -> string -> bool) (xs : list string) (x : string) :
  forall i, x ∈ filterIndexed keep i xs -> exists j, keep j x = true.
Proof.
  induction xs as [| y xs IH]; intros i H; simpl in H; [inversion H |].
  destruct (keep i y) eqn:E.
  - apply elem_of_cons in H. destruct H as [-> | H]; [now exists i | now apply (IH (S i))].
  - now apply (IH (S i)).
Qed.

Lemma cleanMatches_length (found : list string) (x : string) :
  x ∈ cleanMatches found -> (10 < strlen x < 200)%nat.
Proof.
  intros H. apply filterIndexed_elem in H as [j Hj].
  unfold keepMatch in Hj.
  apply andb_true_iff in Hj as [Hj _]. apply andb_true_iff in Hj as [H1 H2].
  apply Nat.ltb_lt in H1. apply Nat.ltb_lt in H2. lia.
Qed.

Lemma collect_collected (name : string) (cfg : PatternConfig) (found : list string)
      (acc : list string * list PatternResult) :
  collected acc -> collected (collect name cfg found acc).
Proof.
  intros [Hc Hl]. unfold collect.
  destruct found as [| f found']; [now split |].
  destruct (cleanMatches (f :: found')) as [| c cm] eqn:E; [now split |].
  split; simpl.
  - rewrite map_app, concat_app, <- Hc. simpl. now rewrite app_nil_r.
  - apply Forall_app. split; [exact Hl |].
    apply Forall_forall. intros x Hx. apply (cleanMatches_length (f :: found')).
    now rewrite E.
Qed.

Lemma scanPatterns_collected (pats : list (string * PatternConfig)) (text : string) :
  forall acc acc',
    scanPatterns pats text acc = Normal acc' -> collected acc -> collected acc'.
Proof.
  induction pats as [| [name cfg] pats IH]; intros acc acc' H Hc; simpl in H.
  - now injection H as <-.
  - destruct (findMatches text (regex cfg)) as [found | e |]; simpl in H;
      [| discriminate | discriminate].
    apply (IH _ _ H). now apply collect_collected.
Qed.

(** *** Priority scores *)

Lemma scoreOf_insert (m : gmap string nat) (y x : string) (v : nat) :
  scoreOf (<[y := v]> m) x = if String.eqb y x then v else scoreOf m x.
Proof.
  unfold scoreOf. destruct (String.eqb y x) eqn:E.
  - apply String.eqb_eq in E. subst. now rewrite lookup_insert_eq.
  - apply String.eqb_neq in E. now rewrite lookup_insert_ne.
Qed.

Lemma recordMatches_scoreOf (sc : nat) (x : string) (ys : list string) :
  forall m,
    scoreOf (fold_left (fun m y => <[y := Nat.max (scoreOf m y) sc]> m) ys m) x
    = if arrIncludes ys x then Nat.max (scoreOf m x) sc else scoreOf m x.
Proof.
  induction ys as [| y ys IH]; intros m; simpl; [reflexivity |].
  rewrite IH, scoreOf_insert.
  rewrite (String.eqb_sym x y).
  destruct (String.eqb y x) eqn:E; simpl.
  - apply String.eqb_eq in E. subst y.
    destruct (arrIncludes ys x); lia.
  - reflexivity.
Qed.

Lemma recordPattern_scoreOf (m : gmap string nat) (p : PatternResult) (x : string) :
  scoreOf (recordPattern m p) x
  = if arrIncludes (matches p) x
    then Nat.max (scoreOf m x) (priorityScore (resultPriority p))
    else scoreOf m x.
Proof. apply recordMatches_scoreOf. Qed.

Lemma buildPriorityScores_from (results : list PatternResult) (x : string) :
  forall m,
    scoreOf (fold_left recordPattern results m) x
    = Nat.max (scoreOf m x) (maxPriority results x).
Proof.
  induction results as [| p results IH]; intros m; simpl; [lia |].
  rewrite IH, recordPattern_scoreOf.
  destruct (arrIncludes (matches p) x); lia.
Qed.

(** Each fragment gets the largest score among its patterns. *)
Lemma buildPriorityScores_max (results : list PatternResult) (x : string) :
  scoreOf (buildPriorityScores results) x = maxPriority results x.
Proof.
  unfold buildPriorityScores. rewrite buildPriorityScores_from.
  unfold scoreOf at 1. now rewrite lookup_empty.
Qed.

Lemma maxPriority_only (prio : Priority) (results : list PatternResult) (x : string) :
  producedOnlyBy prio results x ->
  x ∈ concat (map matches results) ->
  maxPriority results x = priorityScore prio.
Proof.
  induction results as [| p results IH]; intros Ho Hin; simpl in *; [inversion Hin |].
  assert (Ho' : producedOnlyBy prio results x).
  { intros q Hq. apply Ho. now right. }
  apply elem_of_app in Hin.
  destruct (arrIncludes (matches p) x) eqn:E.
  - apply arrIncludes_true in E.
    rewrite (Ho p (ltac:(now left)) E).
    destruct (decide (x ∈ concat (map matches results))) as [Hr | Hr].
    + rewrite (IH Ho' Hr). lia.
    + assert (Hz : maxPriority results x = 0%nat).
      { clear -Hr. induction results as [| q results IH]; simpl in *; [reflexivity |].
        destruct (arrIncludes (matches q) x) eqn:Eq.
        - apply arrIncludes_true in Eq. exfalso. apply Hr.
          apply elem_of_app. now left.
        - apply IH. intros H. apply Hr. apply elem_of_app. now right. }
      rewrite Hz. lia.
  - apply arrIncludes_false in E.
    destruct Hin as [Hin | Hin]; [contradiction | now apply IH].
Qed.

(** *** The comparator *)

Lemma itemLe_goesBefore (results : list PatternResult) (a b : string) :
  itemLe results a b = true <-> goesBefore results a b.
Proof.
  unfold itemLe, compareItems, goesBefore.
  rewrite !buildPriorityScores_max.
  destruct (Z.of_nat (maxPriority results a) =? Z.of_nat (maxPriority results b)) eqn:E;
    simpl; rewrite Z.leb_le.
  - apply Z.eqb_eq in E. lia.
  - apply Z.eqb_neq in E. lia.
Qed.

Lemma itemLe_total (results : list PatternResult) (a b : string) :
  itemLe results a b = false -> itemLe results b a = true.
Proof.
  intros H. apply itemLe_goesBefore.
  assert (Hn : ~ goesBefore results a b).
  { intros Hg. apply itemLe_goesBefore in Hg. congruence. }
  unfold goesBefore in *. lia.
Qed.

Lemma itemLe_trans (results : list PatternResult) (a b c : string) :
  itemLe results a b = true -> itemLe results b c = true -> itemLe results a c = true.
Proof.
  rewrite !itemLe_goesBefore. unfold goesBefore. lia.
Qed.

Lemma prioritizeItems_Permutation (xs : list string) (results : list PatternResult) :
  prioritizeItems xs results ≡ₚ xs.
Proof. apply sort_Permutation. Qed.

Lemma prioritizeItems_sorted (xs : list string) (results : list PatternResult) :
  StronglySorted (goesBefore results) (prioritizeItems xs results).
Proof.
  pose proof (sort_sorted (itemLe results) (itemLe_total results)
                          (itemLe_trans results) xs) as H.
  unfold prioritizeItems.
  eapply StronglySorted_weaken; [| exact H].
  intros a b Hab. simpl in Hab. now apply itemLe_goesBefore.
Qed.

(** *** The result of [detect] *)

Lemma detect_inversion (this : list (string * PatternConfig)) (text : string)
      (sentences : list string) (r : ActionDetectionResult) :
  detect this text sentences = Normal r ->
  exists allMatches,
    scanPatterns this text ([], []) = Normal (allMatches, patterns r)
    /\ items r = prioritizeItems (fromSet allMatches) (patterns r)
    /\ totalCount r = length (fromSet allMatches).
Proof.
  unfold detect. intros H.
  destruct (scanPatterns this text ([], [])) as [[allMatches results] | e |];
    simpl in H; [| discriminate | discriminate].
  injection H as <-. simpl. now exists allMatches.
Qed.

Lemma collected_initially : collected ([], []).
Proof. split; [reflexivity | constructor]. Qed.

Lemma detect_items (this : list (string * PatternConfig)) (text : string)
      (sentences : list string) (r : ActionDetectionResult) :
  detect this text sentences = Normal r ->
  exists allMatches,
    allMatches = concat (map matches (patterns r))
    /\ Forall (fun x => (10 < strlen x < 200)%nat) allMatches
    /\ items r ≡ₚ fromSet allMatches
    /\ items r = prioritizeItems (fromSet allMatches) (patterns r).
Proof.
  intros H. apply detect_inversion in H as (allMatches & Hscan & Hitems & _).
  destruct (scanPatterns_collected _ _ _ _ Hscan collected_initially) as [Hc Hl].
  simpl in Hc, Hl. exists allMatches. repeat split; try assumption.
  rewrite Hitems. apply prioritizeItems_Permutation.
Qed.

(** C3: on every text the detection returns, its items are pairwise
    different and each has between 10 and 199 code units. *)
Theorem detect_items_unique_and_bounded (text : string) (sentences : list string) :
  exists r,
    detect initializePatterns text sentences = Normal r
    /\ NoDup (items r)
    /\ Forall (fun x => (10 <= strlen x < 200)%nat) (items r).
Proof.
  destruct (scanPatterns_returns initializePatterns text initializePatterns_consume
                                 ([], [])) as [[allMatches results] Hscan].
  set (r := {| items := prioritizeItems (fromSet allMatches) results;
               patterns := results;
               totalCount := length (fromSet allMatches) |}).
  assert (Hr : detect initializePatterns text sentences = Normal r).
  { unfold detect. rewrite Hscan. reflexivity. }
  exists r. split; [exact Hr |].
  destruct (detect_items _ _ _ _ Hr) as (am & Ham & Hlen & Hperm & _).
  split.
  - rewrite Hperm. apply fromSet_NoDup.
  - rewrite Hperm. apply Forall_forall. intros x Hx.
    apply (proj1 (fromSet_elem _ _)) in Hx.
    rewrite Forall_forall in Hlen. specialize (Hlen x Hx). lia.
Qed.

(** The bound of the code is strict: no item has exactly 10 units. *)
Lemma detect_items_longer_than_10 (this : list (string * PatternConfig))
      (text : string) (sentences : list string) (r : ActionDetectionResult) :
  detect this text sentences = Normal r ->
  Forall (fun x => (10 < strlen x)%nat) (items r).
Proof.
  intros Hr. destruct (detect_items _ _ _ _ Hr) as (am & Ham & Hlen & Hperm & _).
  rewrite Hperm. apply Forall_forall. intros x Hx.
  apply (proj1 (fromSet_elem _ _)) in Hx.
  rewrite Forall_forall in Hlen. specialize (Hlen x Hx). lia.
Qed.

(** C4: every fragment is scored with the largest priority score among
    the patterns that produced it (and some pattern did produce each
    item); the items are ordered by descending score, longer first
    among equal scores; hence an item produced by high-priority
    patterns only stands in front of an item produced by low-priority
    patterns only. *)
Theorem detect_items_prioritized (this : list (string * PatternConfig))
        (text : string) (sentences : list string) (r : ActionDetectionResult) :
  detect this text sentences = Normal r ->
  (priorityScore High = 3 /\ priorityScore Medium = 2 /\ priorityScore Low = 1)%nat
  /\ (forall x, scoreOf (buildPriorityScores (patterns r)) x = maxPriority (patterns r) x)
  /\ (forall x, x ∈ items r -> exists p, p ∈ patterns r /\ x ∈ matches p)
  /\ StronglySorted (goesBefore (patterns r)) (items r)
  /\ (forall a b,
        a ∈ items r -> b ∈ items r ->
        producedOnlyBy High (patterns r) a ->
        producedOnlyBy Low (patterns r) b ->
        exists l1 l2 l3, items r = l1 ++ a :: l2 ++ b :: l3).
Proof.
  intros Hr. destruct (detect_items _ _ _ _ Hr) as (am & Ham & Hlen & Hperm & Hitems).
  assert (Hprod : forall x, x ∈ items r -> x ∈ concat (map matches (patterns r))).
  { intros x Hx. rewrite Hperm in Hx. apply (proj1 (fromSet_elem _ _)) in Hx.
    now subst am. }
  assert (Hsorted : StronglySorted (goesBefore (patterns r)) (items r)).
  { rewrite Hitems. apply prioritizeItems_sorted. }
  split; [| split; [| split; [| split]]].
  - repeat split; reflexivity.
  - intros x. apply buildPriorityScores_max.
  - intros x Hx. apply Hprod in Hx.
    apply list_elem_of_In, in_concat in Hx as (l & Hl & Hxl).
    apply in_map_iff in Hl as (p & <- & Hp).
    exists p. split; now apply list_elem_of_In.
  - exact Hsorted.
  - intros a b Ha Hb Hhigh Hlow.
    pose proof (maxPriority_only _ _ _ Hhigh (Hprod a Ha)) as Ea.
    pose proof (maxPriority_only _ _ _ Hlow (Hprod b Hb)) as Eb.
    simpl in Ea, Eb.
    apply (sorted_in_front (goesBefore (patterns r))); try assumption.
    + unfold goesBefore. rewrite Ea, Eb. lia.
    + intros ->. rewrite Ea in Eb. discriminate.
Qed.

Lemma detect_items_prioritized_witness :
  (priorityScore High = 3 /\ priorityScore Medium = 2 /\ priorityScore Low = 1)%nat
  /\ (forall x, scoreOf (buildPriorityScores (patterns sampleDetection)) x
             = maxPriority (patterns sampleDetection) x)
  /\ (forall x, x ∈ items sampleDetection ->
                exists p, p ∈ patterns sampleDetection /\ x ∈ matches p)
  /\ StronglySorted (goesBefore (patterns sampleDetection)) (items sampleDetection)
  /\ (forall a b,
        a ∈ items sampleDetection -> b ∈ items sampleDetection ->
        producedOnlyBy High (patterns sampleDetection) a ->
        producedOnlyBy Low (patterns sampleDetection) b ->
        exists l1 l2 l3, items sampleDetection = l1 ++ a :: l2 ++ b :: l3).
Proof.
  apply (detect_items_prioritized initializePatterns sampleTranscript [] sampleDetection).
  vm_compute. reflexivity.
Defined.

End ActionProofs.

(* ================================================================== *)
(** ** Topic extraction                                                *)
(* ================================================================== *)
Module TopicProofs.
Import JS JSFacts RegExp RegExpFacts ArrayFacts TopicExtractor Reference.
Local Open Scope Q_scope.

(** *** Keywords are lower-case *)


Lemma bump_keys (w : string) (freq : list (string * nat)) (k : string) :
  k ∈ map fst (bump w freq) -> k = w \/ k ∈ map fst freq.
Proof.
  induction freq as [| [k' n] freq IH]; simpl; intros H.
  - apply elem_of_cons in H as [-> | H]; [now left | inversion H].
  - destruct (String.eqb k' w); simpl in H.
    + now right.
    + apply elem_of_cons in H as [-> | H]; [right; now left |].
      destruct (IH H) as [-> | H']; [now left | right; now right].
Qed.

Lemma fold_bump_keys (ws : list string) (k : string) :
  forall freq,
    k ∈ map fst (fold_left (fun freq w => bump w freq) ws freq) ->
    k ∈ ws \/ k ∈ map fst freq.
Proof.
  induction ws as [| w ws IH]; intros freq H; simpl in H; [now right |].
  destruct (IH _ H) as [H' | H']; [left; now right |].
  destruct (bump_keys _ _ _ H') as [-> | H'']; [left; now left | now right].
Qed.


Lemma scoreWord_word (this : Extractor) (maxFreq : extended) (text : string)
      (entry : string * nat) :
  word (scoreWord this maxFreq text entry) = fst entry.
Proof. now destruct entry. Qed.



(** *** The score of one category *)

Lemma overlap_fold (h : Q) (test : string -> bool) (cws : list string) :
  forall acc,
    fold_left (fun sc cw => if test cw then sc + h else sc) cws acc
    == acc + sumQ (map (fun cw => if test cw then h else 0) cws).
Proof.
  induction cws as [| cw cws IH]; intros acc; simpl.
  - ring.
  - rewrite IH. destruct (test cw); ring.
Qed.


Lemma addKeyword_Qeq (categoryWords : list string) (s1 s2 : Q) (k : Keyword) :
  s1 == s2 -> addKeyword categoryWords s1 k == addKeyword categoryWords s2 k.
Proof.
  intros E. unfold addKeyword.
  rewrite !(overlap_fold (relevance k * (5 # 10))
                         (fun cw => includes (word k) cw || includes cw (word k))).
  destruct (arrIncludes categoryWords (toLowerCase (word k))); rewrite E; reflexivity.
Qed.



(** *** The categories that are kept *)

Lemma scoreCategories_from (kws : list Keyword) (cats : list (string * list string)) :
  forall acc,
    fold_left (fun categoryScores '(category_, categoryWords) =>
                 let score := categoryScore categoryWords kws in
                 if Qltb 0 score then categoryScores ++ [(category_, score)]
                 else categoryScores)
              cats acc
    = acc ++ omap (fun '(category_, categoryWords) =>
                     let score := categoryScore categoryWords kws in
                     if Qltb 0 score then Some (category_, score) else None)
                  cats.
Proof.
  induction cats as [| [c cw] cats IH]; intros acc; simpl.
  - now rewrite app_nil_r.
  - rewrite IH.
    destruct (Qltb 0 (categoryScore cw kws)) eqn:E.
    + simpl. rewrite <- app_assoc. reflexivity.
    + reflexivity.
Qed.







(** *** Primary and secondary topics *)

Lemma keywords_of_slice (P : Keyword -> Prop) `{forall k, Decision (P k)}
      (a b : nat) (kws : list Keyword) (t : string) :
  (b <= 15)%nat ->
  t ∈ map word (filter P (slice a b kws)) -> t ∈ map word (slice 0 15 kws).
Proof.
  intros Hb Ht.
  apply list_elem_of_In, in_map_iff in Ht as (k & <- & Hk).
  apply list_elem_of_In, list_elem_of_filter in Hk as [_ Hk].
  apply list_elem_of_In, in_map, list_elem_of_In.
  now apply (slice_within a b 15).
Qed.

(** C8: every primary and every secondary topic is the word of one of
    the returned keywords or one of the returned categories, and no
    secondary topic is also primary. *)
Theorem topics_come_from_keywords_and_categories (this : Extractor) (text : string)
        (words : list string) :
  let r := extract this text words in
  (forall t, t ∈ primary r -> t ∈ map word (keywords r) \/ t ∈ categories r)
  /\ (forall t, t ∈ secondary r -> t ∈ map word (keywords r) \/ t ∈ categories r)
  /\ (forall t, t ∈ secondary r -> t ∉ primary r).
Proof.
  cbv zeta. unfold extract, extractTopicHierarchy. simpl.
  set (kws := calculateRelevanceScores this (calculateWordFrequencies this words) text).
  set (cats := map fst (categorizeTopics this kws)).
  split; [| split].
  - intros t Ht. apply (proj1 (fromSet_elem _ _)) in Ht.
    apply elem_of_app in Ht as [Ht | Ht].
    + left. refine (keywords_of_slice _ 0 5 kws t _ Ht). lia.
    + right. refine (slice_within 0 2 5 cats _ t Ht). lia.
  - intros t Ht. apply list_elem_of_filter in Ht as [_ Ht].
    apply (proj1 (fromSet_elem _ _)) in Ht.
    apply elem_of_app in Ht as [Ht | Ht].
    + left. refine (keywords_of_slice _ 5 10 kws t _ Ht). lia.
    + right. refine (slice_within 2 4 5 cats _ t Ht). lia.
  - intros t Ht. apply list_elem_of_filter in Ht as [Ht _].
    now apply arrIncludes_false.
Qed.

Lemma topics_come_from_keywords_and_categories_witness :
  "relationships" ∈ categories (extract new repeatedText repeatedWords)
  /\ "relationships" ∉ primary (extract new repeatedText repeatedWords).
Proof.
  destruct (topics_come_from_keywords_and_categories new repeatedText repeatedWords)
    as (_ & H2 & H3).
  assert (Hs : "relationships" ∈ secondary (extract new repeatedText repeatedWords)).
  { vm_compute. left. }
  split; [| exact (H3 _ Hs)].
  destruct (H2 _ Hs) as [Hk | Hc]; [| exact Hc].
  exfalso. revert Hk. vm_compute. intros Hk.
  repeat (apply elem_of_cons in Hk as [Hk | Hk]; [discriminate Hk |]).
  inversion Hk.
Defined.

End TopicProofs.

(* ================================================================== *)
(** ** The orchestrator                                                *)
(* ================================================================== *)
Module PipelineProofs.
Import JS Reference OfflineNLP.

Section Stages.
Variable this : Engine.
Variable clock : Clock.
Variable options : option Options.
Variables (processedText_ : string) (sentences words : list string).

Local Abbreviation stages := (stagesOf this options processedText_ sentences words).

(** The [try] block runs the four stages and then finishes. *)
Lemma tryBlock_runStages (fr : Frame) :
  tryBlock this clock options processedText_ sentences words fr
  = match runStages stages fr with
    | (Normal _, fr') =>
        (assign (setProcessingTime (endNow clock - startNow clock));;
         log (LogComplete (endNow clock - startNow clock));;
         log LogOnDevice;;
         readResult) fr'
    | (Throw e, fr') => (Throw e, fr')
    | (Diverge, fr') => (Diverge, fr')
    end.
Proof.
  unfold tryBlock, stagesOf, runStages, mbind, M_bind.
  destruct (sentimentStage this options processedText_ words fr) as [[[] | e |] fr1];
    try reflexivity.
  destruct (actionStage this options processedText_ sentences fr1) as [[[] | e |] fr2];
    try reflexivity.
  destruct (topicStage this options processedText_ words fr2) as [[[] | e |] fr3];
    try reflexivity.
  destruct (insightStage this options fr3) as [[[] | e |] fr4]; reflexivity.
Qed.

Lemma runStages_stops (l : list (M unit)) :
  forall k fr fr1 fr2 stage e,
    runStages (firstn k l) fr = (Normal tt, fr1) ->
    l !! k = Some stage ->
    stage fr1 = (Throw e, fr2) ->
    runStages l fr = (Throw e, fr2).
Proof.
  induction l as [| st l IH]; intros k fr fr1 fr2 stage e Hpre Hk Hthrow.
  - destruct k; discriminate.
  - destruct k as [| k]; simpl in *.
    + injection Hpre as <-. injection Hk as <-. now rewrite Hthrow.
    + destruct (st fr) as [[[] | e' |] fr']; try discriminate.
      now apply (IH k fr' fr1 fr2 stage e).
Qed.

Lemma marker_inj (i j : nat) :
  (i <= 3)%nat -> (j <= 3)%nat -> marker i = marker j -> i = j.
Proof.
  intros Hi Hj.
  destruct i as [| [| [| [| i]]]], j as [| [| [| [| j]]]]; simpl;
    try lia; try discriminate; reflexivity.
Qed.

Lemma untouched_keep (k i : nat) (fr fr' : Frame) :
  (i < k)%nat ->
  untouchedFrom k fr ->
  ((k <= 0)%nat -> sentiment (result fr') = sentiment (result fr)) ->
  ((k <= 1)%nat -> actionItems (result fr') = actionItems (result fr)) ->
  ((k <= 2)%nat -> topics (result fr') = topics (result fr)) ->
  ((k <= 3)%nat -> insights (result fr') = insights (result fr)) ->
  (console fr' = console fr \/ console fr' = console fr ++ [marker i]) ->
  untouchedFrom k fr'.
Proof.
  intros Hik (H0 & H1 & H2 & H3 & Hm) E0 E1 E2 E3 Hc.
  split; [| split; [| split; [| split]]].
  - intros Hk. rewrite (E0 Hk). now apply H0.
  - intros Hk. rewrite (E1 Hk). now apply H1.
  - intros Hk. rewrite (E2 Hk). now apply H2.
  - intros Hk. rewrite (E3 Hk). now apply H3.
  - intros j Hj. destruct Hc as [-> | ->]; [now apply Hm |].
    intros Hin. apply elem_of_app in Hin as [Hin | Hin]; [now apply (Hm j) |].
    apply list_elem_of_singleton in Hin.
    apply marker_inj in Hin; lia.
Qed.

(** What a stage does to the frame: a stage that completes leaves the
    sections and markers of later stages alone; a stage that throws
    has only announced itself. *)
Lemma stage_effect (i : nat) (stage : M unit) (fr fr' : Frame) (c : completion unit) :
  stages !! i = Some stage ->
  stage fr = (c, fr') ->
  (forall k, (i < k)%nat -> untouchedFrom k fr -> untouchedFrom k fr')
  /\ (forall e, c = Throw e ->
                result fr' = result fr /\ console fr' = console fr ++ [marker i]).
Proof.
  intros Hi Hrun.
  destruct i as [| [| [| [| i]]]]; simpl in Hi; try discriminate;
    injection Hi as <-.
  - unfold sentimentStage in Hrun.
    destruct (negb (flag options skipSentiment)).
    + unfold mbind, M_bind, log, await, assign in Hrun. simpl in Hrun.
      destruct (analyzeSentiment this processedText_ words) as [v | e' |];
        injection Hrun as <- <-;
        (split; [intros k Hk Hu;
                 apply (untouched_keep k 0 fr); simpl; auto; intros; lia
                | intros e He; try discriminate He; now split]).
    + injection Hrun as <- <-.
      split; [intros k Hk Hu; exact Hu | discriminate].
  - unfold actionStage in Hrun.
    destruct (negb (flag options skipActionItems)).
    + unfold mbind, M_bind, log, await, assign in Hrun. simpl in Hrun.
      destruct (detectActionItems this processedText_ sentences) as [v | e' |];
        injection Hrun as <- <-;
        (split; [intros k Hk Hu;
                 apply (untouched_keep k 1 fr); simpl; auto; intros; lia
                | intros e He; try discriminate He; now split]).
    + injection Hrun as <- <-.
      split; [intros k Hk Hu; exact Hu | discriminate].
  - unfold topicStage in Hrun.
    destruct (negb (flag options skipTopics)).
    + unfold mbind, M_bind, log, await, assign in Hrun. simpl in Hrun.
      destruct (extractTopics this processedText_ words) as [v | e' |];
        injection Hrun as <- <-;
        (split; [intros k Hk Hu;
                 apply (untouched_keep k 2 fr); simpl; auto; intros; lia
                | intros e He; try discriminate He; now split]).
    + injection Hrun as <- <-.
      split; [intros k Hk Hu; exact Hu | discriminate].
  - unfold insightStage in Hrun.
    destruct (negb (flag options skipInsights)).
    + unfold mbind, M_bind, log, await, assign, readResult in Hrun. simpl in Hrun.
      destruct (generateInsights this (result fr)) as [v | e' |];
        injection Hrun as <- <-;
        (split; [intros k Hk Hu;
                 apply (untouched_keep k 3 fr); simpl; auto; intros; lia
                | intros e He; try discriminate He; now split]).
    + injection Hrun as <- <-.
      split; [intros k Hk Hu; exact Hu | discriminate].
Qed.
End Stages.

Lemma runStages_untouched (this : Engine) (options : option Options)
      (processedText_ : string) (sentences words : list string)
      (l : list (M unit)) :
  forall offset n fr fr1 k,
    (forall i st, l !! i = Some st ->
                  stagesOf this options processedText_ sentences words !! (offset + i)%nat
                  = Some st) ->
    runStages (firstn n l) fr = (Normal tt, fr1) ->
    (offset + n <= k)%nat ->
    untouchedFrom k fr -> untouchedFrom k fr1.
Proof.
  induction l as [| st l IH]; intros offset n fr fr1 k Hl Hrun Hk Hu.
  - rewrite firstn_nil in Hrun. now injection Hrun as <-.
  - destruct n as [| n]; simpl in Hrun; [now injection Hrun as <- |].
    destruct (st fr) as [[[] | e |] fr'] eqn:Est; try discriminate.
    apply (IH (S offset) n fr' fr1 k).
    + intros i st' Hi.
      replace (S offset + i)%nat with (offset + S i)%nat by lia.
      apply Hl. exact Hi.
    + exact Hrun.
    + lia.
    + assert (Hst : stagesOf this options processedText_ sentences words !! offset
                    = Some st).
      { rewrite <- (Nat.add_0_r offset). now apply Hl. }
      destruct (stage_effect this options _ _ _ offset st fr fr' _ Hst Est) as [Hkeep _].
      apply Hkeep; [lia | exact Hu].
Qed.

Lemma initialFrame_untouched (this : Engine) (clock : Clock) (options : option Options)
      (text processedText_ : string) (sentences words : list string) (k : nat) :
  untouchedFrom k (initialFrame this clock options text processedText_ sentences words).
Proof.
  repeat split; try reflexivity.
  intros j Hj Hin. simpl in Hin.
  apply list_elem_of_singleton in Hin.
  destruct j as [| [| [| j]]]; discriminate.
Qed.

(** C1, as stated, on an engine whose sentiment stage throws: the
    exception is caught, but the action-item and topic stages are not
    run (the console shows neither) and their sections stay at the
    defaults, although action detection on this text returns items. *)
Lemma failing_sentiment_skips_later_stages :
  analyzeSentiment failingSentimentEngine sampleTranscript sampleWords = Throw "TypeError"
  /\ detectActionItems failingSentimentEngine sampleTranscript sampleSentences
     = Normal sampleDetection
  /\ ActionPatterns.items sampleDetection <> []
  /\ exists r,
       processText failingSentimentEngine sampleClock None sampleTranscript
       = (Normal r, [LogProcessing 71; LogSentiment; LogError "TypeError"])
       /\ actionItems r = defaultActionItems
       /\ topics r = defaultTopics.
Proof.
  split; [reflexivity |]. split; [vm_compute; reflexivity |].
  split; [discriminate |].
  eexists. split; [vm_compute; reflexivity |]. split; reflexivity.
Qed.

(** C1 (amended): when the stage at position [k] throws after the
    stages before it have completed, the call still returns a result:
    the sections of the completed stages keep their values, the section
    of the failing stage and the sections of all later stages hold
    their defaults, the later stages are not run, the recommendations
    are the fallback text and the elapsed time is recorded. *)
Theorem failing_stage_is_caught (this : Engine) (clock : Clock)
        (options : option Options) (text processedText_ : string)
        (sentences words : list string) (k : nat) (stage : M unit)
        (fr1 fr2 : Frame) (e : string) :
  preprocess this text = Normal (processedText_, sentences, words) ->
  runStages (firstn k (stagesOf this options processedText_ sentences words))
            (initialFrame this clock options text processedText_ sentences words)
  = (Normal tt, fr1) ->
  stagesOf this options processedText_ sentences words !! k = Some stage ->
  stage fr1 = (Throw e, fr2) ->
  exists r,
    processText this clock options text
    = (Normal r, console fr1 ++ [marker k; LogError e])
    /\ sentiment r = sentiment (result fr1)
    /\ actionItems r = actionItems (result fr1)
    /\ topics r = topics (result fr1)
    /\ ((k <= 0)%nat -> sentiment r = defaultSentiment)
    /\ ((k <= 1)%nat -> actionItems r = defaultActionItems)
    /\ ((k <= 2)%nat -> topics r = defaultTopics)
    /\ insights r = fallbackInsights
    /\ processingTime r = endNow clock - startNow clock
    /\ (forall j, (k < j <= 3)%nat -> marker j ∉ console fr1 ++ [marker k; LogError e]).
Proof.
  intros Hpre Hprefix Hk Hthrow.
  assert (Hk3 : (k <= 3)%nat).
  { apply lookup_lt_Some in Hk. simpl in Hk. lia. }
  pose proof (runStages_stops _ _ _ _ _ _ _ Hprefix Hk Hthrow) as Hrun.
  destruct (stage_effect this options _ _ _ k stage fr1 fr2 _ Hk Hthrow) as [_ Hfail].
  destruct (Hfail e eq_refl) as [Hres Hcon].
  assert (Hu : untouchedFrom k fr1).
  { apply (runStages_untouched this options processedText_ sentences words _
                               0 k _ _ k (fun i st H => H) Hprefix (le_n k)).
    apply initialFrame_untouched. }
  destruct Hu as (H0 & H1 & H2 & H3 & Hm).
  exists (setRecommendations fallbackRecommendations
            (setProcessingTime (endNow clock - startNow clock) (result fr1))).
  split; [| repeat split; try reflexivity].
  - unfold processText. rewrite Hpre. unfold tryCatch.
    rewrite tryBlock_runStages.
    change {| result := initialResult clock options text processedText_ sentences words;
              console := [LogProcessing (strlen text)] |}
      with (initialFrame this clock options text processedText_ sentences words).
    rewrite Hrun. unfold catchBlock, mbind, M_bind, log, assign, readResult. simpl.
    rewrite Hres, Hcon, <- app_assoc. reflexivity.
  - exact H0.
  - exact H1.
  - exact H2.
  - unfold setRecommendations, fallbackInsights. simpl. now rewrite (H3 Hk3).
  - intros j Hj Hin.
    apply elem_of_app in Hin as [Hin | Hin]; [apply (Hm j); [lia | exact Hin] |].
    apply elem_of_cons in Hin as [Hin | Hin].
    + apply marker_inj in Hin; lia.
    + apply list_elem_of_singleton in Hin. destruct j as [| [| [| j]]]; discriminate.
Qed.

Lemma failing_stage_is_caught_witness :
  exists r,
    processText failingSentimentEngine sampleClock None sampleTranscript
    = (Normal r, [LogProcessing 71; LogSentiment; LogError "TypeError"])
    /\ sentiment r = defaultSentiment
    /\ actionItems r = defaultActionItems
    /\ topics r = defaultTopics
    /\ insights r = fallbackInsights.
Proof.
  destruct (failing_stage_is_caught
              failingSentimentEngine sampleClock None sampleTranscript sampleTranscript
              sampleSentences sampleWords 0
              (sentimentStage failingSentimentEngine None sampleTranscript sampleWords)
              (initialFrame failingSentimentEngine sampleClock None sampleTranscript
                            sampleTranscript sampleSentences sampleWords)
              {| result := initialResult sampleClock None sampleTranscript
                                         sampleTranscript sampleSentences sampleWords;
                 console := [LogProcessing 71; LogSentiment] |}
              "TypeError")
    as (r & Hp & _ & _ & _ & Hs & Ha & Ht & Hi & _).
  - vm_compute. reflexivity.
  - reflexivity.
  - reflexivity.
  - reflexivity.
  - exists r. split; [exact Hp |].
    split; [apply Hs; lia |]. split; [apply Ha; lia |]. split; [apply Ht; lia | exact Hi].
Defined.

(** *** Empty input *)

Lemma empty_stages :
  (let s := SentimentDictionary.analyze SentimentDictionary.dict "" [] in
   SentimentDictionary.label s = SentimentDictionary.Neutral
   /\ (SentimentDictionary.score s == 0)%Q
   /\ (SentimentDictionary.confidence s == 0)%Q)
  /\ ActionPatterns.detect ActionPatterns.initializePatterns "" [] = Normal defaultActionItems
  /\ TopicExtractor.extract TopicExtractor.new "" [] = defaultTopics
  /\ Math_max_spread
       (map (fun e => ofNat (snd e))
            (TopicExtractor.calculateWordFrequencies TopicExtractor.new []))
     = NegInfinity.
Proof.
  split; [vm_compute; repeat split; reflexivity |].
  split; [vm_compute; reflexivity |].
  split; vm_compute; reflexivity.
Qed.

(** C9: on the empty string the call returns normally with zero words,
    a neutral sentiment of score and confidence 0, no action item and no
    primary topic; topic extraction over no token completes although
    the maximum frequency is that of an empty collection. *)
Theorem empty_input_is_analyzed (tp : TextPreprocessor)
        (generate : NLPResult -> completion Insights)
        (clock : Clock) (options : option Options) :
  emptyInputYieldsEmptySequences tp ->
  (forall r, generate r <> Diverge) ->
  exists r log_,
    processText (construct tp generate) clock options "" = (Normal r, log_)
    /\ wordCount r = 0%nat
    /\ sentenceCount r = 0%nat
    /\ SentimentDictionary.label (sentiment r) = SentimentDictionary.Neutral
    /\ (SentimentDictionary.score (sentiment r) == 0)%Q
    /\ (SentimentDictionary.confidence (sentiment r) == 0)%Q
    /\ ActionPatterns.totalCount (actionItems r) = 0%nat
    /\ TopicExtractor.primary (topics r) = []
    /\ TopicExtractor.extract TopicExtractor.new "" [] = defaultTopics
    /\ Math_max_spread
         (map (fun e => ofNat (snd e))
              (TopicExtractor.calculateWordFrequencies TopicExtractor.new []))
       = NegInfinity.
Proof.
  intros (Hclean & Hsplit & Htok) Hgen.
  destruct empty_stages as ((Hl & Hs & Hc) & Hdet & Hext & Hmax).
  unfold processText, preprocess. simpl textPreprocessor.
  rewrite Hclean. simpl. rewrite Hsplit. simpl. rewrite Htok. simpl.
  unfold tryCatch. rewrite tryBlock_runStages.
  unfold stagesOf, runStages.
  unfold sentimentStage, actionStage, topicStage, insightStage.
  unfold construct.
  cbn [analyzeSentiment detectActionItems extractTopics generateInsights].
  rewrite Hdet, Hext.
  set (s := SentimentDictionary.analyze SentimentDictionary.dict "" []) in *.
  clearbody s.
  destruct (flag options skipSentiment), (flag options skipActionItems),
    (flag options skipTopics), (flag options skipInsights);
    unfold mbind, M_bind, mret, M_ret, log, await, assign, readResult, catchBlock;
    simpl;
    try (eexists; eexists; split; [reflexivity |];
         repeat split; try reflexivity; assumption);
    match goal with
    | |- context [generate ?x] =>
        pose proof (Hgen x) as Hg; destruct (generate x) as [v | err |];
        [| | contradiction];
        simpl;
        (eexists; eexists; split; [reflexivity |];
         repeat split; try reflexivity; assumption)
    end.
Qed.

Lemma empty_input_is_analyzed_witness :
  exists r log_,
    processText (construct simplePreprocessor simpleInsights) sampleClock None ""
    = (Normal r, log_)
    /\ wordCount r = 0%nat
    /\ sentenceCount r = 0%nat
    /\ SentimentDictionary.label (sentiment r) = SentimentDictionary.Neutral
    /\ (SentimentDictionary.score (sentiment r) == 0)%Q
    /\ (SentimentDictionary.confidence (sentiment r) == 0)%Q
    /\ ActionPatterns.totalCount (actionItems r) = 0%nat
    /\ TopicExtractor.primary (topics r) = []
    /\ TopicExtractor.extract TopicExtractor.new "" [] = defaultTopics
    /\ Math_max_spread
         (map (fun e => ofNat (snd e))
              (TopicExtractor.calculateWordFrequencies TopicExtractor.new []))
       = NegInfinity.
Proof.
  apply (empty_input_is_analyzed simplePreprocessor simpleInsights sampleClock None).
  - repeat split; reflexivity.
  - intros r. discriminate.
Defined.

End PipelineProofs.

(* ================================================================== *)
(** * Further facts about the runtime operations                       *)
(* ================================================================== *)

Module JSMore.
Import JS JSFacts.
Local Open Scope Q_scope.

Lemma Math_min_pos (a b : Q) : 0 < a -> 0 < b -> 0 < Math_min a b.
Proof. intros Ha Hb. unfold Math_min. now destruct (Qle_bool a b). Qed.

Lemma Math_max_pos_l (a b : Q) : 0 < a -> 0 < Math_max a b.
Proof. intros Ha. apply Qlt_le_trans with a; [exact Ha | apply Math_max_l]. Qed.


Lemma ofNat_S (n : nat) : ofNat (S n) == ofNat n + 1.
Proof. unfold ofNat. rewrite Nat2Z.inj_succ, <- Z.add_1_r, inject_Z_plus. reflexivity. Qed.

Lemma fold_left_permutation {A B : Type} (f : A -> B -> A) (l l' : list B) :
  (forall a x y, f (f a x) y = f (f a y) x) ->
  l ≡ₚ l' -> forall a, fold_left f l a = fold_left f l' a.
Proof.
  intros Hf HP. induction HP; intros a; simpl.
  - reflexivity.
  - apply IHHP.
  - now rewrite Hf.
  - now rewrite IHHP1.
Qed.

(** [map.get] after [map.set] *)
Lemma mapGet_mapSet_same {V : Type} (k : string) (v : V) (m : list (string * V)) :
  mapGet k (mapSet k v m) = Some v.
Proof.
  induction m as [| [k' v'] m IH]; simpl.
  - now rewrite String.eqb_refl.
  - destruct (String.eqb k' k) eqn:E; simpl; rewrite E; [reflexivity | exact IH].
Qed.

Lemma mapGet_mapSet_other {V : Type} (k k' : string) (v : V) (m : list (string * V)) :
  k' <> k -> mapGet k' (mapSet k v m) = mapGet k' m.
Proof.
  intros Hne. induction m as [| [k0 v0] m IH]; simpl.
  - destruct (String.eqb k k') eqn:E; [| reflexivity].
    apply String.eqb_eq in E. congruence.
  - destruct (String.eqb k0 k) eqn:E; simpl.
    + apply String.eqb_eq in E. subst k0.
      destruct (String.eqb k k') eqn:E'; [| reflexivity].
      apply String.eqb_eq in E'. congruence.
    + destruct (String.eqb k0 k'); [reflexivity | exact IH].
Qed.

(** *** Rounding to two decimals *)




(** *** Arrays and ordered maps *)

Lemma fromSet_length (xs : list string) : (length (fromSet xs) <= length xs)%nat.
Proof.
  apply submseteq_length, NoDup_submseteq; [apply ArrayFacts.fromSet_NoDup |].
  intros x Hx. now apply ArrayFacts.fromSet_elem.
Qed.


Lemma mapSet_keys {V : Type} (k : string) (v : V) (m : list (string * V)) :
  map fst (mapSet k v m)
  = if bool_decide (k ∈ map fst m) then map fst m else map fst m ++ [k].
Proof.
  induction m as [| [k' v'] m IH]; simpl; [reflexivity |].
  destruct (String.eqb k' k) eqn:E; simpl.
  - apply String.eqb_eq in E. subst k'.
    rewrite bool_decide_eq_true_2; [reflexivity | left].
  - rewrite IH. apply String.eqb_neq in E.
    destruct (bool_decide (k ∈ map fst m)) eqn:B.
    + apply bool_decide_eq_true_1 in B.
      rewrite bool_decide_eq_true_2; [reflexivity | now right].
    + apply bool_decide_eq_false_1 in B.
      rewrite bool_decide_eq_false_2; [reflexivity |].
      intros H. apply elem_of_cons in H as [H | H]; [congruence | contradiction].
Qed.

Lemma mapSet_mapSet {V : Type} (k : string) (v v' : V) (m : list (string * V)) :
  mapSet k v' (mapSet k v m) = mapSet k v' m.
Proof.
  induction m as [| [k0 v0] m IH]; simpl.
  - now rewrite String.eqb_refl.
  - destruct (String.eqb k0 k) eqn:E; simpl; rewrite E; [reflexivity | now rewrite IH].
Qed.

Lemma mapSet_elem {V : Type} (k : string) (v : V) (m : list (string * V)) :
  (k, v) ∈ mapSet k v m.
Proof.
  induction m as [| [k' v'] m IH]; simpl; [left |].
  destruct (String.eqb_spec k' k) as [-> | Hne]; [left | now right].
Qed.

Lemma mapSet_length {V : Type} (k : string) (v : V) (m : list (string * V)) :
  length (mapSet k v m)
  = if bool_decide (k ∈ map fst m) then length m else S (length m).
Proof.
  rewrite <- (length_map fst (mapSet k v m)), mapSet_keys.
  destruct (bool_decide (k ∈ map fst m)).
  - apply length_map.
  - rewrite length_app, length_map. simpl. lia.
Qed.

(** *** Strings *)

Lemma append_assoc (s t u : string) : (s +:+ t) +:+ u = s +:+ (t +:+ u).
Proof.
  induction s as [| c s IH]; [reflexivity |].
  change (String c ((s +:+ t) +:+ u) = String c (s +:+ (t +:+ u))). now rewrite IH.
Qed.

Lemma append_nil_r (s : string) : s +:+ "" = s.
Proof.
  induction s as [| c s IH]; [reflexivity |].
  change (String c (s +:+ "") = String c s). now rewrite IH.
Qed.

End JSMore.

(* ================================================================== *)
(** ** Sentiment analysis: further properties                          *)
(* ================================================================== *)
Module SentimentExtra.
Import JS JSFacts RegExpFacts SentimentDictionary SentimentProofs Reference.
Local Open Scope Q_scope.

Lemma toLowerCase_idempotent (s : string) : toLowerCase (toLowerCase s) = toLowerCase s.
Proof. apply toLowerCase_fixed, toLowerCase_units. Qed.

(** X1: The analysis sees the tokens in lower case only, and never looks at
    the text argument. *)
Theorem analyze_ignores_case_and_text (this : Dictionaries) (text text' : string)
        (words : list string) :
  analyze this text' (map toLowerCase words) = analyze this text words.
Proof.
  unfold analyze. rewrite length_map, map_map.
  rewrite (map_ext (fun w => toLowerCase (toLowerCase w)) toLowerCase
                   toLowerCase_idempotent).
  reflexivity.
Qed.

(** *** The loop, token by token *)

Section Loop.
Variable this : Dictionaries.
Variable lowerWords : list string.

Lemma loop_invariant (P : LoopState -> Prop) :
  P initialState ->
  (forall st i, (i < length lowerWords)%nat -> P st -> P (step this lowerWords st i)) ->
  P (loop this lowerWords).
Proof.
  intros H0 Hstep. unfold loop.
  assert (H : forall l st, Forall (fun i => (i < length lowerWords)%nat) l -> P st ->
                           P (fold_left (step this lowerWords) l st)).
  { induction l as [| i l IH]; intros st Hl Hst; simpl; [exact Hst |].
    inversion Hl; subst. apply IH; [assumption |]. now apply Hstep. }
  apply H; [| exact H0].
  apply Forall_forall. intros i Hi. apply list_elem_of_In, in_seq in Hi. lia.
Qed.

Lemma step_class (st : LoopState) (i : nat) :
  let w := at_ lowerWords i in
  match classify this w with
  | IsIntensifier =>
      bd (step this lowerWords st i) = pushIntensifier w (bd st)
      /\ totalScore (step this lowerWords st i) = totalScore st
      /\ sentimentWords (step this lowerWords st i) = sentimentWords st
  | IsNegator =>
      bd (step this lowerWords st i) = pushNegator w (bd st)
      /\ totalScore (step this lowerWords st i) = totalScore st
      /\ sentimentWords (step this lowerWords st i) = sentimentWords st
  | IsPositive =>
      bd (step this lowerWords st i) = pushPositive w (bd st)
      /\ sentimentWords (step this lowerWords st i) = S (sentimentWords st)
  | IsNegative =>
      bd (step this lowerWords st i) = pushNegative w (bd st)
      /\ sentimentWords (step this lowerWords st i) = S (sentimentWords st)
  | IsOther =>
      step this lowerWords st i = st
  end.
Proof.
  cbv zeta. unfold classify, step, baseScore.
  destruct (has (intensifiers this) (at_ lowerWords i)); [now repeat split |].
  destruct (has (negators this) (at_ lowerWords i)); [now repeat split |].
  destruct (has (positiveWords this) (at_ lowerWords i)).
  - rewrite getOr_nonzero by discriminate. simpl. now split.
  - destruct (has (negativeWords this) (at_ lowerWords i)).
    + rewrite getOr_nonzero by discriminate. simpl. now split.
    + simpl. now destruct st.
Qed.
End Loop.

(** *** The breakdown lists *)

Section Breakdown.
Variable this : Dictionaries.

Lemma ofClass_snoc (c : WordClass) (l : list string) (x : string) :
  ofClass this c (l ++ [x])
  = ofClass this c l ++ (if sameClass (classify this x) c then [x] else []).
Proof.
  unfold ofClass. rewrite filter_app. f_equal.
  rewrite filter_cons, filter_nil.
  destruct (decide (sameClass (classify this x) c = true)) as [E | E].
  - now rewrite E.
  - now destruct (sameClass (classify this x) c).
Qed.

Lemma at_lookup (l : list string) (k : nat) (x : string) :
  l !! k = Some x -> at_ l k = x.
Proof. intros H. unfold at_. now rewrite nth_lookup, H. Qed.

(** After [k] iterations the lists hold the first [k] tokens by class,
    the counter counts the positive and negative ones, and nothing has
    been accumulated as long as the counter is zero. *)
Lemma prefix_state (lowerWords : list string) (k : nat) :
  (k <= length lowerWords)%nat ->
  let st := fold_left (step this lowerWords) (seq 0 k) initialState in
  intensifiersFound (bd st) = ofClass this IsIntensifier (take k lowerWords)
  /\ negatorsFound (bd st) = ofClass this IsNegator (take k lowerWords)
  /\ positiveWordsFound (bd st) = ofClass this IsPositive (take k lowerWords)
  /\ negativeWordsFound (bd st) = ofClass this IsNegative (take k lowerWords)
  /\ sentimentWords st
     = (length (positiveWordsFound (bd st)) + length (negativeWordsFound (bd st)))%nat
  /\ (sentimentWords st = 0%nat -> totalScore st = 0).
Proof.
  induction k as [| k IH]; intros Hk; cbv zeta.
  - simpl. rewrite take_0. repeat split; reflexivity.
  - destruct (lookup_lt_is_Some_2 lowerWords k) as [x Hx]; [lia |].
    rewrite seq_S, fold_left_app, (take_S_r _ _ _ Hx). simpl fold_left.
    rewrite !ofClass_snoc.
    destruct (IH (ltac:(lia))) as (Hi & Hn & Hp & Hg & Hc & Hz).
    set (st := fold_left (step this lowerWords) (seq 0 k) initialState) in *.
    pose proof (step_class this lowerWords st k) as Hs. cbv zeta in Hs.
    rewrite (at_lookup _ _ _ Hx) in Hs.
    destruct (classify this x); simpl sameClass; rewrite ?app_nil_r.
    + destruct Hs as (Hb & Ht & Hw). rewrite Hb, Ht, Hw. simpl.
      rewrite Hi. repeat split; assumption.
    + destruct Hs as (Hb & Ht & Hw). rewrite Hb, Ht, Hw. simpl.
      rewrite Hn. repeat split; assumption.
    + destruct Hs as (Hb & Hw). rewrite Hb, Hw. simpl.
      rewrite Hp, length_app. simpl.
      repeat split; try assumption; [| discriminate].
      rewrite Hc, Hp. lia.
    + destruct Hs as (Hb & Hw). rewrite Hb, Hw. simpl.
      rewrite Hg, length_app. simpl.
      repeat split; try assumption; [| discriminate].
      rewrite Hc, Hg. lia.
    + rewrite Hs. repeat split; assumption.
Qed.

Lemma loop_state (lowerWords : list string) :
  let st := loop this lowerWords in
  intensifiersFound (bd st) = ofClass this IsIntensifier lowerWords
  /\ negatorsFound (bd st) = ofClass this IsNegator lowerWords
  /\ positiveWordsFound (bd st) = ofClass this IsPositive lowerWords
  /\ negativeWordsFound (bd st) = ofClass this IsNegative lowerWords
  /\ sentimentWords st
     = (length (positiveWordsFound (bd st)) + length (negativeWordsFound (bd st)))%nat
  /\ (sentimentWords st = 0%nat -> totalScore st = 0).
Proof.
  pose proof (prefix_state lowerWords (length lowerWords) (le_n _)) as H.
  cbv zeta in H. rewrite firstn_all in H. exact H.
Qed.

(** X2: The four breakdown lists are the lower-cased tokens, in order, sorted
    into classes: intensifier before negator before positive before
    negative vocabulary.  So no token is listed twice, and a token listed
    as positive or negative is neither an intensifier nor a negator. *)
Theorem breakdown_lists_by_class (text : string) (words : list string) :
  let b := breakdown (analyze this text words) in
  let lowerWords := map toLowerCase words in
  intensifiersFound b = ofClass this IsIntensifier lowerWords
  /\ negatorsFound b = ofClass this IsNegator lowerWords
  /\ positiveWordsFound b = ofClass this IsPositive lowerWords
  /\ negativeWordsFound b = ofClass this IsNegative lowerWords.
Proof.
  cbv zeta. unfold analyze. simpl breakdown.
  destruct (loop_state (map toLowerCase words)) as (Hi & Hn & Hp & Hg & _).
  repeat split; assumption.
Qed.

(** X3: When the analysis lists no positive and no negative word, the score
    and the confidence are 0 and the label is neutral. *)
Theorem no_sentiment_word_is_neutral (text : string) (words : list string) :
  positiveWordsFound (breakdown (analyze this text words)) = [] ->
  negativeWordsFound (breakdown (analyze this text words)) = [] ->
  score (analyze this text words) == 0
  /\ confidence (analyze this text words) == 0
  /\ label (analyze this text words) = Neutral.
Proof.
  unfold analyze. simpl. intros Hp Hg.
  destruct (loop_state (map toLowerCase words)) as (_ & _ & _ & _ & Hc & Hz).
  rewrite Hp, Hg in Hc. simpl in Hc. specialize (Hz Hc).
  set (st := loop this (map toLowerCase words)) in *.
  assert (Hnorm : normalizedScore st = 0).
  { unfold normalizedScore, averageScore. rewrite Hc. reflexivity. }
  assert (Hconf : rawConfidence (length words) st == 0).
  { unfold rawConfidence. rewrite Hc. simpl.
    assert (Hd : ofNat 0 / Math_max 1 (ofNat (length words)) * 2 + 0 * (5 # 10) == 0).
    { unfold ofNat. simpl. unfold Qdiv. ring. }
    unfold Math_min.
    destruct (Qle_bool (95 # 100)
                (ofNat 0 / Math_max 1 (ofNat (length words)) * 2 + 0 * (5 # 10))) eqn:E.
    - apply Qle_bool_iff in E. rewrite Hd in E. lra.
    - exact Hd. }
  rewrite Hnorm. split; [reflexivity |]. split; [| reflexivity].
  apply Qle_antisym.
  - apply (toFixed3_between 0 0); [reflexivity | reflexivity |].
    rewrite Hconf. split; apply Qle_refl.
  - apply (toFixed3_between 0 0); [reflexivity | reflexivity |].
    rewrite Hconf. split; apply Qle_refl.
Qed.
End Breakdown.

Lemma no_sentiment_word_is_neutral_witness :
  score (analyze dict "" ["the"; "very"; "not"; "table"]) == 0
  /\ confidence (analyze dict "" ["the"; "very"; "not"; "table"]) == 0
  /\ label (analyze dict "" ["the"; "very"; "not"; "table"]) = Neutral.
Proof.
  apply (no_sentiment_word_is_neutral dict "" ["the"; "very"; "not"; "table"]);
    vm_compute; reflexivity.
Defined.

(** *** Texts without negators *)

Section Unnegated.
Variable this : Dictionaries.

Lemma step_scored (lowerWords : list string) (st : LoopState) (i : nat) :
  classify this (at_ lowerWords i) = IsPositive
  \/ classify this (at_ lowerWords i) = IsNegative ->
  totalScore (step this lowerWords st i)
  = totalScore st
    + (if isNegatedAt this lowerWords i
       then - dictionaryScore this (at_ lowerWords i) * (8 # 10)
       else dictionaryScore this (at_ lowerWords i))
      * intensityMultiplier this (prevWordAt lowerWords i) (nextWordAt lowerWords i).
Proof.
  unfold classify, step, baseScore, dictionaryScore.
  destruct (has (intensifiers this) (at_ lowerWords i)); [intros [H | H]; discriminate |].
  destruct (has (negators this) (at_ lowerWords i)); [intros [H | H]; discriminate |].
  destruct (has (positiveWords this) (at_ lowerWords i)).
  - intros _. rewrite getOr_nonzero by discriminate. reflexivity.
  - destruct (has (negativeWords this) (at_ lowerWords i));
      [| intros [H | H]; discriminate].
    intros _. rewrite getOr_nonzero by discriminate. reflexivity.
Qed.

Lemma intensityMultiplier_range (prevWord nextWord : string) :
  1 <= intensityMultiplier this prevWord nextWord <= 13 # 10.
Proof.
  unfold intensityMultiplier.
  destruct (has (intensifiers this) prevWord), (has (intensifiers this) nextWord);
    split; discriminate.
Qed.

Lemma at_elem (lowerWords : list string) (i : nat) :
  (i < length lowerWords)%nat -> at_ lowerWords i ∈ lowerWords.
Proof. intros H. apply list_elem_of_In. unfold at_. now apply nth_In. Qed.

Lemma not_negated (lowerWords : list string) (i : nat) :
  (i <= length lowerWords)%nat ->
  (forall w, w ∈ lowerWords -> has (negators this) w = false) ->
  isNegatedAt this lowerWords i = false.
Proof.
  intros Hi Hn. unfold isNegatedAt.
  destruct (existsb _ _) eqn:E; [| reflexivity].
  apply existsb_exists in E as (j & Hj & Hneg).
  apply in_seq in Hj. rewrite Hn in Hneg; [discriminate |].
  apply at_elem. lia.
Qed.

(** With no negator among the tokens and every scored word worth at
    least [lo] (resp. at most [- lo]), the accumulated score stays on
    that side of [lo] times the counter. *)
Lemma unnegated_positive_sum (lo : Q) (lowerWords : list string) :
  0 <= lo ->
  (forall w, has (positiveWords this) w = true -> lo <= dictionaryScore this w) ->
  (forall w, w ∈ lowerWords -> has (negators this) w = false) ->
  (forall w, w ∈ lowerWords -> classify this w <> IsNegative) ->
  lo * ofNat (sentimentWords (loop this lowerWords)) <= totalScore (loop this lowerWords).
Proof.
  intros Hlo Hscore Hneg Hcls.
  apply (loop_invariant this lowerWords
           (fun st => lo * ofNat (sentimentWords st) <= totalScore st)).
  - simpl. change (ofNat 0) with 0. lra.
  - intros st i Hi Hst.
    pose proof (step_class this lowerWords st i) as Hs. cbv zeta in Hs.
    pose proof (step_scored lowerWords st i) as Ht.
    pose proof (Hcls _ (at_elem lowerWords i Hi)) as Hc.
    destruct (classify this (at_ lowerWords i)) eqn:E.
    + destruct Hs as (_ & -> & ->). exact Hst.
    + destruct Hs as (_ & -> & ->). exact Hst.
    + destruct Hs as (_ & ->). rewrite (Ht (or_introl eq_refl)).
      rewrite (not_negated lowerWords i (Nat.lt_le_incl _ _ Hi) Hneg).
      assert (Hw : lo <= dictionaryScore this (at_ lowerWords i)).
      { apply Hscore. unfold classify in E.
        destruct (has (intensifiers this) (at_ lowerWords i)); [discriminate |].
        destruct (has (negators this) (at_ lowerWords i)); [discriminate |].
        destruct (has (positiveWords this) (at_ lowerWords i)); [reflexivity |].
        destruct (has (negativeWords this) (at_ lowerWords i)); discriminate. }
      destruct (intensityMultiplier_range (prevWordAt lowerWords i)
                                          (nextWordAt lowerWords i)) as [Hm _].
      assert (He : ofNat (S (sentimentWords st)) == ofNat (sentimentWords st) + 1).
      { unfold ofNat. rewrite Nat2Z.inj_succ, <- Z.add_1_r, inject_Z_plus. reflexivity. }
      rewrite He.
      set (m := intensityMultiplier this _ _) in *.
      set (b := dictionaryScore this _) in *.
      assert (Hbm : lo <= b * m).
      { apply Qle_trans with (b * 1); [lra |].
        apply Qmult_le_compat_nonneg; split; lra. }
      lra.
    + contradiction.
    + rewrite Hs. exact Hst.
Qed.

Lemma unnegated_negative_sum (lo : Q) (lowerWords : list string) :
  0 <= lo ->
  (forall w, has (positiveWords this) w = false -> has (negativeWords this) w = true ->
             dictionaryScore this w <= - lo) ->
  (forall w, w ∈ lowerWords -> has (negators this) w = false) ->
  (forall w, w ∈ lowerWords -> classify this w <> IsPositive) ->
  totalScore (loop this lowerWords) <= - lo * ofNat (sentimentWords (loop this lowerWords)).
Proof.
  intros Hlo Hscore Hneg Hcls.
  apply (loop_invariant this lowerWords
           (fun st => totalScore st <= - lo * ofNat (sentimentWords st))).
  - simpl. change (ofNat 0) with 0. lra.
  - intros st i Hi Hst.
    pose proof (step_class this lowerWords st i) as Hs. cbv zeta in Hs.
    pose proof (step_scored lowerWords st i) as Ht.
    pose proof (Hcls _ (at_elem lowerWords i Hi)) as Hc.
    destruct (classify this (at_ lowerWords i)) eqn:E.
    + destruct Hs as (_ & -> & ->). exact Hst.
    + destruct Hs as (_ & -> & ->). exact Hst.
    + contradiction.
    + destruct Hs as (_ & ->). rewrite (Ht (or_intror eq_refl)).
      rewrite (not_negated lowerWords i (Nat.lt_le_incl _ _ Hi) Hneg).
      assert (Hw : dictionaryScore this (at_ lowerWords i) <= - lo).
      { unfold classify in E.
        destruct (has (intensifiers this) (at_ lowerWords i)); [discriminate |].
        destruct (has (negators this) (at_ lowerWords i)); [discriminate |].
        destruct (has (positiveWords this) (at_ lowerWords i)) eqn:Ep; [discriminate |].
        destruct (has (negativeWords this) (at_ lowerWords i)) eqn:En; [| discriminate].
        now apply Hscore. }
      destruct (intensityMultiplier_range (prevWordAt lowerWords i)
                                          (nextWordAt lowerWords i)) as [Hm _].
      assert (He : ofNat (S (sentimentWords st)) == ofNat (sentimentWords st) + 1).
      { unfold ofNat. rewrite Nat2Z.inj_succ, <- Z.add_1_r, inject_Z_plus. reflexivity. }
      rewrite He.
      set (m := intensityMultiplier this _ _) in *.
      set (b := dictionaryScore this _) in *.
      assert (Hbm : b * m <= - lo).
      { assert (H' : lo <= (- b) * m).
        { apply Qle_trans with ((- b) * 1); [lra |].
          apply Qmult_le_compat_nonneg; split; lra. }
        lra. }
      lra.
    + rewrite Hs. exact Hst.
Qed.

Lemma ofClass_nonempty (c : WordClass) (lowerWords : list string) (w : string) :
  w ∈ lowerWords -> classify this w = c -> (0 < length (ofClass this c lowerWords))%nat.
Proof.
  intros Hin Hc.
  assert (H : w ∈ ofClass this c lowerWords).
  { apply list_elem_of_filter. split; [| exact Hin]. rewrite Hc. now destruct c. }
  destruct (ofClass this c lowerWords); [inversion H | simpl; lia].
Qed.

Lemma unnegated_positive_normalized (lo : Q) (lowerWords : list string) (w : string) :
  0 <= lo <= 1 ->
  (forall w, has (positiveWords this) w = true -> lo <= dictionaryScore this w) ->
  (forall w, w ∈ lowerWords -> has (negators this) w = false) ->
  (forall w, w ∈ lowerWords -> classify this w <> IsNegative) ->
  w ∈ lowerWords -> classify this w = IsPositive ->
  lo <= normalizedScore (loop this lowerWords).
Proof.
  intros [Hlo Hhi] Hscore Hneg Hcls Hin Hw.
  pose proof (unnegated_positive_sum lo lowerWords Hlo Hscore Hneg Hcls) as Hsum.
  destruct (loop_state this lowerWords) as (_ & _ & Hp & _ & Hc & _).
  pose proof (ofClass_nonempty IsPositive lowerWords w Hin Hw) as Hn.
  rewrite <- Hp in Hn.
  set (st := loop this lowerWords) in *.
  assert (Hpos : (0 < sentimentWords st)%nat) by lia.
  unfold normalizedScore, averageScore.
  rewrite (proj2 (Nat.ltb_lt _ _) Hpos).
  apply Qle_trans with (Math_min 1 (totalScore st / ofNat (sentimentWords st)));
    [| apply Math_max_r].
  apply Math_min_glb; [exact Hhi |].
  apply Qle_shift_div_l; [now apply ofNat_pos | exact Hsum].
Qed.

Lemma unnegated_negative_normalized (lo : Q) (lowerWords : list string) (w : string) :
  0 <= lo <= 1 ->
  (forall w, has (positiveWords this) w = false -> has (negativeWords this) w = true ->
             dictionaryScore this w <= - lo) ->
  (forall w, w ∈ lowerWords -> has (negators this) w = false) ->
  (forall w, w ∈ lowerWords -> classify this w <> IsPositive) ->
  w ∈ lowerWords -> classify this w = IsNegative ->
  normalizedScore (loop this lowerWords) <= - lo.
Proof.
  intros [Hlo Hhi] Hscore Hneg Hcls Hin Hw.
  pose proof (unnegated_negative_sum lo lowerWords Hlo Hscore Hneg Hcls) as Hsum.
  destruct (loop_state this lowerWords) as (_ & _ & _ & Hg & Hc & _).
  pose proof (ofClass_nonempty IsNegative lowerWords w Hin Hw) as Hn.
  rewrite <- Hg in Hn.
  set (st := loop this lowerWords) in *.
  assert (Hpos : (0 < sentimentWords st)%nat) by lia.
  unfold normalizedScore, averageScore.
  rewrite (proj2 (Nat.ltb_lt _ _) Hpos).
  apply Math_max_lub; [lra |].
  apply Qle_trans with (totalScore st / ofNat (sentimentWords st)); [apply Math_min_r |].
  apply Qle_shift_div_r; [now apply ofNat_pos | exact Hsum].
Qed.
End Unnegated.

Lemma engine_word_scores :
  forallb (fun w => Qle_bool (4 # 10) (dictionaryScore dict w))
          (elements (positiveWords dict)) = true
  /\ forallb (fun w => has (positiveWords dict) w
                       || Qle_bool (dictionaryScore dict w) (- (4 # 10)))
             (elements (negativeWords dict)) = true.
Proof. split; vm_compute; reflexivity. Qed.

Lemma engine_positive_score (w : string) :
  has (positiveWords dict) w = true -> 4 # 10 <= dictionaryScore dict w.
Proof.
  intros H. destruct engine_word_scores as [Hall _].
  rewrite forallb_forall in Hall.
  apply Qle_bool_iff, Hall, has_elements, H.
Qed.

Lemma engine_negative_score (w : string) :
  has (positiveWords dict) w = false -> has (negativeWords dict) w = true ->
  dictionaryScore dict w <= - (4 # 10).
Proof.
  intros Hp H. destruct engine_word_scores as [_ Hall].
  rewrite forallb_forall in Hall.
  specialize (Hall w (has_elements _ _ H)).
  apply orb_true_iff in Hall as [Hall | Hall].
  - rewrite Hp in Hall. discriminate Hall.
  - apply Qle_bool_iff. exact Hall.
Qed.

(** X4: With the dictionaries of the engine: a token list without negators
    and without scored negative words, but with a scored positive word,
    gets a score of at least 0.4 and the label positive. *)
Theorem unnegated_positive_text (text : string) (words : list string) (w : string) :
  (forall u, u ∈ words -> has (negators dict) (toLowerCase u) = false) ->
  (forall u, u ∈ words -> classify dict (toLowerCase u) <> IsNegative) ->
  w ∈ words -> classify dict (toLowerCase w) = IsPositive ->
  4 # 10 <= score (analyze dict text words)
  /\ label (analyze dict text words) = Positive.
Proof.
  intros Hneg Hcls Hin Hw.
  assert (Hn : 4 # 10 <= normalizedScore (loop dict (map toLowerCase words))).
  { apply (unnegated_positive_normalized dict (4 # 10) _ (toLowerCase w)).
    - split; discriminate.
    - exact engine_positive_score.
    - intros u Hu. apply list_elem_of_fmap in Hu as (u' & -> & Hu'). now apply Hneg.
    - intros u Hu. apply list_elem_of_fmap in Hu as (u' & -> & Hu'). now apply Hcls.
    - apply list_elem_of_fmap. now exists w.
    - exact Hw. }
  unfold analyze; simpl score; simpl label.
  set (x := normalizedScore (loop dict (map toLowerCase words))) in *.
  split.
  - apply Qle_trans with (toFixed3 (4 # 10)); [discriminate |].
    now apply toFixed3_mono.
  - apply labelOf_positive. lra.
Qed.

Lemma unnegated_positive_text_witness :
  4 # 10 <= score (analyze dict "" ["What"; "a"; "Lovely"; "day"])
  /\ label (analyze dict "" ["What"; "a"; "Lovely"; "day"]) = Positive.
Proof.
  apply (unnegated_positive_text "" ["What"; "a"; "Lovely"; "day"] "Lovely").
  - intros u Hu.
    repeat (apply elem_of_cons in Hu as [-> | Hu]; [vm_compute; reflexivity |]).
    inversion Hu.
  - intros u Hu.
    repeat (apply elem_of_cons in Hu as [-> | Hu]; [vm_compute; discriminate |]).
    inversion Hu.
  - right. right. left.
  - vm_compute. reflexivity.
Defined.

(** X5: The mirror image: without negators and scored positive words, but
    with a scored negative word, the score is at most -0.4 and the label
    negative. *)
Theorem unnegated_negative_text (text : string) (words : list string) (w : string) :
  (forall u, u ∈ words -> has (negators dict) (toLowerCase u) = false) ->
  (forall u, u ∈ words -> classify dict (toLowerCase u) <> IsPositive) ->
  w ∈ words -> classify dict (toLowerCase w) = IsNegative ->
  score (analyze dict text words) <= - (4 # 10)
  /\ label (analyze dict text words) = Negative.
Proof.
  intros Hneg Hcls Hin Hw.
  assert (Hn : normalizedScore (loop dict (map toLowerCase words)) <= - (4 # 10)).
  { apply (unnegated_negative_normalized dict (4 # 10) _ (toLowerCase w)).
    - split; discriminate.
    - exact engine_negative_score.
    - intros u Hu. apply list_elem_of_fmap in Hu as (u' & -> & Hu'). now apply Hneg.
    - intros u Hu. apply list_elem_of_fmap in Hu as (u' & -> & Hu'). now apply Hcls.
    - apply list_elem_of_fmap. now exists w.
    - exact Hw. }
  unfold analyze; simpl score; simpl label.
  set (x := normalizedScore (loop dict (map toLowerCase words))) in *.
  split.
  - apply Qle_trans with (toFixed3 (- (4 # 10))); [| discriminate].
    now apply toFixed3_mono.
  - apply labelOf_negative. lra.
Qed.

Lemma unnegated_negative_text_witness :
  score (analyze dict "" ["The"; "server"; "is"; "broken"]) <= - (4 # 10)
  /\ label (analyze dict "" ["The"; "server"; "is"; "broken"]) = Negative.
Proof.
  apply (unnegated_negative_text "" ["The"; "server"; "is"; "broken"] "broken").
  - intros u Hu.
    repeat (apply elem_of_cons in Hu as [-> | Hu]; [vm_compute; reflexivity |]).
    inversion Hu.
  - intros u Hu.
    repeat (apply elem_of_cons in Hu as [-> | Hu]; [vm_compute; discriminate |]).
    inversion Hu.
  - right. right. right. left.
  - vm_compute. reflexivity.
Defined.

(** *** [quickAnalyze] *)

Section QuickFacts.
Variable this : Dictionaries.

Lemma countWord_comm (c : nat * nat) (a b : string) :
  countWord this (countWord this c a) b = countWord this (countWord this c b) a.
Proof.
  unfold countWord.
  destruct (has (positiveWords this) (toLowerCase a)),
           (has (positiveWords this) (toLowerCase b)),
           (has (negativeWords this) (toLowerCase a)),
           (has (negativeWords this) (toLowerCase b)); reflexivity.
Qed.

Lemma countHits_from (words : list string) (c : nat * nat) :
  fold_left (countWord this) words c
  = ((fst c + fst (countHits this words))%nat, (snd c + snd (countHits this words))%nat).
Proof.
  unfold countHits. revert c.
  induction words as [| w words IH] using rev_ind; intros [p n].
  - simpl. f_equal; lia.
  - rewrite !fold_left_app. simpl. rewrite (IH (p, n)).
    set (h := fold_left (countWord this) words (0%nat, 0%nat)).
    unfold countWord. simpl.
    destruct (has (positiveWords this) (toLowerCase w)); simpl; [f_equal; lia |].
    destruct (has (negativeWords this) (toLowerCase w)); simpl; f_equal; lia.
Qed.

Lemma countHits_cons (w : string) (words : list string) :
  countHits this (w :: words)
  = ((fst (countWord this (0, 0)%nat w) + fst (countHits this words))%nat,
     (snd (countWord this (0, 0)%nat w) + snd (countHits this words))%nat).
Proof. unfold countHits at 1. simpl. apply countHits_from. Qed.

Lemma countHits_le (words : list string) :
  (fst (countHits this words) + snd (countHits this words) <= length words)%nat.
Proof.
  induction words as [| w words IH]; [simpl; lia |].
  rewrite countHits_cons. unfold countWord. simpl.
  destruct (has (positiveWords this) (toLowerCase w)); simpl; [lia |].
  destruct (has (negativeWords this) (toLowerCase w)); simpl; lia.
Qed.

Lemma countHits_zero (words : list string) :
  (fst (countHits this words) + snd (countHits this words) = 0)%nat
  <-> forall w, w ∈ words ->
        has (positiveWords this) (toLowerCase w) = false
        /\ has (negativeWords this) (toLowerCase w) = false.
Proof.
  induction words as [| w words IH].
  - split; [intros _ u Hu; inversion Hu | reflexivity].
  - rewrite countHits_cons. unfold countWord. simpl. split.
    + intros H u Hu.
      destruct (has (positiveWords this) (toLowerCase w)) eqn:Ep; simpl in H; [lia |].
      destruct (has (negativeWords this) (toLowerCase w)) eqn:En; simpl in H; [lia |].
      apply elem_of_cons in Hu as [-> | Hu]; [now split |].
      apply IH; [lia | exact Hu].
    + intros H.
      destruct (H w) as [-> ->]; [left |]. simpl.
      apply IH. intros u Hu. apply H. now right.
Qed.

(** X6: [quickAnalyze] counts, it does not read the words in order: the
    result is the same for every rearrangement of the words. *)
Theorem quickAnalyze_order_irrelevant (words words' : list string) :
  words ≡ₚ words' -> quickAnalyze this words = quickAnalyze this words'.
Proof.
  intros HP. unfold quickAnalyze, countHits.
  rewrite (JSMore.fold_left_permutation _ _ _ (countWord_comm) HP).
  now rewrite (Permutation_length HP).
Qed.

(** X7: The confidence of [quickAnalyze] lies in [0, 0.9]; it is 0 exactly
    when no word is in the positive or the negative vocabulary, and then
    the label is neutral. *)
Theorem quickAnalyze_confidence (words : list string) :
  0 <= quickConfidence (quickAnalyze this words) <= 9 # 10
  /\ (quickConfidence (quickAnalyze this words) == 0
      <-> forall w, w ∈ words ->
            has (positiveWords this) (toLowerCase w) = false
            /\ has (negativeWords this) (toLowerCase w) = false)
  /\ (quickConfidence (quickAnalyze this words) == 0 ->
      quickLabel (quickAnalyze this words) = Neutral).
Proof.
  pose proof (countHits_le words) as Hle.
  pose proof (countHits_zero words) as Hzero.
  unfold quickAnalyze.
  destruct (countHits this words) as [p n]. simpl in Hle, Hzero.
  destruct (Nat.eqb_spec (p + n) 0) as [E | E].
  - simpl. split; [split; discriminate |].
    split; [| reflexivity].
    split; [intros _; now apply Hzero | reflexivity].
  - set (c := Math_min (9 # 10) (ofNat (p + n) / Math_max 1 (ofNat (length words)) * 2)).
    assert (Hc : 0 < c).
    { apply JSMore.Math_min_pos; [reflexivity |].
      apply Qmult_lt_0_compat; [| reflexivity].
      apply Qlt_shift_div_l; [now apply JSMore.Math_max_pos_l |].
      rewrite Qmult_0_l. apply ofNat_pos. lia. }
    assert (Hr : 0 <= c <= 9 # 10).
    { split; [now apply Qlt_le_weak | apply Math_min_l]. }
    assert (Hnz : ~ c == 0) by (intros Hz; rewrite Hz in Hc; discriminate Hc).
    assert (Hsome : ~ (forall w, w ∈ words ->
                         has (positiveWords this) (toLowerCase w) = false
                         /\ has (negativeWords this) (toLowerCase w) = false)).
    { intros H. apply E, Hzero, H. }
    destruct (Qltb (6 # 10) (ofNat p / ofNat (p + n)));
      [| destruct (Qltb (ofNat p / ofNat (p + n)) (4 # 10))];
      cbn [quickConfidence quickLabel]; fold c;
      (split; [exact Hr | split; [split; intros H; contradiction | intros H; contradiction]]).
Qed.
End QuickFacts.

Lemma quickAnalyze_order_irrelevant_witness :
  quickAnalyze dict ["not"; "good"] = quickAnalyze dict ["good"; "not"].
Proof.
  apply (quickAnalyze_order_irrelevant dict ["not"; "good"] ["good"; "not"]).
  apply perm_swap.
Defined.


(** *** [addCustomWords] and [getSize] *)

Section Custom.

Lemma addPositive_fold (positive_ : list string) (d : Dictionaries) :
  let d' := fold_left addPositive positive_ d in
  (forall w, w ∈ positiveWords d' <-> w ∈ positiveWords d \/ w ∈ map toLowerCase positive_)
  /\ (forall w, positiveScores d' !! w
               = if bool_decide (w ∈ map toLowerCase positive_) then Some (5 # 10)
                 else positiveScores d !! w)
  /\ negativeWords d' = negativeWords d /\ negativeScores d' = negativeScores d
  /\ intensifiers d' = intensifiers d /\ negators d' = negators d.
Proof.
  induction positive_ as [| x l IH] using rev_ind; intros d'; subst d'.
  - simpl. split; [intros w; split; [now left | intros [H | H]; [exact H | inversion H]] |].
    split; [intros w; reflexivity | now repeat split].
  - rewrite fold_left_app. simpl.
    destruct IH as (Hs & Hm & Hn & Hns & Hi & Hg).
    set (d0 := fold_left addPositive l d) in *.
    cbn [addPositive positiveWords positiveScores negativeWords negativeScores
         intensifiers negators].
    split; [| split; [| now repeat split]].
    + intros w. rewrite map_app, elem_of_union, elem_of_singleton, Hs, elem_of_app.
      simpl. rewrite list_elem_of_singleton. tauto.
    + intros w. rewrite map_app. simpl.
      destruct (decide (w = toLowerCase x)) as [-> | Hne].
      * rewrite lookup_insert_eq, bool_decide_eq_true_2; [reflexivity |].
        apply elem_of_app. right. left.
      * rewrite lookup_insert_ne by congruence. rewrite Hm.
        rewrite (bool_decide_ext (w ∈ map toLowerCase l ++ [toLowerCase x])
                                 (w ∈ map toLowerCase l)); [reflexivity |].
        rewrite elem_of_app, list_elem_of_singleton. tauto.
Qed.

Lemma addNegative_fold (negative_ : list string) (d : Dictionaries) :
  let d' := fold_left addNegative negative_ d in
  (forall w, w ∈ negativeWords d' <-> w ∈ negativeWords d \/ w ∈ map toLowerCase negative_)
  /\ (forall w, negativeScores d' !! w
               = if bool_decide (w ∈ map toLowerCase negative_) then Some (- (5 # 10))
                 else negativeScores d !! w)
  /\ positiveWords d' = positiveWords d /\ positiveScores d' = positiveScores d
  /\ intensifiers d' = intensifiers d /\ negators d' = negators d.
Proof.
  induction negative_ as [| x l IH] using rev_ind; intros d'; subst d'.
  - simpl. split; [intros w; split; [now left | intros [H | H]; [exact H | inversion H]] |].
    split; [intros w; reflexivity | now repeat split].
  - rewrite fold_left_app. simpl.
    destruct IH as (Hs & Hm & Hn & Hns & Hi & Hg).
    set (d0 := fold_left addNegative l d) in *.
    cbn [addNegative positiveWords positiveScores negativeWords negativeScores
         intensifiers negators].
    split; [| split; [| now repeat split]].
    + intros w. rewrite map_app, elem_of_union, elem_of_singleton, Hs, elem_of_app.
      simpl. rewrite list_elem_of_singleton. tauto.
    + intros w. rewrite map_app. simpl.
      destruct (decide (w = toLowerCase x)) as [-> | Hne].
      * rewrite lookup_insert_eq, bool_decide_eq_true_2; [reflexivity |].
        apply elem_of_app. right. left.
      * rewrite lookup_insert_ne by congruence. rewrite Hm.
        rewrite (bool_decide_ext (w ∈ map toLowerCase l ++ [toLowerCase x])
                                 (w ∈ map toLowerCase l)); [reflexivity |].
        rewrite elem_of_app, list_elem_of_singleton. tauto.
Qed.

(** X8: What [addCustomWords] leaves behind: the lower-cased words are added
    to the two vocabularies with the scores +0.5 and -0.5, overwriting a
    score that was there; every other entry, the intensifiers and the
    negators are as before. *)
Theorem addCustomWords_lookup (this : Dictionaries) (positive_ negative_ : list string) :
  let d' := addCustomWords this positive_ negative_ in
  (forall w, w ∈ positiveWords d'
             <-> w ∈ positiveWords this \/ w ∈ map toLowerCase positive_)
  /\ (forall w, w ∈ negativeWords d'
                <-> w ∈ negativeWords this \/ w ∈ map toLowerCase negative_)
  /\ (forall w, positiveScores d' !! w
               = if bool_decide (w ∈ map toLowerCase positive_) then Some (5 # 10)
                 else positiveScores this !! w)
  /\ (forall w, negativeScores d' !! w
               = if bool_decide (w ∈ map toLowerCase negative_) then Some (- (5 # 10))
                 else negativeScores this !! w)
  /\ intensifiers d' = intensifiers this
  /\ negators d' = negators this.
Proof.
  intros d'. subst d'. unfold addCustomWords.
  destruct (addPositive_fold positive_ this) as (Hs & Hm & Hn & Hns & Hi & Hg).
  destruct (addNegative_fold negative_ (fold_left addPositive positive_ this))
    as (Hs' & Hm' & Hn' & Hns' & Hi' & Hg').
  set (d0 := fold_left addPositive positive_ this) in *.
  set (d1 := fold_left addNegative negative_ d0) in *.
  split; [intros w; rewrite Hn'; apply Hs |].
  split; [intros w; rewrite Hs', Hn; reflexivity |].
  split; [intros w; rewrite Hns'; apply Hm |].
  split; [intros w; rewrite Hm', Hns; reflexivity |].
  split; [now rewrite Hi' | now rewrite Hg'].
Qed.

Lemma size_add (x : string) (X : gset string) :
  (size X <= size ({[x]} ∪ X) <= S (size X))%nat.
Proof.
  split.
  - apply subseteq_size, union_subseteq_r.
  - rewrite size_union_alt, size_singleton.
    assert (Hsub : X ∖ {[x]} ⊆ X)
      by (intros y Hy; apply elem_of_difference in Hy; tauto).
    apply subseteq_size in Hsub. lia.
Qed.

Lemma getSize_addPositive (positive_ : list string) (d : Dictionaries) :
  (getSize d <= getSize (fold_left addPositive positive_ d)
   <= getSize d + length positive_)%nat.
Proof.
  induction positive_ as [| x l IH] using rev_ind; [simpl; lia |].
  rewrite fold_left_app, length_app. simpl.
  set (d0 := fold_left addPositive l d) in *.
  pose proof (size_add (toLowerCase x) (positiveWords d0)).
  unfold getSize in *. cbn [addPositive positiveWords negativeWords intensifiers negators].
  lia.
Qed.

Lemma getSize_addNegative (negative_ : list string) (d : Dictionaries) :
  (getSize d <= getSize (fold_left addNegative negative_ d)
   <= getSize d + length negative_)%nat.
Proof.
  induction negative_ as [| x l IH] using rev_ind; [simpl; lia |].
  rewrite fold_left_app, length_app. simpl.
  set (d0 := fold_left addNegative l d) in *.
  pose proof (size_add (toLowerCase x) (negativeWords d0)).
  unfold getSize in *. cbn [addNegative positiveWords negativeWords intensifiers negators].
  lia.
Qed.

(** X9: [getSize] never shrinks under [addCustomWords] and grows by at most
    the number of words passed. *)
Theorem getSize_addCustomWords (this : Dictionaries) (positive_ negative_ : list string) :
  (getSize this <= getSize (addCustomWords this positive_ negative_)
   <= getSize this + length positive_ + length negative_)%nat.
Proof.
  unfold addCustomWords.
  pose proof (getSize_addPositive positive_ this).
  pose proof (getSize_addNegative negative_ (fold_left addPositive positive_ this)).
  lia.
Qed.

(** X10: A word registered as a custom positive word and analysed alone is
    scored +0.5 and labelled positive, whatever the dictionaries said
    about it before, unless it is an intensifier or a negator. *)
Theorem custom_positive_word_alone
        (this : Dictionaries) (positive_ negative_ : list string) (text w : string) :
  has (intensifiers this) "" = false ->
  has (intensifiers this) (toLowerCase w) = false ->
  has (negators this) (toLowerCase w) = false ->
  w ∈ positive_ ->
  let r := analyze (addCustomWords this positive_ negative_) text [w] in
  score r == 5 # 10 /\ label r = Positive
  /\ positiveWordsFound (breakdown r) = [toLowerCase w].
Proof.
  intros He Hi Hn Hin r. subst r.
  destruct (addPositive_fold positive_ this) as (Hs & Hm & _ & _ & Hi0 & Hn0).
  destruct (addNegative_fold negative_ (fold_left addPositive positive_ this))
    as (_ & _ & Hw1 & Hs1 & Hi1 & Hn1).
  fold (addCustomWords this positive_ negative_) in Hw1, Hs1, Hi1, Hn1.
  set (d' := addCustomWords this positive_ negative_) in *.
  assert (Hi' : intensifiers d' = intensifiers this) by (now rewrite Hi1).
  assert (Hn' : negators d' = negators this) by (now rewrite Hn1).
  assert (Hl : toLowerCase w ∈ map toLowerCase positive_).
  { apply list_elem_of_fmap. now exists w. }
  assert (Hp : has (positiveWords d') (toLowerCase w) = true).
  { rewrite Hw1. apply bool_decide_eq_true_2, Hs. now right. }
  assert (Hg : getOr (positiveScores d') (toLowerCase w) (4 # 10) = 5 # 10).
  { unfold getOr. rewrite Hs1, Hm, bool_decide_eq_true_2 by exact Hl. reflexivity. }
  assert (Hst : loop d' [toLowerCase w]
                = {| bd := pushPositive (toLowerCase w) (bd initialState);
                     totalScore := 0 + (5 # 10) * 1;
                     sentimentWords := 1 |}).
  { unfold loop. cbn [length seq fold_left]. unfold step.
    cbn [at_ nth]. rewrite Hi', Hi, Hn', Hn.
    unfold baseScore. rewrite Hp, Hg.
    unfold prevWordAt, nextWordAt, isNegatedAt, intensityMultiplier.
    cbn [length Nat.ltb Nat.leb Nat.sub seq existsb]. rewrite Hi', He.
    reflexivity. }
  unfold analyze. cbn [map score label breakdown]. rewrite Hst.
  split; [| split]; reflexivity.
Qed.

Lemma custom_positive_word_alone_witness :
  let r := analyze (addCustomWords dict ["Terrible"] []) "" ["Terrible"] in
  score r == 5 # 10 /\ label r = Positive
  /\ positiveWordsFound (breakdown r) = ["terrible"].
Proof.
  apply (custom_positive_word_alone dict ["Terrible"] [] "" "Terrible");
    [vm_compute; reflexivity .. | left].
Defined.
End Custom.

End SentimentExtra.

(* ================================================================== *)
(** * More about action-item detection                                 *)
(* ================================================================== *)

Module ActionExtra.
Import JS JSFacts JSMore RegExp RegExpFacts ArrayFacts ActionPatterns ActionProofs Reference.
Local Open Scope Q_scope.

(** *** What [cleanMatch] returns *)

Lemma AllUnits_dropWhile (P : ascii -> Prop) (p : ascii -> bool) (s : string) :
  AllUnits P s -> AllUnits P (dropWhile p s).
Proof.
  induction s as [| c s IH]; simpl; [tauto |].
  intros [Hc Hs]. destruct (p c); [now apply IH | now split].
Qed.

Lemma AllUnits_trim (P : ascii -> Prop) (s : string) :
  AllUnits P s -> AllUnits P (trim s).
Proof.
  intros H. unfold trim.
  apply AllUnits_revString; [exact I |].
  apply AllUnits_dropWhile, AllUnits_revString; [exact I |].
  now apply AllUnits_dropWhile.
Qed.

Lemma cleanMatch_lower (match_ : string) : toLowerCase (cleanMatch match_) = cleanMatch match_.
Proof.
  apply toLowerCase_fixed. unfold cleanMatch.
  apply AllUnits_trim, replace_units, toLowerCase_units.
Qed.

Lemma revString_revString (s : string) :
  forall a b, revString a (revString b s) = revString (s +:+ a) b.
Proof.
  induction s as [| c s IH]; intros a b; simpl; [reflexivity |].
  now rewrite IH.
Qed.

Lemma revString_app (s t : string) :
  forall acc, revString acc (s +:+ t) = revString (revString acc s) t.
Proof.
  induction s as [| c s IH]; intros acc; [reflexivity |].
  change (revString (String c acc) (s +:+ t) = revString (revString (String c acc) s) t).
  apply IH.
Qed.

Lemma revString_acc (s : string) :
  forall acc, revString acc s = revString "" s +:+ acc.
Proof.
  induction s as [| c s IH]; intros acc; simpl; [reflexivity |].
  rewrite IH, (IH (String c "")).
  rewrite append_assoc. reflexivity.
Qed.

Lemma dropWhile_fixed (p : ascii -> bool) (s : string) :
  match s with String c _ => p c = false | EmptyString => True end ->
  dropWhile p s = s.
Proof. destruct s as [| c s]; simpl; [reflexivity | now intros ->]. Qed.

Lemma dropWhile_head (p : ascii -> bool) (s : string) :
  match dropWhile p s with String c _ => p c = false | EmptyString => True end.
Proof.
  induction s as [| c s IH]; simpl; [exact I |].
  destruct (p c) eqn:E; [exact IH | exact E].
Qed.

Lemma dropWhile_suffix (p : ascii -> bool) (s : string) :
  exists pre, s = pre +:+ dropWhile p s.
Proof.
  induction s as [| c s [pre IH]]; simpl; [now exists "" |].
  destruct (p c).
  - exists (String c pre).
    change (String c s = String c (pre +:+ dropWhile p s)). now rewrite <- IH.
  - now exists "".
Qed.

Lemma head_append (p : ascii -> bool) (s t : string) :
  s <> "" ->
  match s +:+ t with String c _ => p c = false | EmptyString => True end ->
  match s with String c _ => p c = false | EmptyString => True end.
Proof.
  destruct s as [| c s]; [congruence |]. intros _.
  change (String c s +:+ t) with (String c (s +:+ t)). tauto.
Qed.

Lemma revString_nonempty (s : string) : s <> "" -> revString "" s <> "".
Proof.
  destruct s as [| c s]; [congruence |]. intros _. simpl.
  rewrite revString_acc. destruct (revString "" s); cbv [append]; discriminate.
Qed.

(** [trim] applied twice is [trim]. *)
Lemma trim_idempotent (s : string) : trim (trim s) = trim s.
Proof.
  unfold trim.
  set (t := dropWhile isSpace s).
  set (u := dropWhile isSpace (revString "" t)).
  assert (Ht : match t with String c _ => isSpace c = false | EmptyString => True end)
    by apply dropWhile_head.
  assert (Hu : match u with String c _ => isSpace c = false | EmptyString => True end)
    by apply dropWhile_head.
  assert (Hr : match revString "" u with
               | String c _ => isSpace c = false | EmptyString => True end).
  { destruct (dropWhile_suffix isSpace (revString "" t)) as [pre Hpre]. fold u in Hpre.
    assert (Ht' : t = revString "" u +:+ revString "" pre).
    { pose proof (revString_revString t "" "") as Hrr.
      simpl in Hrr. rewrite append_nil_r in Hrr.
      rewrite <- Hrr, Hpre, revString_app, revString_acc. reflexivity. }
    destruct (string_dec u "") as [-> | Hne]; [exact I |].
    apply (head_append isSpace _ (revString "" pre));
      [now apply revString_nonempty | now rewrite <- Ht']. }
  rewrite (dropWhile_fixed isSpace (revString "" u) Hr).
  rewrite revString_revString. simpl. rewrite append_nil_r.
  now rewrite (dropWhile_fixed isSpace u Hu).
Qed.

Lemma cleanMatch_trimmed (match_ : string) : trim (cleanMatch match_) = cleanMatch match_.
Proof. unfold cleanMatch. apply trim_idempotent. Qed.

(** *** The loop over the patterns *)

Lemma filterIndexed_from (keep : nat -> string -> bool) (xs : list string) (x : string) :
  forall i, x ∈ filterIndexed keep i xs -> exists j, (i <= j)%nat /\ keep j x = true.
Proof.
  induction xs as [| y xs IH]; intros i H; simpl in H; [inversion H |].
  destruct (keep i y) eqn:E.
  - apply elem_of_cons in H as [-> | H]; [now exists i |].
    destruct (IH _ H) as (j & Hj & Hk). exists j. split; [lia | exact Hk].
  - destruct (IH _ H) as (j & Hj & Hk). exists j. split; [lia | exact Hk].
Qed.

Lemma filterIndexed_NoDup (keep : nat -> string -> bool) (xs : list string) :
  (forall j1 j2 x, keep j1 x = true -> keep j2 x = true -> j1 = j2) ->
  forall i, NoDup (filterIndexed keep i xs).
Proof.
  intros Hk. induction xs as [| y xs IH]; intros i; simpl; [constructor |].
  destruct (keep i y) eqn:E; [| apply IH].
  constructor; [| apply IH].
  intros H. apply filterIndexed_from in H as (j & Hj & Hkj).
  pose proof (Hk _ _ _ E Hkj). lia.
Qed.

Lemma filterIndexed_length (keep : nat -> string -> bool) (xs : list string) :
  forall i, (length (filterIndexed keep i xs) <= length xs)%nat.
Proof.
  induction xs as [| y xs IH]; intros i; simpl; [lia |].
  specialize (IH (S i)). destruct (keep i y); simpl; lia.
Qed.

Lemma filterIndexed_subset (keep : nat -> string -> bool) (xs : list string) (x : string) :
  forall i, x ∈ filterIndexed keep i xs -> x ∈ xs.
Proof.
  induction xs as [| y xs IH]; intros i H; simpl in H; [inversion H |].
  destruct (keep i y).
  - apply elem_of_cons in H as [-> | H]; [left | right; now apply (IH (S i))].
  - right. now apply (IH (S i)).
Qed.

Lemma cleanMatches_NoDup (found : list string) : NoDup (cleanMatches found).
Proof.
  apply filterIndexed_NoDup. intros j1 j2 x H1 H2.
  unfold keepMatch in H1, H2.
  apply andb_true_iff in H1 as [_ H1]. apply andb_true_iff in H2 as [_ H2].
  apply Z.eqb_eq in H1. apply Z.eqb_eq in H2. lia.
Qed.

Lemma cleanMatches_shorter (found : list string) :
  (length (cleanMatches found) <= length found)%nat.
Proof.
  unfold cleanMatches.
  etransitivity; [apply filterIndexed_length | now rewrite length_map].
Qed.

Lemma cleanMatches_cleaned (found : list string) (x : string) :
  x ∈ cleanMatches found -> exists m, m ∈ found /\ x = cleanMatch m.
Proof.
  intros H. apply filterIndexed_subset in H.
  apply list_elem_of_fmap in H as (m & -> & Hm). now exists m.
Qed.

Section Scan.
Variable text : string.

(** What one pattern adds to the two accumulators of [detect]. *)
Lemma collect_cases (name : string) (cfg : PatternConfig) (found : list string)
      (acc : list string * list PatternResult) :
  (cleanMatches found = [] /\ collect name cfg found acc = acc)
  \/ (cleanMatches found <> []
      /\ collect name cfg found acc
         = (fst acc ++ cleanMatches found,
            snd acc ++ [{| pattern := name; matches := cleanMatches found;
                           resultPriority := priority cfg |}])).
Proof.
  unfold collect. destruct found as [| f found]; [left; split; reflexivity |].
  destruct (cleanMatches (f :: found)) as [| c cm] eqn:E; [now left |].
  right. split; [discriminate | reflexivity].
Qed.

Lemma scanPatterns_results (pats : list (string * PatternConfig)) :
  forall acc acc',
    scanPatterns pats text acc = Normal acc' ->
    exists added,
      snd acc' = snd acc ++ added
      /\ sublist (map pattern added) (map fst pats)
      /\ Forall (fun p => matches p <> [] /\ NoDup (matches p)
                          /\ (forall x, x ∈ matches p -> exists m, x = cleanMatch m)
                          /\ exists cfg, (pattern p, cfg) ∈ pats
                                         /\ resultPriority p = priority cfg) added.
Proof.
  induction pats as [| [name cfg] pats IH]; intros acc acc' H; simpl in H.
  - injection H as <-. exists []. rewrite app_nil_r.
    split; [reflexivity | split; constructor].
  - destruct (findMatches text (regex cfg)) as [found | e |] eqn:Ef;
      simpl in H; [| discriminate | discriminate].
    destruct (IH _ _ H) as (added & Hsnd & Hsub & Hall).
    assert (Hall' : Forall (fun p => matches p <> [] /\ NoDup (matches p)
                          /\ (forall x, x ∈ matches p -> exists m, x = cleanMatch m)
                          /\ exists cfg0, (pattern p, cfg0) ∈ (name, cfg) :: pats
                                          /\ resultPriority p = priority cfg0) added).
    { eapply Forall_impl; [exact Hall |].
      intros p (H1 & H2 & H3 & cfg0 & H4 & H5).
      split; [exact H1 | split; [exact H2 | split; [exact H3 |]]].
      exists cfg0. split; [now right | exact H5]. }
    destruct (collect_cases name cfg found acc) as [[_ Hc] | [Hne Hc]];
      rewrite Hc in Hsnd; simpl in Hsnd.
    + exists added. split; [exact Hsnd |].
      split; [now apply sublist_cons | exact Hall'].
    + exists ({| pattern := name; matches := cleanMatches found;
                 resultPriority := priority cfg |} :: added).
      split; [now rewrite Hsnd, <- app_assoc |].
      split; [simpl; now apply sublist_skip |].
      constructor; [| exact Hall'].
      cbn [matches pattern resultPriority].
      split; [exact Hne | split; [apply cleanMatches_NoDup | split]].
      * intros x Hx. apply cleanMatches_cleaned in Hx as (m & _ & ->). now exists m.
      * exists cfg. split; [left | reflexivity].
Qed.

(** [hasActionItems] runs the same searches as [detect] and counts
    every match, also those [detect] drops. *)
Lemma countMatches_scanPatterns (pats : list (string * PatternConfig)) :
  forall acc acc' c,
    scanPatterns pats text acc = Normal acc' ->
    exists n h,
      countMatches pats text c = Normal ((fst c + n)%nat, (snd c + h)%nat)
      /\ (h <= n)%nat
      /\ (length (fst acc') <= length (fst acc) + n)%nat.
Proof.
  induction pats as [| [name cfg] pats IH]; intros acc acc' [t hp] H; simpl in H.
  - injection H as <-. exists 0%nat, 0%nat. simpl.
    rewrite !Nat.add_0_r. split; [reflexivity | lia].
  - simpl. destruct (findMatches text (regex cfg)) as [found | e |] eqn:Ef;
      simpl in H; [| discriminate | discriminate].
    simpl.
    destruct (IH _ _ ((t + length found)%nat,
                      if isHigh (priority cfg) then (hp + length found)%nat else hp) H)
      as (n & h & Hc & Hh & Hl).
    simpl in Hc.
    assert (Hlen : (length (fst (collect name cfg found acc))
                    <= length (fst acc) + length found)%nat).
    { pose proof (cleanMatches_shorter found).
      destruct (collect_cases name cfg found acc) as [[_ ->] | [_ ->]]; simpl; [lia |].
      rewrite length_app. lia. }
    destruct (isHigh (priority cfg)).
    + exists (length found + n)%nat, (length found + h)%nat.
      rewrite Hc. split; [f_equal; f_equal; lia | lia].
    + exists (length found + n)%nat, h.
      rewrite Hc. split; [f_equal; f_equal; lia | lia].
Qed.


End Scan.

(** *** [detect] *)

(** X11: The three parts of a detection agree: [totalCount] is the number of
    items; the items are exactly the fragments listed under some
    pattern; every listed pattern is a pattern of the table, with its
    priority and at least one fragment, none twice, and the patterns are
    listed in the order of the table. *)
Theorem detect_parts_agree (this : list (string * PatternConfig)) (text : string)
        (sentences : list string) (r : ActionDetectionResult) :
  detect this text sentences = Normal r ->
  totalCount r = length (items r)
  /\ (forall x, x ∈ items r <-> exists p, p ∈ patterns r /\ x ∈ matches p)
  /\ Forall (fun p => matches p <> [] /\ NoDup (matches p)
                      /\ exists cfg, (pattern p, cfg) ∈ this
                                     /\ resultPriority p = priority cfg) (patterns r)
  /\ sublist (map pattern (patterns r)) (map fst this).
Proof.
  intros H.
  destruct (detect_items _ _ _ _ H) as (am & Ham & _ & Hperm & _).
  apply detect_inversion in H as (allMatches & Hscan & _ & Hcount).
  destruct (scanPatterns_results text _ _ _ Hscan) as (added & Hsnd & Hsub & Hall).
  simpl in Hsnd. subst added.
  destruct (scanPatterns_collected _ _ _ _ Hscan collected_initially) as [Hc _].
  simpl in Hc.
  split; [| split; [| split]].
  - rewrite Hcount, Hperm, Ham, Hc. reflexivity.
  - intros x. rewrite Hperm, fromSet_elem, Ham.
    rewrite list_elem_of_In, in_concat. split.
    + intros (l & Hl & Hx). apply in_map_iff in Hl as (p & <- & Hp).
      exists p. split; now apply list_elem_of_In.
    + intros (p & Hp & Hx). exists (matches p).
      split; [apply in_map, list_elem_of_In, Hp | now apply list_elem_of_In].
  - eapply Forall_impl; [exact Hall |].
    intros p (H1 & H2 & _ & H4). now repeat split.
  - exact Hsub.
Qed.

Lemma detect_parts_agree_witness :
  totalCount sampleDetection = length (items sampleDetection)
  /\ (forall x, x ∈ items sampleDetection
                <-> exists p, p ∈ patterns sampleDetection /\ x ∈ matches p)
  /\ Forall (fun p => matches p <> [] /\ NoDup (matches p)
                      /\ exists cfg, (pattern p, cfg) ∈ initializePatterns
                                     /\ resultPriority p = priority cfg)
            (patterns sampleDetection)
  /\ sublist (map pattern (patterns sampleDetection)) (map fst initializePatterns).
Proof.
  apply (detect_parts_agree initializePatterns sampleTranscript []).
  vm_compute. reflexivity.
Defined.

(** X12: Every item [detect] returns went through [cleanMatch]: it is in
    lower case and has no white space at either end. *)
Theorem detect_items_cleaned (this : list (string * PatternConfig)) (text : string)
        (sentences : list string) (r : ActionDetectionResult) :
  detect this text sentences = Normal r ->
  Forall (fun x => toLowerCase x = x /\ trim x = x) (items r).
Proof.
  intros H.
  destruct (detect_items _ _ _ _ H) as (am & Ham & _ & Hperm & _).
  apply detect_inversion in H as (allMatches & Hscan & _ & _).
  destruct (scanPatterns_results text _ _ _ Hscan) as (added & Hsnd & _ & Hall).
  simpl in Hsnd. subst added.
  apply Forall_forall. intros x Hx.
  rewrite Hperm in Hx. apply (proj1 (fromSet_elem _ _)) in Hx.
  rewrite Ham in Hx. apply list_elem_of_In, in_concat in Hx as (l & Hl & Hx).
  apply in_map_iff in Hl as (p & <- & Hp).
  rewrite Forall_forall in Hall.
  destruct (Hall p (proj2 (list_elem_of_In _ _) Hp)) as (_ & _ & Hclean & _).
  destruct (Hclean x (proj2 (list_elem_of_In _ _) Hx)) as [m ->].
  split; [apply cleanMatch_lower | apply cleanMatch_trimmed].
Qed.

Lemma detect_items_cleaned_witness :
  Forall (fun x => toLowerCase x = x /\ trim x = x) (items sampleDetection).
Proof.
  apply (detect_items_cleaned initializePatterns sampleTranscript []).
  vm_compute. reflexivity.
Defined.

(** *** [hasActionItems] *)




(** X14: Whenever [detect] returns, so does [hasActionItems], and it counts
    at least as many matches as [detect] has items; if [detect] has an
    item, [hasActions] is true. *)
Theorem detect_then_hasActionItems (this : list (string * PatternConfig)) (text : string)
        (sentences : list string) (r : ActionDetectionResult) :
  detect this text sentences = Normal r ->
  exists c,
    hasActionItems this text = Normal c
    /\ (totalCount r <= count c)%nat
    /\ (items r <> [] -> hasActions c = true).
Proof.
  intros H.
  apply detect_inversion in H as (allMatches & Hscan & Hitems & Hcount).
  pose proof (prioritizeItems_Permutation (fromSet allMatches) (patterns r)) as Hperm.
  rewrite <- Hitems in Hperm.
  destruct (countMatches_scanPatterns text this _ _ (0, 0)%nat Hscan)
    as (n & h & Hc & _ & Hl).
  simpl in Hc, Hl. unfold hasActionItems. rewrite Hc. simpl.
  eexists. split; [reflexivity |].
  cbn [hasActions count].
  pose proof (fromSet_length allMatches) as Hf.
  split; [lia |].
  intros Hne. apply Nat.ltb_lt.
  apply Permutation_length in Hperm.
  destruct (items r); [congruence | simpl in Hperm; lia].
Qed.

Lemma detect_then_hasActionItems_witness :
  exists c,
    hasActionItems initializePatterns sampleTranscript = Normal c
    /\ (totalCount sampleDetection <= count c)%nat
    /\ (items sampleDetection <> [] -> hasActions c = true).
Proof.
  apply (detect_then_hasActionItems initializePatterns sampleTranscript []).
  vm_compute. reflexivity.
Defined.

(** *** [addCustomPattern] *)

(** X15: [addCustomPattern] stores the configuration under the prefixed
    name and touches no other entry; a name used before is overwritten
    where it stands, a new one goes to the end, and [getPatternCount]
    grows by one only then; registering the same name again makes the
    last configuration the only one; [getCategories] lists the category
    of the new pattern, and no category twice. *)
Theorem addCustomPattern_registers (this : list (string * PatternConfig)) (name : string)
        (cfg : PatternConfig) :
  let key := "custom_" +:+ name in
  let this' := addCustomPattern this name cfg in
  mapGet key this' = Some cfg
  /\ (forall k, k <> key -> mapGet k this' = mapGet k this)
  /\ map fst this' = (if bool_decide (key ∈ map fst this) then map fst this
                      else map fst this ++ [key])
  /\ getPatternCount this' = (if bool_decide (key ∈ map fst this)
                              then getPatternCount this else S (getPatternCount this))
  /\ (forall cfg', addCustomPattern this' name cfg' = addCustomPattern this name cfg')
  /\ category cfg ∈ getCategories this'
  /\ NoDup (getCategories this').
Proof.
  intros key this'. subst key this'. unfold addCustomPattern, getPatternCount.
  split; [apply mapGet_mapSet_same |].
  split; [intros k Hk; now apply mapGet_mapSet_other |].
  split; [apply mapSet_keys |].
  split; [apply mapSet_length |].
  split; [intros cfg'; apply mapSet_mapSet |].
  split; [| apply fromSet_NoDup].
  apply fromSet_elem, list_elem_of_fmap.
  exists ("custom_" +:+ name, cfg). split; [reflexivity | apply mapSet_elem].
Qed.




End ActionExtra.

(* ================================================================== *)
(** * More about topic extraction                                      *)
(* ================================================================== *)

Module TopicExtra.
Import JS JSFacts JSMore RegExp RegExpFacts ArrayFacts TopicExtractor TopicProofs Reference.
Local Open Scope Q_scope.

(** *** Lists *)

Lemma StronglySorted_sublist {A : Type} (R : A -> A -> Prop) (l k : list A) :
  sublist l k -> StronglySorted R k -> StronglySorted R l.
Proof.
  induction 1 as [| x l k Hs IH | x l k Hs IH]; intros Hk.
  - constructor.
  - apply StronglySorted_inv in Hk as [Hk Hall].
    constructor; [now apply IH |].
    apply Forall_forall. intros y Hy. rewrite Forall_forall in Hall.
    apply Hall. now apply (elem_of_sublist l k).
  - apply StronglySorted_inv in Hk as [Hk _]. now apply IH.
Qed.

Lemma slice_sublist {A : Type} (a b : nat) (xs : list A) : sublist (slice a b xs) xs.
Proof.
  unfold slice. etransitivity; [apply sublist_take | apply sublist_drop].
Qed.

Lemma slice_length {A : Type} (a b : nat) (xs : list A) :
  (length (slice a b xs) <= b - a)%nat.
Proof. unfold slice. apply firstn_le_length. Qed.

Lemma filter_none {A : Type} (P : A -> Prop) `{forall x, Decision (P x)} (l : list A) :
  Forall (fun x => ~ P x) l -> filter P l = [].
Proof.
  induction 1 as [| x l Hx Hl IH]; [reflexivity |].
  rewrite filter_cons. destruct (decide (P x)); [contradiction | exact IH].
Qed.

(** *** Counting words: [calculateWordFrequencies] *)

Lemma bump_lookup (w k : string) (freq : list (string * nat)) :
  mapGet k (bump w freq)
  = if String.eqb w k then Some (S (default 0%nat (mapGet k freq))) else mapGet k freq.
Proof.
  induction freq as [| [k' n] freq IH]; simpl; [reflexivity |].
  destruct (String.eqb_spec k' w) as [-> | Hkw]; simpl.
  - destruct (String.eqb_spec w k) as [-> | Hwk]; reflexivity.
  - destruct (String.eqb_spec k' k) as [-> | Hkk].
    + destruct (String.eqb_spec w k) as [-> | Hwk]; [congruence | reflexivity].
    + exact IH.
Qed.

Lemma bump_keys_eq (w : string) (freq : list (string * nat)) :
  map fst (bump w freq)
  = if bool_decide (w ∈ map fst freq) then map fst freq else map fst freq ++ [w].
Proof.
  induction freq as [| [k' n] freq IH]; simpl; [reflexivity |].
  destruct (String.eqb_spec k' w) as [-> | Hkw]; simpl.
  - rewrite bool_decide_eq_true_2; [reflexivity | left].
  - rewrite IH. destruct (bool_decide (w ∈ map fst freq)) eqn:B.
    + apply bool_decide_eq_true_1 in B.
      rewrite bool_decide_eq_true_2; [reflexivity | now right].
    + apply bool_decide_eq_false_1 in B.
      rewrite bool_decide_eq_false_2; [reflexivity |].
      intros H. apply elem_of_cons in H as [H | H]; [congruence | contradiction].
Qed.

Lemma bump_NoDup (w : string) (freq : list (string * nat)) :
  NoDup (map fst freq) -> NoDup (map fst (bump w freq)).
Proof.
  intros H. rewrite bump_keys_eq.
  destruct (bool_decide (w ∈ map fst freq)) eqn:B; [exact H |].
  apply bool_decide_eq_false_1 in B.
  apply NoDup_app. split; [exact H |]. split.
  - intros x Hx Hx'. apply list_elem_of_singleton in Hx'. now subst x.
  - apply NoDup_singleton.
Qed.

Lemma fold_bump_NoDup (ws : list string) :
  forall freq, NoDup (map fst freq) ->
               NoDup (map fst (fold_left (fun freq w => bump w freq) ws freq)).
Proof.
  induction ws as [| w ws IH]; intros freq H; simpl; [exact H |].
  now apply IH, bump_NoDup.
Qed.

Lemma fold_bump_lookup (ws : list string) (k : string) :
  forall freq,
    default 0%nat (mapGet k (fold_left (fun freq w => bump w freq) ws freq))
    = (default 0%nat (mapGet k freq) + length (filter (fun w => w = k) ws))%nat.
Proof.
  induction ws as [| w ws IH]; intros freq; simpl; [lia |].
  rewrite IH, bump_lookup, filter_cons.
  destruct (String.eqb_spec w k) as [-> | Hwk].
  - rewrite decide_True by reflexivity. simpl. lia.
  - rewrite decide_False by exact Hwk. reflexivity.
Qed.

Lemma fold_bump_covers (ws : list string) (k : string) :
  forall freq, k ∈ ws -> k ∈ map fst (fold_left (fun freq w => bump w freq) ws freq).
Proof.
  intros freq Hk.
  pose proof (fold_bump_lookup ws k freq) as Hl.
  assert (Hpos : (0 < length (filter (fun w => w = k) ws))%nat).
  { assert (Hin : k ∈ filter (fun w => w = k) ws) by (now apply list_elem_of_filter).
    destruct (filter (fun w => w = k) ws); [inversion Hin | simpl; lia]. }
  set (m := fold_left (fun freq w => bump w freq) ws freq) in *.
  clearbody m. induction m as [| [k' n] m IHm]; simpl in *; [lia |].
  destruct (String.eqb_spec k' k) as [-> | Hne]; [left | right].
  apply IHm. exact Hl.
Qed.

Lemma mapGet_elem {V : Type} (k : string) (v : V) (m : list (string * V)) :
  NoDup (map fst m) -> (k, v) ∈ m -> mapGet k m = Some v.
Proof.
  induction m as [| [k' v'] m IH]; intros Hnd Hin; [inversion Hin |].
  simpl in *. apply NoDup_cons in Hnd as [Hk' Hnd].
  apply elem_of_cons in Hin as [Heq | Hin].
  - injection Heq as <- <-. now rewrite String.eqb_refl.
  - destruct (String.eqb_spec k' k) as [-> | Hne]; [| now apply IH].
    exfalso. apply Hk'. apply list_elem_of_fmap. now exists (k, v).
Qed.

Lemma count_kept (P : string -> bool) (f : string -> string) (w : string)
      (l : list string) :
  P w = true ->
  length (filter (fun x => x = w) (filter (fun x => P x = true) (map f l)))
  = length (filter (fun x => f x = w) l).
Proof.
  intros Hw. induction l as [| x l IH]; [reflexivity |].
  simpl. rewrite (filter_cons (fun x => f x = w)), (filter_cons (fun x => P x = true)).
  destruct (decide (f x = w)) as [E | E].
  - rewrite decide_True by (now rewrite E).
    rewrite filter_cons, decide_True by exact E. simpl. now rewrite IH.
  - destruct (decide (P (f x) = true)); [| exact IH].
    rewrite filter_cons, decide_False by exact E. exact IH.
Qed.

Section Frequencies.
Variable this : Extractor.

Lemma calculateWordFrequencies_NoDup (words : list string) :
  NoDup (map fst (calculateWordFrequencies this words)).
Proof. apply fold_bump_NoDup. constructor. Qed.

(** An entry of the frequency map is a kept word with the number of
    input words that normalise to it. *)
Lemma calculateWordFrequencies_entry (words : list string) (w : string) (n : nat) :
  (w, n) ∈ calculateWordFrequencies this words ->
  keepWord this w = true
  /\ n = length (filter (fun x => normalizeWord x = w) words)
  /\ (0 < n)%nat.
Proof.
  intros Hin.
  pose proof (mapGet_elem _ _ _ (calculateWordFrequencies_NoDup words) Hin) as Hget.
  assert (Hkey : w ∈ map fst (calculateWordFrequencies this words)).
  { apply list_elem_of_fmap. now exists (w, n). }
  unfold calculateWordFrequencies in *.
  set (cleanWords := filter (fun w => keepWord this w = true) (map normalizeWord words))
    in *.
  apply fold_bump_keys in Hkey as [Hkey | Hkey]; [| inversion Hkey].
  pose proof (fold_bump_lookup cleanWords w []) as Hl.
  rewrite Hget in Hl. simpl in Hl.
  assert (Hkeep : keepWord this w = true).
  { subst cleanWords. now apply list_elem_of_filter in Hkey as [Hk _]. }
  split; [exact Hkeep |].
  assert (Hn : n = length (filter (fun x => normalizeWord x = w) words)).
  { rewrite Hl. subst cleanWords. now apply count_kept. }
  split; [exact Hn |].
  rewrite Hl.
  assert (Hin' : w ∈ filter (fun x => x = w) cleanWords) by (now apply list_elem_of_filter).
  destruct (filter (fun x => x = w) cleanWords); [inversion Hin' | simpl; lia].
Qed.

Lemma calculateWordFrequencies_covers (words : list string) (x : string) :
  x ∈ words -> keepWord this (normalizeWord x) = true ->
  exists n, (normalizeWord x, n) ∈ calculateWordFrequencies this words.
Proof.
  intros Hx Hk.
  assert (Hkey : normalizeWord x ∈ map fst (calculateWordFrequencies this words)).
  { apply fold_bump_covers, list_elem_of_filter. split; [exact Hk |].
    apply list_elem_of_fmap. now exists x. }
  apply list_elem_of_fmap in Hkey as ([w n] & Hw & Hin). simpl in Hw. subst w.
  now exists n.
Qed.

Lemma calculateWordFrequencies_none (words : list string) :
  Forall (fun w => keepWord this (normalizeWord w) = false) words ->
  calculateWordFrequencies this words = [].
Proof.
  intros H. unfold calculateWordFrequencies.
  rewrite filter_none; [reflexivity |].
  apply Forall_fmap. eapply Forall_impl; [exact H |].
  intros w Hw. simpl. congruence.
Qed.

(** *** Scored keywords: [calculateRelevanceScores] *)

Lemma relevanceLe_sorted (l : list Keyword) :
  StronglySorted (fun a b => relevance b <= relevance a)
                 (sort (fun a b => Qle_bool (relevance b - relevance a) 0) l).
Proof.
  eapply StronglySorted_weaken;
    [| apply (sort_sorted (fun a b => Qle_bool (relevance b - relevance a) 0))].
  - intros a b H. apply Qle_bool_iff in H. lra.
  - intros a b H. apply Qle_bool_iff.
    assert (Hn : ~ relevance b - relevance a <= 0).
    { intros Hle. apply Qle_bool_iff in Hle. congruence. }
    lra.
  - intros a b c H1 H2. apply Qle_bool_iff in H1. apply Qle_bool_iff in H2.
    apply Qle_bool_iff. lra.
Qed.

Lemma calculateRelevanceScores_sorted (wordFreq : list (string * nat)) (text : string) :
  StronglySorted (fun a b => relevance b <= relevance a)
                 (calculateRelevanceScores this wordFreq text).
Proof.
  unfold calculateRelevanceScores.
  eapply StronglySorted_sublist; [apply sublist_filter | apply relevanceLe_sorted].
Qed.

Lemma calculateRelevanceScores_entry (wordFreq : list (string * nat)) (text : string)
      (k : Keyword) :
  k ∈ calculateRelevanceScores this wordFreq text ->
  2 # 10 < relevance k
  /\ exists e, e ∈ wordFreq
               /\ k = scoreWord this
                        (Math_max_spread (map (fun e => ofNat (snd e)) wordFreq)) text e.
Proof.
  unfold calculateRelevanceScores. intros H.
  apply list_elem_of_filter in H as [Hr H].
  split; [now apply Qltb_lt |].
  rewrite sort_Permutation in H.
  apply list_elem_of_fmap in H as (e & -> & He). now exists e.
Qed.

Lemma calculateRelevanceScores_NoDup (wordFreq : list (string * nat)) (text : string) :
  NoDup (map fst wordFreq) ->
  NoDup (map word (calculateRelevanceScores this wordFreq text)).
Proof.
  intros Hnd. unfold calculateRelevanceScores.
  set (scored := map (scoreWord this _ text) wordFreq).
  apply (sublist_NoDup _ (map word (sort (fun a b => Qle_bool (relevance b - relevance a) 0)
                                          scored))).
  - rewrite sort_Permutation. subst scored. rewrite map_map.
    erewrite map_ext; [exact Hnd |].
    intros e. apply scoreWord_word.
  - apply fmap_sublist, sublist_filter.
Qed.
End Frequencies.

(** *** The keywords of [extract] *)

(** X17: Every returned keyword is a word the filter keeps (3 to 19 code
    units, no stop word, not a number), listed once, with the number of
    input words that normalise to it as its frequency; at most 15 are
    returned. *)
Theorem keywords_count_the_words (this : Extractor) (text : string) (words : list string) :
  let r := extract this text words in
  NoDup (map word (keywords r))
  /\ (length (keywords r) <= 15)%nat
  /\ Forall (fun k =>
               (2 < strlen (word k) < 20)%nat
               /\ (word k ∉ stopWords this)
               /\ test onlyDigits (word k) = false
               /\ frequency k
                  = length (filter (fun w => normalizeWord w = word k) words)
               /\ (0 < frequency k)%nat)
            (keywords r).
Proof.
  cbv zeta. unfold extract, extractTopicHierarchy. cbn [keywords].
  set (wordFreq := calculateWordFrequencies this words).
  set (kws := calculateRelevanceScores this wordFreq text).
  split; [| split].
  - apply (sublist_NoDup _ (map word kws)).
    + apply calculateRelevanceScores_NoDup, calculateWordFrequencies_NoDup.
    + apply fmap_sublist, slice_sublist.
  - apply (slice_length 0 15).
  - apply Forall_forall. intros k Hk.
    apply (elem_of_sublist _ kws) in Hk; [| apply slice_sublist].
    apply calculateRelevanceScores_entry in Hk as (_ & [w n] & He & ->).
    apply calculateWordFrequencies_entry in He as (Hkeep & Hn & Hpos).
    cbn [scoreWord word frequency].
    unfold keepWord in Hkeep.
    apply andb_true_iff in Hkeep as [Hkeep Hd].
    apply andb_true_iff in Hkeep as [Hkeep Hs].
    apply andb_true_iff in Hkeep as [H2 H20].
    apply Nat.ltb_lt in H2. apply Nat.ltb_lt in H20.
    apply negb_true_iff in Hd. apply negb_true_iff in Hs.
    apply bool_decide_eq_false_1 in Hs.
    split; [lia |]. split; [exact Hs |]. split; [exact Hd |]. split; assumption.
Qed.

(** X18: The returned keywords are in descending order of relevance, and
    each has a relevance above 0.2. *)
Theorem keywords_ranked (this : Extractor) (text : string) (words : list string) :
  let r := extract this text words in
  StronglySorted (fun a b => relevance b <= relevance a) (keywords r)
  /\ Forall (fun k => 2 # 10 < relevance k) (keywords r).
Proof.
  cbv zeta. unfold extract, extractTopicHierarchy. cbn [keywords].
  set (wordFreq := calculateWordFrequencies this words).
  set (kws := calculateRelevanceScores this wordFreq text).
  split.
  - eapply StronglySorted_sublist; [apply slice_sublist |].
    apply calculateRelevanceScores_sorted.
  - apply Forall_forall. intros k Hk.
    apply (elem_of_sublist _ kws) in Hk; [| apply slice_sublist].
    now apply calculateRelevanceScores_entry in Hk as [Hr _].
Qed.

(** *** The range of the relevance *)

Lemma Math_max_spread_from (xs : list Q) :
  forall a, exists m,
    fold_left (fun acc x => match acc with
                            | NegInfinity => Finite x
                            | Finite a => Finite (Math_max a x)
                            end) xs (Finite a) = Finite m
    /\ a <= m /\ forall x, x ∈ xs -> x <= m.
Proof.
  induction xs as [| y xs IH]; intros a; simpl.
  - exists a. split; [reflexivity |]. split; [lra | intros x Hx; inversion Hx].
  - destruct (IH (Math_max a y)) as (m & Hm & Ham & Hall).
    exists m. split; [exact Hm |].
    pose proof (Math_max_l a y). pose proof (Math_max_r a y).
    split; [lra |].
    intros x Hx. apply elem_of_cons in Hx as [-> | Hx]; [lra | now apply Hall].
Qed.

Lemma Math_max_spread_ge (xs : list Q) (x : Q) :
  x ∈ xs -> exists m, Math_max_spread xs = Finite m /\ x <= m.
Proof.
  destruct xs as [| y xs]; intros Hx; [inversion Hx |].
  unfold Math_max_spread. simpl.
  destruct (Math_max_spread_from xs y) as (m & Hm & Hy & Hall).
  exists m. split; [exact Hm |].
  apply elem_of_cons in Hx as [-> | Hx]; [exact Hy | now apply Hall].
Qed.

Lemma engine_domain_scores (w : string) : domainScoreOf new w <= 8 # 10.
Proof.
  assert (Hall : forallb (fun e => Qle_bool (snd e) (8 # 10))
                         (map_to_list (domainKeywords new)) = true)
    by (vm_compute; reflexivity).
  unfold domainScoreOf.
  destruct (domainKeywords new !! w) as [v |] eqn:E; [| discriminate].
  destruct (Qeq_bool v 0); [discriminate |].
  apply elem_of_map_to_list, list_elem_of_In in E.
  rewrite forallb_forall in Hall.
  apply Qle_bool_iff. exact (Hall _ E).
Qed.

Lemma scoreWord_range (this : Extractor) (d : Q) (wordFreq : list (string * nat))
      (text : string) (e : string * nat) :
  (forall w, domainScoreOf this w <= d) ->
  e ∈ wordFreq -> (0 < snd e)%nat ->
  relevance (scoreWord this (Math_max_spread (map (fun e => ofNat (snd e)) wordFreq))
                       text e)
  <= toFixed3 ((4 # 10) + d * (4 # 10) + (3 # 10) + (1 # 10)).
Proof.
  intros Hd He Hpos.
  destruct (Math_max_spread_ge (map (fun e => ofNat (snd e)) wordFreq) (ofNat (snd e)))
    as (m & Hm & Hle).
  { apply list_elem_of_fmap. now exists e. }
  rewrite Hm. destruct e as [w n]. simpl in Hpos, Hle.
  cbn [scoreWord relevance div_ext].
  apply toFixed3_mono.
  pose proof (ofNat_pos n Hpos) as Hn.
  assert (Hfreq : ofNat n / m <= 1).
  { apply Qle_shift_div_r; lra. }
  pose proof (Hd w) as Hdw.
  pose proof (Math_min_l (3 # 10) ((inject_Z (Z.of_nat (strlen w)) - 3) * (5 # 100)))
    as Hlen.
  set (lengthBonus := Math_min (3 # 10) _) in *.
  match goal with
  | |- context [if ?b then 1 # 10 else 0] =>
      set (positionBonus := if b then 1 # 10 else 0);
      assert (Hposb : positionBonus <= 1 # 10)
        by (subst positionBonus; destruct b; [lra | discriminate])
  end.
  set (f := ofNat n / m) in *.
  set (ds := domainScoreOf this w) in *.
  lra.
Qed.

(** X19: With the domain keywords of the engine the relevance of a returned
    keyword lies above 0.2 and is at most 1.12. *)
Theorem engine_relevance_range (text : string) (words : list string) :
  Forall (fun k => 2 # 10 < relevance k <= 112 # 100)
         (keywords (extract new text words)).
Proof.
  unfold extract, extractTopicHierarchy. cbn [keywords].
  apply Forall_forall. intros k Hk.
  apply (elem_of_sublist
           _ (calculateRelevanceScores new (calculateWordFrequencies new words) text))
    in Hk; [| apply slice_sublist].
  apply calculateRelevanceScores_entry in Hk as (Hlo & e & He & ->).
  split; [exact Hlo |].
  assert (Hpos : (0 < snd e)%nat).
  { destruct e as [w n].
    now apply calculateWordFrequencies_entry in He as (_ & _ & Hpos). }
  apply Qle_trans with (toFixed3 ((4 # 10) + (8 # 10) * (4 # 10) + (3 # 10) + (1 # 10)));
    [| discriminate].
  apply (scoreWord_range new (8 # 10)); [exact engine_domain_scores | exact He | exact Hpos].
Qed.

(** *** Nothing to extract *)

Lemma scoreCategories_none (this : Extractor) : scoreCategories this [] = [].
Proof.
  unfold scoreCategories. rewrite scoreCategories_from. simpl.
  induction (topicCategories this) as [| [c cw] cats IH]; [reflexivity | exact IH].
Qed.

(** X20: When the filter keeps none of the words (no words at all, only stop
    words, numbers or short words), the result of [extract] is empty in
    all four parts. *)
Theorem nothing_kept_nothing_found (this : Extractor) (text : string)
        (words : list string) :
  Forall (fun w => keepWord this (normalizeWord w) = false) words ->
  let r := extract this text words in
  primary r = [] /\ secondary r = [] /\ keywords r = [] /\ categories r = [].
Proof.
  intros H. cbv zeta. unfold extract.
  rewrite (calculateWordFrequencies_none this words H).
  change (calculateRelevanceScores this [] text) with (@nil Keyword).
  unfold categorizeTopics. rewrite scoreCategories_none.
  repeat split.
Qed.

Lemma nothing_kept_nothing_found_witness :
  let r := extract new "The 12 of us" ["The"; "12"; "of"; "us"] in
  primary r = [] /\ secondary r = [] /\ keywords r = [] /\ categories r = [].
Proof.
  apply (nothing_kept_nothing_found new "The 12 of us" ["The"; "12"; "of"; "us"]).
  repeat constructor.
Defined.

(** *** The sizes of the four lists *)

(** X21: The result never lists a topic twice and is bounded: at most 7
    primary topics, 7 secondary topics, 15 keywords and 5 categories. *)
Theorem result_is_bounded (this : Extractor) (text : string) (words : list string) :
  let r := extract this text words in
  NoDup (primary r) /\ NoDup (secondary r)
  /\ (length (primary r) <= 7)%nat /\ (length (secondary r) <= 7)%nat
  /\ (length (keywords r) <= 15)%nat /\ (length (categories r) <= 5)%nat.
Proof.
  cbv zeta. unfold extract, extractTopicHierarchy.
  cbn [primary secondary keywords categories].
  set (kws := calculateRelevanceScores this (calculateWordFrequencies this words) text).
  set (cats := map fst (categorizeTopics this kws)).
  assert (Hk : forall (P : Keyword -> Prop) `{forall k, Decision (P k)} a b,
             (length (map word (filter P (slice a b kws))) <= b - a)%nat).
  { intros P HP a b. rewrite length_map.
    etransitivity; [apply length_filter | apply slice_length]. }
  split; [apply fromSet_NoDup |].
  split; [eapply sublist_NoDup; [apply fromSet_NoDup | apply sublist_filter] |].
  split; [| split; [| split]].
  - etransitivity; [apply fromSet_length |]. rewrite length_app.
    pose proof (Hk (fun k => Qltb (5 # 10) (relevance k) = true) _ 0 5)%nat.
    pose proof (slice_length 0 2 cats). lia.
  - etransitivity; [apply length_filter |].
    etransitivity; [apply fromSet_length |]. rewrite length_app.
    pose proof (Hk (fun k => Qltb (3 # 10) (relevance k) = true) _ 5 10)%nat.
    pose proof (slice_length 2 4 cats). lia.
  - apply (slice_length 0 15).
  - apply (slice_length 0 5).
Qed.

(** *** [quickAnalyze] *)

Lemma quick_confidence (n : nat) :
  (n <= 5)%nat ->
  toFixed2 (Math_min (9 # 10) (ofNat n * (15 # 100))) == ofNat n * (15 # 100).
Proof.
  intros H.
  do 6 (destruct n as [| n]; [vm_compute; reflexivity |]). lia.
Qed.

Lemma frequencyLe_sorted (l : list (string * nat)) :
  StronglySorted (fun a b => (snd b <= snd a)%nat)
                 (sort (fun a b => (Z.of_nat (snd b) - Z.of_nat (snd a) <=? 0)%Z) l).
Proof.
  eapply StronglySorted_weaken;
    [| apply (sort_sorted (fun a b => (Z.of_nat (snd b) - Z.of_nat (snd a) <=? 0)%Z))].
  - intros a b H. apply Z.leb_le in H. lia.
  - intros a b H. apply Z.leb_gt in H. apply Z.leb_le. lia.
  - intros a b c H1 H2. apply Z.leb_le in H1. apply Z.leb_le in H2.
    apply Z.leb_le. lia.
Qed.

(** X22: [quickAnalyze] returns at most five different kept words, no kept
    word left out occurs more often than a returned one, and the
    confidence is 0.15 for each returned word (so at most 0.75: the cap
    of 0.9 is never reached). *)
Theorem quickAnalyze_top_words (this : Extractor) (words : list string) :
  let q := quickAnalyze this words in
  let occurrences t := length (filter (fun w => normalizeWord w = t) words) in
  (length (quickTopics q) <= 5)%nat
  /\ NoDup (quickTopics q)
  /\ (forall t, t ∈ quickTopics q ->
                keepWord this t = true /\ (0 < occurrences t)%nat)
  /\ (forall t w, t ∈ quickTopics q -> w ∈ words ->
                  keepWord this (normalizeWord w) = true ->
                  normalizeWord w ∉ quickTopics q ->
                  (occurrences (normalizeWord w) <= occurrences t)%nat)
  /\ quickTopicConfidence q == ofNat (length (quickTopics q)) * (15 # 100).
Proof.
  cbv zeta. unfold quickAnalyze. cbn [quickTopics quickTopicConfidence].
  set (wordFreq := calculateWordFrequencies this words).
  set (sorted := sort (fun a b => (Z.of_nat (snd b) - Z.of_nat (snd a) <=? 0)%Z) wordFreq).
  assert (Hperm : sorted ≡ₚ wordFreq) by apply sort_Permutation.
  assert (Hsorted : StronglySorted (fun a b => (snd b <= snd a)%nat) sorted)
    by apply frequencyLe_sorted.
  assert (Hlen : (length (map fst (slice 0 5 sorted)) <= 5)%nat).
  { rewrite length_map. apply (slice_length 0 5). }
  assert (Hnd : NoDup (map fst sorted)).
  { rewrite Hperm. apply calculateWordFrequencies_NoDup. }
  split; [exact Hlen |].
  split; [eapply sublist_NoDup; [exact Hnd | apply fmap_sublist, slice_sublist] |].
  split; [| split].
  - intros t Ht. apply list_elem_of_fmap in Ht as ([t' n] & -> & He).
    apply (elem_of_sublist _ sorted) in He; [| apply slice_sublist].
    rewrite Hperm in He.
    apply calculateWordFrequencies_entry in He as (Hkeep & Hn & Hpos).
    simpl. split; [exact Hkeep | now rewrite <- Hn].
  - intros t w Ht Hw Hkeep Hout.
    apply list_elem_of_fmap in Ht as ([t' n] & -> & He). simpl.
    destruct (calculateWordFrequencies_covers this words w Hw Hkeep) as [nw Hnw].
    fold wordFreq in Hnw. rewrite <- Hperm in Hnw.
    assert (Hsplit : sorted = slice 0 5 sorted ++ drop 5 sorted).
    { unfold slice. simpl. now rewrite take_drop. }
    rewrite Hsplit in Hnw. apply elem_of_app in Hnw as [Hnw | Hnw].
    { exfalso. apply Hout. apply list_elem_of_fmap. now exists (normalizeWord w, nw). }
    rewrite Hsplit in Hsorted.
    pose proof (@StronglySorted_app_1_elem_of _ _ _ _ _ _ Hsorted He Hnw) as Hle.
    simpl in Hle.
    assert (He' : (t', n) ∈ wordFreq).
    { rewrite <- Hperm. apply (elem_of_sublist (slice 0 5 sorted)); [exact He |].
      apply slice_sublist. }
    assert (Hnw' : (normalizeWord w, nw) ∈ wordFreq).
    { rewrite <- Hperm. apply (elem_of_sublist (drop 5 sorted)); [exact Hnw |].
      apply sublist_drop. }
    apply calculateWordFrequencies_entry in He' as (_ & <- & _).
    apply calculateWordFrequencies_entry in Hnw' as (_ & <- & _).
    exact Hle.
  - now apply quick_confidence.
Qed.

(** *** [addCustomCategory] *)

(** X23: [addCustomCategory] stores the keyword list under the given name
    itself, so a built-in category of that name is overwritten where it
    stands and a new name goes to the end, and [getCategoryCount] grows
    by one only then; no other category changes, and the keywords
    [extract] returns are the same as before. *)
Theorem addCustomCategory_registers (this : Extractor) (name : string)
        (keywords_ : list string) :
  let this' := addCustomCategory this name keywords_ in
  mapGet name (topicCategories this') = Some keywords_
  /\ (forall c, c <> name -> mapGet c (topicCategories this') = mapGet c (topicCategories this))
  /\ getCategories this' = (if bool_decide (name ∈ getCategories this)
                            then getCategories this else getCategories this ++ [name])
  /\ getCategoryCount this' = (if bool_decide (name ∈ getCategories this)
                               then getCategoryCount this else S (getCategoryCount this))
  /\ (forall text words,
        keywords (extract this' text words) = keywords (extract this text words)).
Proof.
  cbv zeta. unfold getCategories, getCategoryCount, addCustomCategory.
  cbn [topicCategories].
  split; [apply mapGet_mapSet_same |].
  split; [intros c Hc; now apply mapGet_mapSet_other |].
  split; [apply mapSet_keys |].
  split; [apply mapSet_length | reflexivity].
Qed.

End TopicExtra.

(* ================================================================== *)
(** * More about the orchestrator                                      *)
(* ================================================================== *)

Module PipelineExtra.
Import JS JSFacts JSMore Reference OfflineNLP.

(** Runs the body of [processText] in hypothesis [H], one case for each
    way the four stages can end. *)
Ltac run_stages_in H :=
  unfold tryCatch, tryBlock, catchBlock, sentimentStage, actionStage, topicStage,
    insightStage, mbind, M_bind, mret, M_ret, log, await, assign, readResult in H;
  destruct (flag _ skipSentiment) eqn:?, (flag _ skipActionItems) eqn:?,
    (flag _ skipTopics) eqn:?, (flag _ skipInsights) eqn:?;
  cbn [negb] in H;
  repeat match type of H with
         | context [analyzeSentiment ?t ?a ?b] =>
             destruct (analyzeSentiment t a b) eqn:?; cbn [fst snd result console] in H
         | context [detectActionItems ?t ?a ?b] =>
             destruct (detectActionItems t a b) eqn:?; cbn [fst snd result console] in H
         | context [extractTopics ?t ?a ?b] =>
             destruct (extractTopics t a b) eqn:?; cbn [fst snd result console] in H
         | context [generateInsights ?t ?x] =>
             destruct (generateInsights t x) eqn:?; cbn [fst snd result console] in H
         end.

Section AnyEngine.
Variable this : Engine.
Variable clock : Clock.
Variable options : option Options.

(** X24: The promise of [processText] is rejected exactly when one of the
    three preprocessing calls throws: they stand before the [try]; an
    exception of a stage never reaches the caller. *)
Theorem processText_throws_only_from_preprocessing (text e : string) :
  fst (processText this clock options text) = Throw e
  <-> preprocess this text = Throw e.
Proof.
  unfold processText.
  destruct (preprocess this text) as [[[processedText_ sentences] words] | e' |] eqn:Hpre.
  - split; [| discriminate]. intros H. exfalso.
    destruct (tryCatch _ _ _) as [c fr] eqn:Hrun. simpl in H. subst c.
    run_stages_in Hrun; discriminate Hrun.
  - simpl. split; intros H; now injection H as <-.
  - simpl. split; discriminate.
Qed.

(** X25: Whatever the stages do, a returned result carries the metadata of
    the call: the text as given and as cleaned, the numbers of words and
    sentences, the time stamp, the elapsed time and the privacy flags,
    of which [noDataStored] is false only for [storeResults]. *)
Theorem processText_metadata (text processedText_ : string) (sentences words : list string)
        (r : NLPResult) (log_ : list LogEvent) :
  preprocess this text = Normal (processedText_, sentences, words) ->
  processText this clock options text = (Normal r, log_) ->
  originalText r = text
  /\ processedText r = processedText_
  /\ wordCount r = length words
  /\ sentenceCount r = length sentences
  /\ timestamp r = isoNow clock
  /\ processingTime r = (endNow clock - startNow clock)%Z
  /\ dataProcessedLocally (privacy r) = true
  /\ noExternalCalls (privacy r) = true
  /\ noDataStored (privacy r) = negb (flag options storeResults).
Proof.
  intros Hpre H. unfold processText in H. rewrite Hpre in H.
  destruct (tryCatch _ _ _) as [c fr] eqn:Hrun.
  injection H as -> <-.
  run_stages_in Hrun; try discriminate Hrun;
    injection Hrun as <- <-; repeat split.
Qed.

(** X26: A stage switched off by its option leaves its section at the
    default and writes no line to the console (the insights may still
    receive the fallback recommendations when another stage fails). *)
Theorem skipped_stage_is_left_alone (text processedText_ : string)
        (sentences words : list string) (r : NLPResult) (log_ : list LogEvent) :
  preprocess this text = Normal (processedText_, sentences, words) ->
  processText this clock options text = (Normal r, log_) ->
  (flag options skipSentiment = true ->
   sentiment r = defaultSentiment /\ (LogSentiment ∉ log_))
  /\ (flag options skipActionItems = true ->
      actionItems r = defaultActionItems /\ (LogActionItems ∉ log_))
  /\ (flag options skipTopics = true ->
      topics r = defaultTopics /\ (LogTopics ∉ log_))
  /\ (flag options skipInsights = true ->
      (insights r = defaultInsights \/ insights r = fallbackInsights)
      /\ (LogInsights ∉ log_)).
Proof.
  intros Hpre H. unfold processText in H. rewrite Hpre in H.
  destruct (tryCatch _ _ _) as [c fr] eqn:Hrun.
  injection H as -> <-.
  run_stages_in Hrun; try discriminate Hrun;
    injection Hrun as <- <-;
    (split; [| split; [| split]]); intros Hflag; try discriminate Hflag;
    (split; [try reflexivity; try (now left); try (now right) |]);
    intros Hin; cbn [console] in Hin;
    repeat (apply elem_of_cons in Hin as [Hin | Hin]; [discriminate Hin |]);
    inversion Hin.
Qed.
End AnyEngine.

Lemma skipped_stage_is_left_alone_witness :
  exists r log_,
    processText (construct simplePreprocessor simpleInsights) sampleClock
                (Some {| skipSentiment := true; skipActionItems := false;
                         skipTopics := true; skipInsights := false;
                         storeResults := false |})
                sampleTranscript = (Normal r, log_)
    /\ sentiment r = defaultSentiment /\ (LogSentiment ∉ log_)
    /\ topics r = defaultTopics /\ (LogTopics ∉ log_).
Proof.
  destruct (processText (construct simplePreprocessor simpleInsights) sampleClock
                (Some {| skipSentiment := true; skipActionItems := false;
                         skipTopics := true; skipInsights := false;
                         storeResults := false |})
                sampleTranscript) as [c log_] eqn:Hrun.
  assert (Hc : exists r, c = Normal r).
  { revert Hrun. vm_compute. intros H. injection H as <- _. eexists. reflexivity. }
  destruct Hc as [r ->]. exists r, log_. split; [reflexivity |].
  destruct (skipped_stage_is_left_alone
              (construct simplePreprocessor simpleInsights) sampleClock _
              sampleTranscript _ _ _ r log_ ltac:(vm_compute; reflexivity) Hrun)
    as (H1 & _ & H3 & _).
  destruct (H1 eq_refl) as [Ha Hb]. destruct (H3 eq_refl) as [Hc Hd].
  now repeat split.
Defined.

Lemma processText_metadata_witness :
  exists r log_,
    processText (construct simplePreprocessor simpleInsights) sampleClock None
                sampleTranscript = (Normal r, log_)
    /\ originalText r = sampleTranscript
    /\ wordCount r = length sampleWords
    /\ sentenceCount r = length sampleSentences
    /\ processingTime r = 7%Z
    /\ noDataStored (privacy r) = true.
Proof.
  destruct (processText (construct simplePreprocessor simpleInsights) sampleClock None
                        sampleTranscript) as [c log_] eqn:Hrun.
  assert (Hc : exists r, c = Normal r).
  { revert Hrun. vm_compute. intros H. injection H as <- _. eexists. reflexivity. }
  destruct Hc as [r ->]. exists r, log_. split; [reflexivity |].
  destruct (processText_metadata
              (construct simplePreprocessor simpleInsights) sampleClock None
              sampleTranscript _ sampleSentences sampleWords r log_
              ltac:(vm_compute; reflexivity) Hrun)
    as (H1 & _ & H3 & H4 & _ & H6 & _ & _ & H9).
  now repeat split.
Defined.

(** *** The engine as constructed *)

(** X27: When preprocessing returns and the insight generator returns, the
    engine built by the constructor runs the four stages in order: the
    result holds the sentiment analysis, the detected action items and
    the extracted topics of the cleaned text, the insight generator has
    seen all three, and the console shows the seven lines of a complete
    run. *)
Theorem processText_runs_all_stages (tp : TextPreprocessor)
        (generate : NLPResult -> completion Insights) (clock : Clock)
        (text processedText_ : string) (sentences words : list string) :
  preprocess (construct tp generate) text = Normal (processedText_, sentences, words) ->
  exists a,
    ActionPatterns.detect ActionPatterns.initializePatterns processedText_ sentences
    = Normal a
    /\ let analysed :=
         setTopics (TopicExtractor.extract TopicExtractor.new processedText_ words)
           (setActionItems a
              (setSentiment
                 (SentimentDictionary.analyze SentimentDictionary.dict processedText_ words)
                 (initialResult clock None text processedText_ sentences words))) in
       forall ins,
         generate analysed = Normal ins ->
         processText (construct tp generate) clock None text
         = (Normal (setProcessingTime (endNow clock - startNow clock)
                                      (setInsights ins analysed)),
            [LogProcessing (strlen text); LogSentiment; LogActionItems; LogTopics;
             LogInsights; LogComplete (endNow clock - startNow clock); LogOnDevice]).
Proof.
  intros Hpre.
  destruct (ActionProofs.scanPatterns_returns
              ActionPatterns.initializePatterns processedText_
              ActionProofs.initializePatterns_consume ([], []))
    as [[allMatches results] Hscan].
  eexists. split; [unfold ActionPatterns.detect; rewrite Hscan; reflexivity |].
  set (a := {| ActionPatterns.items := _ |}).
  assert (Hdet : ActionPatterns.detect ActionPatterns.initializePatterns
                                       processedText_ sentences = Normal a).
  { unfold ActionPatterns.detect. rewrite Hscan. reflexivity. }
  clearbody a. clear Hscan.
  cbv zeta. intros ins Hins.
  unfold processText. rewrite Hpre.
  unfold tryCatch, tryBlock, catchBlock, sentimentStage, actionStage, topicStage,
    insightStage, mbind, M_bind, mret, M_ret, log, await, assign, readResult.
  unfold construct at 1 2 3 4.
  cbn [analyzeSentiment detectActionItems extractTopics generateInsights flag negb].
  set (s := SentimentDictionary.analyze SentimentDictionary.dict processedText_ words)
    in *.
  set (t := TopicExtractor.extract TopicExtractor.new processedText_ words) in *.
  clearbody s t.
  rewrite Hdet.
  cbn [result console app].
  rewrite Hins.
  reflexivity.
Qed.

Lemma processText_runs_all_stages_witness :
  exists a,
    ActionPatterns.detect ActionPatterns.initializePatterns sampleTranscript
                          sampleSentences = Normal a
    /\ let analysed :=
         setTopics (TopicExtractor.extract TopicExtractor.new sampleTranscript sampleWords)
           (setActionItems a
              (setSentiment
                 (SentimentDictionary.analyze SentimentDictionary.dict sampleTranscript
                                              sampleWords)
                 (initialResult sampleClock None sampleTranscript sampleTranscript
                                sampleSentences sampleWords))) in
       forall ins,
         simpleInsights analysed = Normal ins ->
         processText (construct simplePreprocessor simpleInsights) sampleClock None
                     sampleTranscript
         = (Normal (setProcessingTime (endNow sampleClock - startNow sampleClock)
                                      (setInsights ins analysed)),
            [LogProcessing (strlen sampleTranscript); LogSentiment; LogActionItems;
             LogTopics; LogInsights;
             LogComplete (endNow sampleClock - startNow sampleClock); LogOnDevice]).
Proof.
  apply (processText_runs_all_stages simplePreprocessor simpleInsights sampleClock
           sampleTranscript sampleTranscript sampleSentences sampleWords).
  vm_compute. reflexivity.
Defined.

(** *** [quickSentiment] *)

Lemma quickConfidence_range (d : SentimentDictionary.Dictionaries) (words : list string) :
  (0 <= SentimentDictionary.quickConfidence (SentimentDictionary.quickAnalyze d words)
   <= 9 # 10)%Q.
Proof.
  unfold SentimentDictionary.quickAnalyze.
  destruct (SentimentDictionary.countHits d words) as [p n].
  destruct (p + n =? 0)%nat; [split; discriminate |].
  assert (H : (0 <= Math_min (9 # 10)
                      (ofNat (p + n) / Math_max 1 (ofNat (length words)) * 2)
               <= 9 # 10)%Q).
  { split; [| apply Math_min_l].
    apply Math_min_glb; [discriminate |].
    apply Qmult_le_0_compat; [| discriminate].
    apply Qdiv_nonneg; [apply ofNat_nonneg | now apply Math_max_pos_l]. }
  destruct (Qltb _ _); [exact H |]. destruct (Qltb _ _); exact H.
Qed.

(** X28: On a text of white space only [quickSentiment] answers neutral with
    confidence 0 without calling the tokenizer.  Otherwise the tokenizer
    is given the text in lower case and its exception, if any, reaches
    the caller; a returned answer has a confidence in [0, 0.9] and the
    emoji that goes with the label. *)
Theorem quickSentiment_feedback (tp : TextPreprocessor)
        (d : SentimentDictionary.Dictionaries) (text : string) :
  (trim text = "" ->
   quickSentiment tp d text
   = Normal {| feedbackLabel := SentimentDictionary.Neutral;
               feedbackConfidence := 0; emoji := NeutralFace |})
  /\ (trim text <> "" ->
      forall e, tokenize tp (toLowerCase text) = Throw e ->
                quickSentiment tp d text = Throw e)
  /\ (forall f, quickSentiment tp d text = Normal f ->
                (0 <= feedbackConfidence f <= 9 # 10)%Q
                /\ emoji f = match feedbackLabel f with
                             | SentimentDictionary.Positive => SmilingFace
                             | SentimentDictionary.Negative => PensiveFace
                             | SentimentDictionary.Neutral => NeutralFace
                             end).
Proof.
  unfold quickSentiment.
  destruct (trim text) as [| c rest_] eqn:Et.
  - split; [reflexivity |]. split; [congruence |].
    intros f H. injection H as <-. simpl. split; [split; discriminate | reflexivity].
  - split; [discriminate |]. split.
    + intros _ e He. rewrite He. reflexivity.
    + intros f H.
      destruct (tokenize tp (toLowerCase text)) as [words | e |]; simpl in H;
        [| discriminate | discriminate].
      injection H as <-. cbn [feedbackConfidence feedbackLabel emoji].
      split; [apply quickConfidence_range | reflexivity].
Qed.

End PipelineExtra.
